(** * Navmesh viewer: the OBJ loader, the bounds, the camera and the frame loop

    A shallow embedding of the Go program, followed by the properties
    proved about it.  The repository holds two versions of the viewer: the
    one-mesh [main.go], and the version with several meshes and a reload
    key.  [loadOBJFile], [calculateBounds], [mouseCallback], [keyCallback]
    and [processInput] are the same text in both; the scene, the reload
    and the loop are embedded from the second.

    Conventions.
    - Go's [int] is the 64-bit signed integer of the amd64 build the
      Makefile produces; integers are [Z] with the wrap-around written
      out ([uint32], [int64], ...).
    - A Go [string] is a [String.string], a sequence of bytes.
    - [float64] and [float32] are IEEE 754 binary64 and binary32:
      [spec_float] with the operations of [SpecFloat] at precision 53 and
      24, rounding to nearest with ties to even.
    - Package-level variables are the fields of one record, [Globals]; a
      function that reads and writes them takes and returns the record.
    - What the program acts on (the OpenGL driver, the log, the window,
      the dialogs, the pauses) is the rest of the state [World], threaded
      by commands [Cmd] that may end the process.
    - The file system, the file dialog, the OpenGL driver, [mgl32] and the
      transcendental functions of [math] are collaborators: they enter as
      the fields of an interface, or as what a frame reads from outside.
      A file is given as the lines [bufio.Scanner] yields for it. *)

From Stdlib Require Import ZArith List String Ascii Bool Lia.
From Corelib Require Import SpecFloat.
Import ListNotations.

Open Scope string_scope.
Open Scope list_scope.
Open Scope Z_scope.

(* ================================================================== *)
(** * Part I.  The program                                             *)
(* ================================================================== *)

(** ** Go integers *)

Module GoInt.

Definition maxUint32 : Z := 4294967295.
Definition maxUint64 : Z := 18446744073709551615.
Definition maxInt64 : Z := 9223372036854775807.
Definition minInt64 : Z := -9223372036854775808.

(** Conversion to [uint32] and to [uint64]: the value modulo 2^32, 2^64. *)
Definition uint32 (n : Z) : Z := n mod 4294967296.
Definition uint64 (n : Z) : Z := n mod 18446744073709551616.

(** The result of a signed 64-bit operation: two's complement wrap. *)
Definition int64 (n : Z) : Z :=
  (n + 9223372036854775808) mod 18446744073709551616 - 9223372036854775808.
Definition int32 (n : Z) : Z := (n + 2147483648) mod 4294967296 - 2147483648.

(** [len(l)]. *)
Definition len {A} (l : list A) : Z := Z.of_nat (List.length l).

(** [l[i]]; [None] is the index-out-of-range panic. *)
Definition index {A} (l : list A) (i : Z) : option A :=
  if i <? 0 then None else nth_error l (Z.to_nat i).

End GoInt.

(** ** Package [strings] *)

Module Strings.

(** [asciiSpace] of package [strings]: tab, newline, vertical tab, form
    feed, carriage return and space. *)
Definition isSpace (c : ascii) : bool :=
  match N_of_ascii c with
  | 9%N | 10%N | 11%N | 12%N | 13%N | 32%N => true
  | _ => false
  end.

(** The other characters of [unicode.IsSpace], as the bytes of their
    UTF-8 encoding: U+0085 and U+00A0 in two bytes; U+1680, U+2000 to
    U+200A, U+2028, U+2029, U+202F, U+205F and U+3000 in three.  Their
    first byte never continues another character, so the decoder of
    [FieldsFunc] reads them wherever the bytes occur. *)
Definition isSpace2 (c1 c2 : ascii) : bool :=
  match N_of_ascii c1, N_of_ascii c2 with
  | 194%N, (133%N | 160%N) => true
  | _, _ => false
  end.

Definition isSpace3 (c1 c2 c3 : ascii) : bool :=
  match N_of_ascii c1, N_of_ascii c2, N_of_ascii c3 with
  | 225%N, 154%N, 128%N => true
  | 226%N, 128%N, b => ((128 <=? b) && (b <=? 138) || (b =? 168) || (b =? 169)
                        || (b =? 175))%N
  | 226%N, 129%N, 159%N => true
  | 227%N, 128%N, 128%N => true
  | _, _, _ => false
  end.

Definition snoc (s : string) (c : ascii) : string := (s ++ String c "")%string.

Definition flush (cur : string) (k : list string) : list string :=
  match cur with
  | "" => k
  | _ => cur :: k
  end.

(** [fieldsFrom cur s]: the fields of [s], [cur] being the field read so
    far. *)
Fixpoint fieldsFrom (cur s : string) : list string :=
  match s with
  | "" => flush cur []
  | String c1 rest1 =>
      if isSpace c1 then flush cur (fieldsFrom "" rest1)
      else
        match rest1 with
        | String c2 rest2 =>
            if isSpace2 c1 c2 then flush cur (fieldsFrom "" rest2)
            else
              match rest2 with
              | String c3 rest3 =>
                  if isSpace3 c1 c2 c3 then flush cur (fieldsFrom "" rest3)
                  else fieldsFrom (snoc cur c1) rest1
              | "" => fieldsFrom (snoc cur c1) rest1
              end
        | "" => fieldsFrom (snoc cur c1) rest1
        end
  end.

(** [strings.Fields]: the maximal runs of bytes without white space. *)
Definition Fields (s : string) : list string := fieldsFrom "" s.

Fixpoint splitFrom (sep : ascii) (cur s : string) : list string :=
  match s with
  | "" => [cur]
  | String c rest =>
      if Ascii.eqb c sep then cur :: splitFrom sep "" rest
      else splitFrom sep (snoc cur c) rest
  end.

(** [strings.Split(s, sep)] for a separator of one byte. *)
Definition Split (s : string) (sep : ascii) : list string :=
  splitFrom sep "" s.

End Strings.

(** ** Package [strconv]: [Atoi] *)

Module Strconv.
Import GoInt.

Inductive NumError := ErrSyntax | ErrRange.

Definition digit (c : ascii) : option Z :=
  let n := Z.of_N (N_of_ascii c) in
  if (48 <=? n) && (n <=? 57) then Some (n - 48) else None.

(** The smallest number whose product with the base 10 exceeds
    [maxUint64]. *)
Definition cutoff10 : Z := maxUint64 / 10 + 1.

(** The loop of [ParseUint(s, 10, 64)] from the accumulator [n]. *)
Fixpoint parseUintLoop (s : string) (n : Z) : Z * option NumError :=
  match s with
  | "" => (n, None)
  | String c rest =>
      match digit c with
      | None => (0, Some ErrSyntax)
      | Some d =>
          if cutoff10 <=? n then (maxUint64, Some ErrRange)
          else
            let n10 := uint64 (n * 10) in
            let n1 := uint64 (n10 + d) in
            if (n1 <? n10) || (maxUint64 <? n1) then (maxUint64, Some ErrRange)
            else parseUintLoop rest n1
      end
  end.

Definition ParseUint (s : string) : Z * option NumError :=
  match s with
  | "" => (0, Some ErrSyntax)
  | _ => parseUintLoop s 0
  end.

(** [ParseInt(s, 10, 0)] with the 64-bit [int]. *)
Definition ParseInt (s : string) : Z * option NumError :=
  match s with
  | "" => (0, Some ErrSyntax)
  | String c rest =>
      let neg := Ascii.eqb c "-" in
      let body := if Ascii.eqb c "+" || neg then rest else s in
      match ParseUint body with
      | (_, Some ErrSyntax) => (0, Some ErrSyntax)
      | (un, _) =>
          let cutoff := 9223372036854775808 in
          if negb neg && (cutoff <=? un) then (cutoff - 1, Some ErrRange)
          else if neg && (cutoff <? un) then (- cutoff, Some ErrRange)
          else (if neg then - un else un, None)
      end
  end.

(** [Atoi(s)] is [ParseInt(s, 10, 0)] converted to [int]. *)
Definition Atoi (s : string) : Z * option NumError := ParseInt s.

End Strconv.

(** ** Floating point: [float64], [float32] and package [math] *)

Module Float.
Import GoInt.

Definition float64 : Type := spec_float.
Definition float32 : Type := spec_float.

Definition NaN : spec_float := S754_nan.
Definition Inf (negative : bool) : spec_float := S754_infinity negative.

(** Rounding of a value to the format of precision [prec] (to nearest,
    ties to even; overflow gives an infinity, underflow a zero). *)
Definition round (prec emax : Z) (x : spec_float) : spec_float :=
  match x with
  | S754_finite s m e => binary_round prec emax s m e
  | _ => x
  end.

(** The conversions [float64(x)] and [float32(x)]. *)
Definition to64 (x : float32) : float64 := round 53 1024 x.
Definition to32 (x : float64) : float32 := round 24 128 x.

(** A [float32] in canonical form: widening it and narrowing it back
    gives the same value. *)
Definition exact32 (x : float32) : Prop := to32 (to64 x) = x.

Definition add64 : float64 -> float64 -> float64 := SFadd 53 1024.
Definition sub64 : float64 -> float64 -> float64 := SFsub 53 1024.
Definition mul64 : float64 -> float64 -> float64 := SFmul 53 1024.
Definition div64 : float64 -> float64 -> float64 := SFdiv 53 1024.
Definition add32 : float32 -> float32 -> float32 := SFadd 24 128.
Definition sub32 : float32 -> float32 -> float32 := SFsub 24 128.
Definition mul32 : float32 -> float32 -> float32 := SFmul 24 128.
Definition div32 : float32 -> float32 -> float32 := SFdiv 24 128.

Definition ltb (x y : spec_float) : bool := SFltb x y.
Definition leb (x y : spec_float) : bool := SFleb x y.
Definition eqb (x y : spec_float) : bool := SFeqb x y.

(** The constants of the program: integers, and decimal fractions
    [n/d] rounded once to the format. *)
Definition int64_to64 (n : Z) : float64 := binary_normalize 53 1024 n 0 false.
Definition int_to32 (n : Z) : float32 := binary_normalize 24 128 n 0 false.
Definition dec64 (n d : Z) : float64 := div64 (int64_to64 n) (int64_to64 d).
Definition dec32 (n d : Z) : float32 := div32 (int_to32 n) (int_to32 d).

Definition isNaN (x : spec_float) : bool :=
  match x with S754_nan => true | _ => false end.

Definition isInf (x : spec_float) (negative : bool) : bool :=
  match x with S754_infinity s => Bool.eqb s negative | _ => false end.

Definition isZero (x : spec_float) : bool :=
  match x with S754_zero _ => true | _ => false end.

Definition Signbit (x : spec_float) : bool :=
  match x with
  | S754_zero s | S754_infinity s | S754_finite s _ _ => s
  | S754_nan => false
  end.

(** A finite number: neither an infinity nor a NaN. *)
Definition isFinite (x : spec_float) : bool :=
  match x with
  | S754_zero _ | S754_finite _ _ _ => true
  | _ => false
  end.

(** [math.Min]: -Inf wins, then NaN, then -0 before +0. *)
Definition Min (x y : float64) : float64 :=
  if isInf x true || isInf y true then Inf true
  else if isNaN x || isNaN y then NaN
  else if isZero x && eqb x y then (if Signbit x then x else y)
  else if ltb x y then x else y.

(** [math.Max]: +Inf wins, then NaN, then +0 before -0. *)
Definition Max (x y : float64) : float64 :=
  if isInf x false || isInf y false then Inf false
  else if isNaN x || isNaN y then NaN
  else if isZero x && eqb x y then (if Signbit x then y else x)
  else if ltb y x then x else y.

(** The integer part of a finite number, towards zero. *)
Definition trunc (x : float64) : option Z :=
  match x with
  | S754_zero _ => Some 0
  | S754_finite s m e =>
      Some (cond_Zopp s (match e with
                         | Zneg k => Z.pos m / 2 ^ Z.pos k
                         | _ => Z.pos m * 2 ^ e
                         end))
  | _ => None
  end.

(** The conversion [int64(x)] of a [float64].  Where the integer part
    does not fit (and for an infinity or a NaN) the amd64 instruction
    gives the smallest [int64]. *)
Definition to_int64 (x : float64) : Z :=
  match trunc x with
  | Some t => if (minInt64 <=? t) && (t <=? maxInt64) then t else minInt64
  | None => minInt64
  end.

End Float.

(** ** The mesh data: bounds and the OBJ loader *)

Module Mesh.
Import GoInt Float.

Record Bounds := mkBounds {
  minX : float32; minY : float32; minZ : float32;
  maxX : float32; maxY : float32; maxZ : float32
}.

(** The zero value [Bounds{}]. *)
Definition zeroBounds : Bounds :=
  let z := S754_zero false in mkBounds z z z z z z.

(** What the program writes to the log. *)
Inductive LogEvent :=
| LogLoaded (vertices indices : Z)
| LogBounds (b : Bounds)
| LogNoMeshData (filename : string).

Definition min32 (a b : float32) : float32 := to32 (Min (to64 a) (to64 b)).
Definition max32 (a b : float32) : float32 := to32 (Max (to64 a) (to64 b)).

Definition combineBounds (a b : Bounds) : Bounds :=
  {| minX := min32 (minX a) (minX b);
     minY := min32 (minY a) (minY b);
     minZ := min32 (minZ a) (minZ b);
     maxX := max32 (maxX a) (maxX b);
     maxY := max32 (maxY a) (maxY b);
     maxZ := max32 (maxZ a) (maxZ b) |}.

(** One iteration of the loop of [calculateBounds]. *)
Definition growBounds (b : Bounds) (x y z : float32) : Bounds :=
  {| minX := min32 (minX b) x;
     minY := min32 (minY b) y;
     minZ := min32 (minZ b) z;
     maxX := max32 (maxX b) x;
     maxY := max32 (maxY b) y;
     maxZ := max32 (maxZ b) z |}.

(** The loop [for i := 0; i < len(vertices); i += 3] over the elements
    from [i] on; [None] is the index-out-of-range panic. *)
Fixpoint boundsLoop (vertices : list float32) (b : Bounds) : option Bounds :=
  match vertices with
  | [] => Some b
  | x :: y :: z :: rest => boundsLoop rest (growBounds b x y z)
  | _ => None
  end.

Definition calculateBounds (vertices : list float32) : option (Bounds * list LogEvent) :=
  match vertices with
  | v0 :: v1 :: v2 :: _ =>
      match boundsLoop vertices (mkBounds v0 v1 v2 v0 v1 v2) with
      | Some b => Some (b, [LogBounds b])
      | None => None
      end
  | _ => None
  end.

(** *** The parser *)

Section Loader.

(** [strconv.ParseFloat(s, 32)], its error dropped. *)
Variable ParseFloat32 : string -> float64.

(** The file system: the lines the scanner yields for a path, [None]
    when the file cannot be opened. *)
Variable openFile : string -> option (list string).

Definition Vertex : Type := (float32 * float32 * float32)%type.

Definition field (fields : list string) (i : nat) : string := nth i fields "".

(** The index one face field contributes. *)
Definition faceIndex (fld : string) : Z :=
  let vertexData := Strings.Split fld "/" in
  let idx := fst (Strconv.Atoi (hd "" vertexData)) in
  uint32 (int64 (idx - 1)).

(** The loop [for i := 1; i < len(fields); i++] of a face line. *)
Definition faceLoop (refs : list string) (indices : list Z) : list Z :=
  fold_left (fun acc fld => acc ++ [faceIndex fld]) refs indices.

(** The body of the scanning loop: [tempVertices] and [indices] after
    one more line. *)
Definition scanLine (st : list Vertex * list Z) (line : string)
  : list Vertex * list Z :=
  let '(tempVertices, indices) := st in
  let fields := Strings.Fields line in
  if (len fields =? 0) then st
  else if String.eqb (field fields 0) "v" then
    if len fields <? 4 then st
    else
      let x := ParseFloat32 (field fields 1) in
      let y := ParseFloat32 (field fields 2) in
      let z := ParseFloat32 (field fields 3) in
      (tempVertices ++ [(to32 x, to32 y, to32 z)], indices)
  else if String.eqb (field fields 0) "f" then
    if len fields <? 4 then st
    else (tempVertices, faceLoop (tl fields) indices)
  else st.

(** The last loop: the vertices laid out flat. *)
Definition flatten (tempVertices : list Vertex) : list float32 :=
  fold_left (fun acc v => let '(x, y, z) := v in acc ++ [x; y; z])
            tempVertices [].

(** The buffers built from the lines of a file. *)
Definition parseLines (lines : list string) : list float32 * list Z :=
  let '(tempVertices, indices) := fold_left scanLine lines ([], []) in
  (flatten tempVertices, indices).

(** [loadOBJFile]: [None] is [log.Fatal] on a file that does not open. *)
Definition loadOBJFile (filename : string)
  : option (list float32 * list Z * list LogEvent) :=
  match openFile filename with
  | None => None
  | Some lines =>
      let '(vertices, indices) := parseLines lines in
      Some (vertices, indices,
            [LogLoaded (len vertices / 3)
                       (len indices)])
  end.

End Loader.

End Mesh.

(** ** The collaborators *)

Module Collab.
Import Float.

(** The part of [mgl32] the program uses. *)
Class Mgl32 := {
  Vec3 : Type;
  Mat4 : Type;
  vec3 : float32 -> float32 -> float32 -> Vec3;
  Add : Vec3 -> Vec3 -> Vec3;
  Sub : Vec3 -> Vec3 -> Vec3;
  Mul : Vec3 -> float32 -> Vec3;
  Cross : Vec3 -> Vec3 -> Vec3;
  Normalize : Vec3 -> Vec3;
  DegToRad : float32 -> float32;
  Perspective : float32 -> float32 -> float32 -> float32 -> Mat4;
  LookAtV : Vec3 -> Vec3 -> Vec3 -> Mat4;
  Ident4 : Mat4
}.

(** The host: [math.Cos], [math.Sin], [strconv.ParseFloat(s, 32)],
    [filepath.Dir] and the files that can be opened (as the lines the
    scanner yields). *)
Class Host := {
  Cos : float64 -> float64;
  Sin : float64 -> float64;
  ParseFloat32 : string -> float64;
  Dir : string -> string;
  openFile : string -> option (list string)
}.

Inductive BufferTarget := ARRAY_BUFFER | ELEMENT_ARRAY_BUFFER.
Inductive PolygonModeKind := FILL | LINE.

(** The OpenGL calls of the program that return nothing. *)
Inductive GLCall {M : Mgl32} :=
| BindVertexArray (vao : Z)
| BindBuffer (target : BufferTarget) (buffer : Z)
| BufferDataFloat (target : BufferTarget) (size : Z) (data : list float32)
| BufferDataUint (target : BufferTarget) (size : Z) (data : list Z)
| EnableVertexAttribArray (index : Z)
| VertexAttribPointer (index size : Z)
| DeleteVertexArrays (vao : Z)
| DeleteBuffers (buffer : Z)
| Clear
| UseProgram (program : Z)
| UniformMatrix4fv (location : Z) (m : Mat4)
| Uniform1i (location : Z) (v : Z)
| PolygonMode (mode : PolygonModeKind)
| EnablePolygonOffsetFill
| DisablePolygonOffsetFill
| PolygonOffset
| LineWidth
| DrawElements (count : Z).

(** The OpenGL driver: its state, the calls that return a name, and the
    effect of the others. *)
Class GLDriver {M : Mgl32} := {
  GLState : Type;
  GenVertexArrays : GLState -> Z * GLState;
  GenBuffers : GLState -> Z * GLState;
  GetUniformLocation : Z -> string -> GLState -> Z;
  glCall : GLCall -> GLState -> GLState
}.

(** [glfw]: key states, keys, and the events [PollEvents] delivers.  The
    program registers a cursor-position and a key callback and no close
    callback: on a request to close the window (the close button of the
    title bar) [glfw] sets the close flag of the window itself. *)
Inductive Action := Release | Press | Repeat.

Inductive Key :=
| KeyLeftShift | KeyW | KeyS | KeyA | KeyD | KeyF1 | KeyEscape
| KeyOther (code : Z).

Inductive Event :=
| CursorPos (xpos ypos : float64)
| KeyEvent (key : Key) (action : Action)
| WindowClose.

(** What [zenity.SelectFileMultiple] answers. *)
Inductive DialogAnswer :=
| Selected (filenames : list string)
| Canceled
| DialogFailed.

Definition Action_eqb (a b : Action) : bool :=
  match a, b with
  | Release, Release | Press, Press | Repeat, Repeat => true
  | _, _ => false
  end.

End Collab.

(** ** The viewer *)

Module Viewer.
Import GoInt Float Mesh Collab.

(** The constants. *)
Definition width : Z := 1280.
Definition height : Z := 720.
Definition baseSpeed : float64 := int64_to64 100.
Definition mouseSensitivity : float64 := dec64 1 10.
Definition speedMultipliers : list float64 :=
  map int64_to64 [1; 5; 10; 20; 40].

(** [time.Second], in nanoseconds. *)
Definition Second : Z := 1000000000.

Record MeshData := mkMeshData {
  vertices : list float32;
  indices : list Z;
  bounds : Bounds;
  vao : Z;
  vbo : Z;
  ebo : Z
}.

(** The zero value [MeshData{}]. *)
Definition emptyMesh : MeshData := mkMeshData [] [] zeroBounds 0 0 0.

Record Scene := mkScene {
  meshes : list MeshData;
  sceneBounds : Bounds
}.

Inductive Title :=
| TitleFiles (joined : string)
| TitleSpeed (multiplier : float64).

Section Program.
Context {M : Mgl32} {H : Host} {G : GLDriver}.

(** The package-level variables. *)
Record Globals := mkGlobals {
  cameraPos : Vec3;
  cameraFront : Vec3;
  cameraUp : Vec3;
  yaw : float64;
  pitch : float64;
  lastX : float64;
  lastY : float64;
  firstMouse : bool;
  deltaTime : float64;
  lastFrame : float64;
  currentSpeedIndex : Z;
  lastShiftState : Action;
  lastDirectory : string;
  scene : Scene
}.

Definition set_cameraPos (v : Vec3) (g : Globals) : Globals :=
  mkGlobals v (cameraFront g) (cameraUp g) (yaw g) (pitch g) (lastX g) (lastY g) (firstMouse g) (deltaTime g) (lastFrame g) (currentSpeedIndex g) (lastShiftState g) (lastDirectory g) (scene g).
Definition set_cameraFront (v : Vec3) (g : Globals) : Globals :=
  mkGlobals (cameraPos g) v (cameraUp g) (yaw g) (pitch g) (lastX g) (lastY g) (firstMouse g) (deltaTime g) (lastFrame g) (currentSpeedIndex g) (lastShiftState g) (lastDirectory g) (scene g).
Definition set_cameraUp (v : Vec3) (g : Globals) : Globals :=
  mkGlobals (cameraPos g) (cameraFront g) v (yaw g) (pitch g) (lastX g) (lastY g) (firstMouse g) (deltaTime g) (lastFrame g) (currentSpeedIndex g) (lastShiftState g) (lastDirectory g) (scene g).
Definition set_yaw (v : float64) (g : Globals) : Globals :=
  mkGlobals (cameraPos g) (cameraFront g) (cameraUp g) v (pitch g) (lastX g) (lastY g) (firstMouse g) (deltaTime g) (lastFrame g) (currentSpeedIndex g) (lastShiftState g) (lastDirectory g) (scene g).
Definition set_pitch (v : float64) (g : Globals) : Globals :=
  mkGlobals (cameraPos g) (cameraFront g) (cameraUp g) (yaw g) v (lastX g) (lastY g) (firstMouse g) (deltaTime g) (lastFrame g) (currentSpeedIndex g) (lastShiftState g) (lastDirectory g) (scene g).
Definition set_lastX (v : float64) (g : Globals) : Globals :=
  mkGlobals (cameraPos g) (cameraFront g) (cameraUp g) (yaw g) (pitch g) v (lastY g) (firstMouse g) (deltaTime g) (lastFrame g) (currentSpeedIndex g) (lastShiftState g) (lastDirectory g) (scene g).
Definition set_lastY (v : float64) (g : Globals) : Globals :=
  mkGlobals (cameraPos g) (cameraFront g) (cameraUp g) (yaw g) (pitch g) (lastX g) v (firstMouse g) (deltaTime g) (lastFrame g) (currentSpeedIndex g) (lastShiftState g) (lastDirectory g) (scene g).
Definition set_firstMouse (v : bool) (g : Globals) : Globals :=
  mkGlobals (cameraPos g) (cameraFront g) (cameraUp g) (yaw g) (pitch g) (lastX g) (lastY g) v (deltaTime g) (lastFrame g) (currentSpeedIndex g) (lastShiftState g) (lastDirectory g) (scene g).
Definition set_deltaTime (v : float64) (g : Globals) : Globals :=
  mkGlobals (cameraPos g) (cameraFront g) (cameraUp g) (yaw g) (pitch g) (lastX g) (lastY g) (firstMouse g) v (lastFrame g) (currentSpeedIndex g) (lastShiftState g) (lastDirectory g) (scene g).
Definition set_lastFrame (v : float64) (g : Globals) : Globals :=
  mkGlobals (cameraPos g) (cameraFront g) (cameraUp g) (yaw g) (pitch g) (lastX g) (lastY g) (firstMouse g) (deltaTime g) v (currentSpeedIndex g) (lastShiftState g) (lastDirectory g) (scene g).
Definition set_currentSpeedIndex (v : Z) (g : Globals) : Globals :=
  mkGlobals (cameraPos g) (cameraFront g) (cameraUp g) (yaw g) (pitch g) (lastX g) (lastY g) (firstMouse g) (deltaTime g) (lastFrame g) v (lastShiftState g) (lastDirectory g) (scene g).
Definition set_lastShiftState (v : Action) (g : Globals) : Globals :=
  mkGlobals (cameraPos g) (cameraFront g) (cameraUp g) (yaw g) (pitch g) (lastX g) (lastY g) (firstMouse g) (deltaTime g) (lastFrame g) (currentSpeedIndex g) v (lastDirectory g) (scene g).
Definition set_lastDirectory (v : string) (g : Globals) : Globals :=
  mkGlobals (cameraPos g) (cameraFront g) (cameraUp g) (yaw g) (pitch g) (lastX g) (lastY g) (firstMouse g) (deltaTime g) (lastFrame g) (currentSpeedIndex g) (lastShiftState g) v (scene g).
Definition set_scene (v : Scene) (g : Globals) : Globals :=
  mkGlobals (cameraPos g) (cameraFront g) (cameraUp g) (yaw g) (pitch g) (lastX g) (lastY g) (firstMouse g) (deltaTime g) (lastFrame g) (currentSpeedIndex g) (lastShiftState g) (lastDirectory g) v.

(** The program's variables together with what it acts on: the driver,
    the log, the window, the dialogs opened (each with its start
    directory) and the pauses taken (in nanoseconds). *)
Record World := mkWorld {
  globals : Globals;
  gl : GLState;
  logged : list LogEvent;
  windowTitle : Title;
  shouldClose : bool;
  dialogs : list string;
  pauses : list Z
}.

Definition with_globals (f : Globals -> Globals) (w : World) : World :=
  mkWorld (f (globals w)) (gl w) (logged w) (windowTitle w) (shouldClose w)
          (dialogs w) (pauses w).
Definition with_gl (f : GLState -> GLState) (w : World) : World :=
  mkWorld (globals w) (f (gl w)) (logged w) (windowTitle w) (shouldClose w)
          (dialogs w) (pauses w).
Definition with_logged (f : list LogEvent -> list LogEvent) (w : World) : World :=
  mkWorld (globals w) (gl w) (f (logged w)) (windowTitle w) (shouldClose w)
          (dialogs w) (pauses w).
Definition SetTitle (t : Title) (w : World) : World :=
  mkWorld (globals w) (gl w) (logged w) t (shouldClose w) (dialogs w) (pauses w).
Definition SetShouldClose (b : bool) (w : World) : World :=
  mkWorld (globals w) (gl w) (logged w) (windowTitle w) b (dialogs w) (pauses w).
Definition openDialog (startDir : string) (w : World) : World :=
  mkWorld (globals w) (gl w) (logged w) (windowTitle w) (shouldClose w)
          (dialogs w ++ [startDir]) (pauses w).

(** [time.Sleep(d)]: a negative or zero [d] returns at once. *)
Definition Sleep (d : Z) (w : World) : World :=
  mkWorld (globals w) (gl w) (logged w) (windowTitle w) (shouldClose w)
          (dialogs w) (pauses w ++ [Z.max 0 d]).

(** *** Commands: a state over [World] that may end the process
    ([log.Fatal] or a run-time panic). *)
Definition Cmd (A : Type) : Type := World -> option (A * World).

Definition ret {A} (a : A) : Cmd A := fun w => Some (a, w).
Definition bind {A B} (c : Cmd A) (k : A -> Cmd B) : Cmd B :=
  fun w => match c w with
           | Some (a, w') => k a w'
           | None => None
           end.
Definition exit {A} : Cmd A := fun _ => None.
Definition act (f : World -> World) : Cmd unit := fun w => Some (tt, f w).
Definition read {A} (f : World -> A) : Cmd A := fun w => Some (f w, w).
Definition lift {A} (o : option A) : Cmd A :=
  fun w => match o with Some a => Some (a, w) | None => None end.

Notation "x <- c ;; k" := (bind c (fun x => k))
  (at level 61, c at next level, right associativity).
Notation "c ;;; k" := (bind c (fun _ => k))
  (at level 61, right associativity).

Definition when (b : bool) (c : Cmd unit) : Cmd unit := if b then c else ret tt.

Fixpoint forEach {A} (l : list A) (body : A -> Cmd unit) : Cmd unit :=
  match l with
  | [] => ret tt
  | a :: rest => body a ;;; forEach rest body
  end.

Definition genVertexArrays : Cmd Z :=
  fun w => let '(name, s) := GenVertexArrays (gl w) in
           Some (name, with_gl (fun _ => s) w).
Definition genBuffers : Cmd Z :=
  fun w => let '(name, s) := GenBuffers (gl w) in
           Some (name, with_gl (fun _ => s) w).
Definition glDo (c : GLCall) : Cmd unit := act (with_gl (glCall c)).
Definition uniformLocation (program : Z) (name : string) : Cmd Z :=
  read (fun w => GetUniformLocation program name (gl w)).
Definition logPrint (events : list LogEvent) : Cmd unit :=
  act (with_logged (fun l => l ++ events)).
Definition update (f : Globals -> Globals) : Cmd unit := act (with_globals f).

(** *** The camera *)

(** The front vector of a yaw and a pitch, before it is normalized. *)
Definition direction (yaw pitch : float64) : Vec3 :=
  vec3
    (to32 (mul64 (Cos (to64 (DegToRad (to32 yaw))))
                 (Cos (to64 (DegToRad (to32 pitch))))))
    (to32 (Sin (to64 (DegToRad (to32 pitch)))))
    (to32 (mul64 (Sin (to64 (DegToRad (to32 yaw))))
                 (Cos (to64 (DegToRad (to32 pitch)))))).

Definition pitchMax : float64 := int64_to64 89.
Definition pitchMin : float64 := int64_to64 (-89).

Definition mouseCallback (xpos ypos : float64) (g : Globals) : Globals :=
  if firstMouse g then
    set_firstMouse false (set_lastY ypos (set_lastX xpos g))
  else
    let xoffset := sub64 xpos (lastX g) in
    let yoffset := sub64 (lastY g) ypos in
    let g := set_lastX xpos g in
    let g := set_lastY ypos g in
    let xoffset := mul64 xoffset mouseSensitivity in
    let yoffset := mul64 yoffset mouseSensitivity in
    let g := set_yaw (add64 (yaw g) xoffset) g in
    let g := set_pitch (add64 (pitch g) yoffset) g in
    let g := if ltb pitchMax (pitch g) then set_pitch pitchMax g else g in
    let g := if ltb (pitch g) pitchMin then set_pitch pitchMin g else g in
    set_cameraFront (Normalize (direction (yaw g) (pitch g))) g.

Definition maxSizeOf (b : Bounds) : float32 :=
  let sizeX := sub32 (maxX b) (minX b) in
  let sizeY := sub32 (maxY b) (minY b) in
  let sizeZ := sub32 (maxZ b) (minZ b) in
  to32 (Max (to64 sizeX) (Max (to64 sizeY) (to64 sizeZ))).

Definition initializeCamera (b : Bounds) (g : Globals) : Globals :=
  let centerX := div32 (add32 (minX b) (maxX b)) (int_to32 2) in
  let centerY := div32 (add32 (minY b) (maxY b)) (int_to32 2) in
  let centerZ := div32 (add32 (minZ b) (maxZ b)) (int_to32 2) in
  let maxSize := maxSizeOf b in
  let viewDistance := mul32 maxSize (dec32 8 10) in
  let g := set_cameraPos
             (vec3 centerX
                   (add32 centerY (mul32 maxSize (dec32 3 10)))
                   (add32 centerZ viewDistance)) g in
  let g := set_yaw (int64_to64 (-90)) g in
  let g := set_pitch (int64_to64 (-20)) g in
  set_cameraFront (Normalize (direction (yaw g) (pitch g))) g.

(** The speed index after the shift key is read. *)
Definition cycleSpeed (currentShiftState : Action) (g : Globals) : Globals :=
  let g :=
    if Action_eqb currentShiftState Press && Action_eqb (lastShiftState g) Release
    then set_currentSpeedIndex
           (Z.rem (int64 (currentSpeedIndex g + 1)) (len speedMultipliers)) g
    else g in
  set_lastShiftState currentShiftState g.

Definition pressed (getKey : Key -> Action) (k : Key) : bool :=
  Action_eqb (getKey k) Press.

(** [processInput]; [None] is the panic of an index out of range. *)
Definition processInput (getKey : Key -> Action) (g : Globals) : option Globals :=
  let g := cycleSpeed (getKey KeyLeftShift) g in
  match index speedMultipliers (currentSpeedIndex g) with
  | None => None
  | Some multiplier =>
      let speed := to32 (mul64 (mul64 baseSpeed multiplier) (deltaTime g)) in
      let right := Normalize (Cross (cameraFront g) (cameraUp g)) in
      let g := if pressed getKey KeyW
               then set_cameraPos (Add (cameraPos g) (Mul (cameraFront g) speed)) g
               else g in
      let g := if pressed getKey KeyS
               then set_cameraPos (Sub (cameraPos g) (Mul (cameraFront g) speed)) g
               else g in
      let g := if pressed getKey KeyA
               then set_cameraPos (Sub (cameraPos g) (Mul right speed)) g
               else g in
      let g := if pressed getKey KeyD
               then set_cameraPos (Add (cameraPos g) (Mul right speed)) g
               else g in
      Some g
  end.

(** [processInput] in consecutive frames, one reading of the keys each. *)
Fixpoint processInputs (frames : list (Key -> Action)) (g : Globals) : option Globals :=
  match frames with
  | [] => Some g
  | getKey :: rest =>
      match processInput getKey g with
      | Some g' => processInputs rest g'
      | None => None
      end
  end.

(** [mouseCallback] on consecutive samples. *)
Definition mouseCallbacks (samples : list (float64 * float64)) (g : Globals) : Globals :=
  fold_left (fun g s => mouseCallback (fst s) (snd s) g) samples g.

Definition keyCallback (key : Key) (action : Action) : Cmd unit :=
  match key, action with
  | KeyEscape, Press => act (SetShouldClose true)
  | _, _ => ret tt
  end.

(** *** The scene *)

Definition loadSingleMesh (program : Z) (filename : string) : Cmd MeshData :=
  r <- lift (loadOBJFile ParseFloat32 openFile filename) ;;
  let '(vertices, indices, out) := r in
  logPrint out ;;;
  if (len vertices =? 0) || (len indices =? 0) then
    logPrint [LogNoMeshData filename] ;;;
    ret emptyMesh
  else
    b <- lift (calculateBounds vertices) ;;
    let '(bounds, out) := b in
    logPrint out ;;;
    vao <- genVertexArrays ;;
    glDo (BindVertexArray vao) ;;;
    vbo <- genBuffers ;;
    glDo (BindBuffer ARRAY_BUFFER vbo) ;;;
    glDo (BufferDataFloat ARRAY_BUFFER (len vertices * 4) vertices) ;;;
    ebo <- genBuffers ;;
    glDo (BindBuffer ELEMENT_ARRAY_BUFFER ebo) ;;;
    glDo (BufferDataUint ELEMENT_ARRAY_BUFFER (len indices * 4) indices) ;;;
    glDo (EnableVertexAttribArray 0) ;;;
    glDo (VertexAttribPointer 0 3) ;;;
    ret (mkMeshData vertices indices bounds vao vbo ebo).

(** The loop [for i := 1; i < len(filenames); i++] of [loadAllMeshes]. *)
Fixpoint loadRemaining (program : Z) (filenames : list string) (newScene : Scene)
  : Cmd Scene :=
  match filenames with
  | [] => ret newScene
  | filename :: rest =>
      mesh <- loadSingleMesh program filename ;;
      loadRemaining program rest
        (mkScene (meshes newScene ++ [mesh])
                 (combineBounds (sceneBounds newScene) (bounds mesh)))
  end.

(** [loadAllMeshes]; an empty list panics at [filenames[0]]. *)
Definition loadAllMeshes (program : Z) (filenames : list string) : Cmd Scene :=
  match filenames with
  | [] => exit
  | first :: rest =>
      firstMesh <- loadSingleMesh program first ;;
      newScene <- loadRemaining program rest
                    (mkScene [firstMesh] (bounds firstMesh)) ;;
      update (initializeCamera (sceneBounds newScene)) ;;;
      ret newScene
  end.

(** The meshes of a list of files, loaded one after the other: what the
    two loops of [loadAllMeshes] build between them. *)
Fixpoint loadEach (program : Z) (filenames : list string) : Cmd (list MeshData) :=
  match filenames with
  | [] => ret []
  | filename :: rest =>
      mesh <- loadSingleMesh program filename ;;
      others <- loadEach program rest ;;
      ret (mesh :: others)
  end.

(** Two outcomes with the same result that leave the driver in the same
    state. *)
Definition sameOutcome {A} (r r' : option (A * World)) : Prop :=
  match r, r' with
  | Some (a, w), Some (a', w') => a = a' /\ gl w = gl w'
  | None, None => True
  | _, _ => False
  end.

(** A command whose result and effect on the driver depend on the state
    of the driver only. *)
Definition driverOnly {A} (c : Cmd A) : Prop :=
  forall w w', gl w = gl w' -> sameOutcome (c w) (c w').

Definition cleanupScene : Cmd unit :=
  sc <- read (fun w => scene (globals w)) ;;
  forEach (meshes sc) (fun m =>
    glDo (DeleteVertexArrays (vao m)) ;;;
    glDo (DeleteBuffers (vbo m)) ;;;
    glDo (DeleteBuffers (ebo m))) ;;;
  update (fun g => set_scene (mkScene [] (sceneBounds (scene g))) g).

Definition renderScene (program : Z) : Cmd unit :=
  glDo Clear ;;;
  glDo (UseProgram program) ;;;
  g <- read globals ;;
  let maxSize := maxSizeOf (sceneBounds (scene g)) in
  let projection :=
    Perspective (DegToRad (int_to32 45))
                (div32 (int_to32 width) (int_to32 height))
                (dec32 1 10) (mul32 maxSize (int_to32 10)) in
  let view := LookAtV (cameraPos g) (Add (cameraPos g) (cameraFront g)) (cameraUp g) in
  let model := Ident4 in
  projectionUniform <- uniformLocation program "projection" ;;
  viewUniform <- uniformLocation program "camera" ;;
  modelUniform <- uniformLocation program "model" ;;
  glDo (UniformMatrix4fv projectionUniform projection) ;;;
  glDo (UniformMatrix4fv viewUniform view) ;;;
  glDo (UniformMatrix4fv modelUniform model) ;;;
  forEach (meshes (scene g)) (fun mesh =>
    glDo (BindVertexArray (vao mesh)) ;;;
    glDo (PolygonMode FILL) ;;;
    glDo EnablePolygonOffsetFill ;;;
    glDo PolygonOffset ;;;
    wire <- uniformLocation program "isWireframe" ;;
    glDo (Uniform1i wire 0) ;;;
    glDo (DrawElements (int32 (len (indices mesh)))) ;;;
    glDo DisablePolygonOffsetFill ;;;
    glDo (PolygonMode LINE) ;;;
    glDo LineWidth ;;;
    wire <- uniformLocation program "isWireframe" ;;
    glDo (Uniform1i wire 1) ;;;
    glDo (DrawElements (int32 (len (indices mesh))))) ;;;
  glDo (PolygonMode FILL) ;;;
  multiplier <- lift (index speedMultipliers (currentSpeedIndex g)) ;;
  act (SetTitle (TitleSpeed multiplier)).

(** *** The file dialog and the reload *)

Inductive error := errNoFilesSelected | errDialog.

(** [selectOBJFiles], given what the dialog answers. *)
Definition selectOBJFiles (startDir : string) (answer : DialogAnswer)
  : Cmd (list string * option error) :=
  act (openDialog startDir) ;;;
  match answer with
  | Canceled => ret ([], Some errNoFilesSelected)
  | DialogFailed => ret ([], Some errDialog)
  | Selected filenames =>
      when (0 <? len filenames)
           (update (set_lastDirectory (Dir (hd "" filenames)))) ;;;
      ret (filenames, None)
  end.

Definition checkFileReload (getKey : Key -> Action) (answer : DialogAnswer)
  : Cmd (list string * option error) :=
  if Action_eqb (getKey KeyF1) Press then
    d <- read (fun w => lastDirectory (globals w)) ;;
    selectOBJFiles d answer
  else ret ([], None).

Definition isNil (err : option error) : bool :=
  match err with None => true | Some _ => false end.

(** The reload step of the loop of [main]. *)
Definition reload (program : Z) (getKey : Key -> Action) (answer : DialogAnswer)
  : Cmd unit :=
  r <- checkFileReload getKey answer ;;
  let '(newFiles, err) := r in
  if isNil err && (0 <? len newFiles) then
    cleanupScene ;;;
    sc <- loadAllMeshes program newFiles ;;
    update (set_scene sc) ;;;
    act (SetTitle (TitleFiles (String.concat ", " newFiles)))
  else ret tt.

(** *** The frame loop *)

(** The argument of the [time.Sleep] that ends a frame:
    [time.Second/60 - time.Duration(deltaTime)*time.Second]. *)
Definition pacing (deltaTime : float64) : Z :=
  int64 (Second / 60 - int64 (to_int64 deltaTime * Second)).

(** What one iteration of the loop reads from outside. *)
Record FrameInput := mkFrameInput {
  now : float64;
  getKey : Key -> Action;
  answer : DialogAnswer;
  events : list Event
}.

Definition dispatch (e : Event) : Cmd unit :=
  match e with
  | CursorPos xpos ypos => update (mouseCallback xpos ypos)
  | KeyEvent key action => keyCallback key action
  | WindowClose => act (SetShouldClose true)
  end.

(** [glfw.PollEvents]: the callbacks run on the events that arrived, and a
    request to close the window sets the close flag. *)
Definition PollEvents (es : list Event) : Cmd unit := forEach es dispatch.

(** The body of the loop of [main]. *)
Definition frame (program : Z) (i : FrameInput) : Cmd unit :=
  let currentFrame := now i in
  update (fun g => set_deltaTime (sub64 currentFrame (lastFrame g)) g) ;;;
  update (set_lastFrame currentFrame) ;;;
  g <- read globals ;;
  g' <- lift (processInput (getKey i) g) ;;
  update (fun _ => g') ;;;
  reload program (getKey i) (answer i) ;;;
  renderScene program ;;;
  (* window.SwapBuffers() shows the frame and changes nothing here *)
  PollEvents (events i) ;;;
  d <- read (fun w => deltaTime (globals w)) ;;
  act (Sleep (pacing d)).

(** The variables when [processInput] runs: the clock has been read. *)
Definition clocked (i : FrameInput) (g : Globals) : Globals :=
  set_lastFrame (now i) (set_deltaTime (sub64 (now i) (lastFrame g)) g).

(** A command that keeps a property of the variables, whenever it
    completes. *)
Definition maintains {A} (Q : Globals -> Prop) (c : Cmd A) : Prop :=
  forall w a w', Q (globals w) -> c w = Some (a, w') -> Q (globals w').

(** A command that opens no dialog. *)
Definition quiet {A} (c : Cmd A) : Prop :=
  forall w a w', c w = Some (a, w') -> dialogs w' = dialogs w.

(** The loop [for !window.ShouldClose()], one input per iteration. *)
Fixpoint mainLoop (program : Z) (inputs : list FrameInput) : Cmd unit :=
  match inputs with
  | [] => ret tt
  | i :: rest =>
      closing <- read shouldClose ;;
      if closing then ret tt
      else frame program i ;;; mainLoop program rest
  end.

End Program.

End Viewer.

(** ** The vocabulary of the specification *)

Module Spec.
Import GoInt Float Mesh Collab.

Section Records.
Variable ParseFloat32 : string -> float64.

Definition isToken (tok name : string) : bool := String.eqb tok name.

(** A position record: first field [v], at least 3 fields after it. *)
Definition isPosition (line : string) : bool :=
  match Strings.Fields line with
  | tok :: _ :: _ :: _ :: _ => isToken tok "v"
  | _ => false
  end.

(** A triangular face record: first field [f], exactly 3 references. *)
Definition isTriangle (line : string) : bool :=
  match Strings.Fields line with
  | [tok; _; _; _] => isToken tok "f"
  | _ => false
  end.

(** A line that is blank, or starts with an unrecognized token, or is a
    [v] or [f] line with fewer than 3 fields after the token. *)
Definition isSkipped (line : string) : bool :=
  match Strings.Fields line with
  | [] => true
  | tok :: rest =>
      if isToken tok "v" || isToken tok "f" then len rest <? 3 else true
  end.

(** The component of a face field before its first slash, and the
    integer read from it. *)
Definition leading (fld : string) : string := hd "" (Strings.Split fld "/").
Definition reference (fld : string) : Z := fst (Strconv.Atoi (leading fld)).

(** The three floats of a position record. *)
Definition positionOf (line : string) : list float32 :=
  match Strings.Fields line with
  | _ :: x :: y :: z :: _ =>
      [to32 (ParseFloat32 x); to32 (ParseFloat32 y); to32 (ParseFloat32 z)]
  | _ => []
  end.

(** The indices of a face record: each reference minus one, as a
    [uint32]. *)
Definition trianglesOf (line : string) : list Z :=
  map (fun fld => uint32 (reference fld - 1)) (tl (Strings.Fields line)).

Definition vertexBuffer (lines : list string) : list float32 :=
  flat_map (fun line => if isPosition line then positionOf line else []) lines.

Definition indexBuffer (lines : list string) : list Z :=
  flat_map (fun line => if isTriangle line then trianglesOf line else []) lines.

Definition count (p : string -> bool) (lines : list string) : Z :=
  len (filter p lines).

(** The floats of a vertex, and what the loop body adds for one line
    (the body run on empty buffers). *)
Definition triple (v : Vertex) : list float32 :=
  let '(x, y, z) := v in [x; y; z].

Definition added (line : string) : list Vertex * list Z :=
  scanLine ParseFloat32 ([], []) line.

End Records.

(** A string of decimal digits, most significant first, and its value. *)
Definition digitChar (d : Z) : ascii := ascii_of_N (Z.to_N (48 + d)).

Fixpoint numeral (ds : list Z) : string :=
  match ds with
  | [] => ""
  | d :: rest => String (digitChar d) (numeral rest)
  end.

Definition valueFrom (n : Z) (ds : list Z) : Z :=
  fold_left (fun acc d => acc * 10 + d) ds n.

Definition isDigits (ds : list Z) : Prop := Forall (fun d => 0 <= d <= 9) ds.

(** What may follow the leading component of a face field: nothing, or a
    slash and anything. *)
Definition isTail (sfx : string) : Prop :=
  sfx = "" \/ exists rest, sfx = String "/" rest.

(** The lexicographic order of triples of integers. *)
Definition lexle (a b : Z * Z * Z) : Prop :=
  let '(a1, a2, a3) := a in
  let '(b1, b2, b3) := b in
  a1 < b1 \/ (a1 = b1 /\ (a2 < b2 \/ (a2 = b2 /\ a3 <= b3))).

(** The place of a float in the order of the numbers, with -0 below +0. *)
Definition rank (x : spec_float) : Z * Z * Z :=
  match x with
  | S754_infinity true => (-4, 0, 0)
  | S754_finite true m e => (-2, - e, - Z.pos m)
  | S754_zero true => (-1, 0, 0)
  | S754_zero false => (0, 0, 0)
  | S754_finite false m e => (1, e, Z.pos m)
  | S754_infinity false => (4, 0, 0)
  | S754_nan => (0, 0, 0)
  end.

(** The orders in which [math.Min] picks the lesser and [math.Max] the
    greater: NaN sits just above -Inf for the one, just below +Inf for
    the other. *)
Definition rankMin (x : spec_float) : Z * Z * Z :=
  match x with S754_nan => (-3, 0, 0) | _ => rank x end.
Definition rankMax (x : spec_float) : Z * Z * Z :=
  match x with S754_nan => (3, 0, 0) | _ => rank x end.

(** A [float32]: a zero, an infinity, a NaN, or a mantissa and an exponent
    within the binary32 format. *)
Definition isFloat32 (x : float32) : Prop := valid_binary 24 128 x = true.

(** Bounds whose six fields are [float32] values. *)
Definition validBounds (b : Bounds) : Prop :=
  isFloat32 (minX b) /\ isFloat32 (minY b) /\ isFloat32 (minZ b)
  /\ isFloat32 (maxX b) /\ isFloat32 (maxY b) /\ isFloat32 (maxZ b).

(** A pitch within the interval from -89 to 89. *)
Definition inRange (p : float64) : Prop :=
  leb (int64_to64 (-89)) p = true /\ leb p (int64_to64 89) = true.

(** A pitch brought back into the interval from -89 to 89. *)
Definition clampPitch (p : float64) : float64 :=
  if ltb (int64_to64 89) p then int64_to64 89
  else if ltb p (int64_to64 (-89)) then int64_to64 (-89)
  else p.

(** The released-to-pressed transitions of a sequence of key states read
    after the state [last]. *)
Fixpoint pressEdges (last : Action) (states : list Action) : Z :=
  match states with
  | [] => 0
  | cur :: rest =>
      (if Action_eqb cur Press && Action_eqb last Release then 1 else 0)
      + pressEdges cur rest
  end.

End Spec.

(** ** Test doubles of the collaborators, to run the program on examples *)

Module Double.
Import GoInt Float Mesh Collab.

(** Vectors as triples, with the component-wise operations; the
    operations the examples do not exercise are left trivial. *)
#[local] Instance mgl32 : Mgl32 := {|
  Vec3 := (float32 * float32 * float32)%type;
  Mat4 := unit;
  vec3 := fun x y z => (x, y, z);
  Add := fun a b => let '(a0, a1, a2) := a in let '(b0, b1, b2) := b in
                    (add32 a0 b0, add32 a1 b1, add32 a2 b2);
  Sub := fun a b => let '(a0, a1, a2) := a in let '(b0, b1, b2) := b in
                    (sub32 a0 b0, sub32 a1 b1, sub32 a2 b2);
  Mul := fun a c => let '(a0, a1, a2) := a in (mul32 a0 c, mul32 a1 c, mul32 a2 c);
  Cross := fun a b => let '(a0, a1, a2) := a in let '(b0, b1, b2) := b in
                      (sub32 (mul32 a1 b2) (mul32 a2 b1),
                       sub32 (mul32 a2 b0) (mul32 a0 b2),
                       sub32 (mul32 a0 b1) (mul32 a1 b0));
  Normalize := fun a => a;
  DegToRad := fun a => a;
  Perspective := fun _ _ _ _ => tt;
  LookAtV := fun _ _ _ => tt;
  Ident4 := tt
|}.

(** Two files: a triangle and a file without faces.  Numbers are read as
    decimal integers. *)
Definition triangle_obj : list string :=
  ["# a triangle"; "v 0 0 0"; "v 2 4 -2 1"; ""; "v 1 1"; "vn 0 1 0";
   "v 5 0 1"; "f 1/1/1 2/2/2 3/3/3"; "f 1 2"].

Definition cloud_obj : list string := ["v 1 2 3"; "v 4 5 6"].

#[local] Instance host : Host := {|
  Cos := fun x => x;
  Sin := fun x => x;
  ParseFloat32 := fun s => int64_to64 (fst (Strconv.Atoi s));
  Dir := fun s => s;
  openFile := fun name =>
    if String.eqb name "triangle.obj" then Some triangle_obj
    else if String.eqb name "cloud.obj" then Some cloud_obj
    else None
|}.

(** A driver that hands out the names 1, 2, 3, ... and records nothing
    else. *)
#[local] Instance driver : GLDriver := {|
  GLState := Z;
  GenVertexArrays := fun n => (n + 1, n + 1);
  GenBuffers := fun n => (n + 1, n + 1);
  GetUniformLocation := fun _ _ _ => 0;
  glCall := fun _ n => n
|}.

Definition origin : float32 * float32 * float32 :=
  (S754_zero false, S754_zero false, S754_zero false).

(** The variables as the program declares them. *)
Definition initialGlobals : Viewer.Globals :=
  Viewer.mkGlobals origin
    (S754_zero false, S754_zero false, int_to32 (-1))
    (S754_zero false, int_to32 1, S754_zero false)
    (int64_to64 (-90)) (S754_zero false)
    (int64_to64 (1280 / 2)) (int64_to64 (720 / 2))
    true (S754_zero false) (S754_zero false)
    0 Release "" (Viewer.mkScene [] zeroBounds).

(** Readings of the keyboard with the shift key up and down. *)
Definition f1Down (k : Key) : Action :=
  match k with KeyF1 => Press | _ => Release end.
Definition shiftUp (k : Key) : Action := Release.
Definition shiftDown (k : Key) : Action :=
  match k with KeyLeftShift => Press | _ => Release end.

(** Five presses of the shift key, each held for two frames. *)
Definition fivePresses : list (Key -> Action) :=
  List.concat (repeat [shiftDown; shiftDown; shiftUp] 5%nat).

Definition initialWorld : Viewer.World :=
  Viewer.mkWorld initialGlobals 0 [] (Viewer.TitleFiles "") false [] [].

End Double.

(** ** The rest of the program: the one-mesh variants and [main] *)

Module Variants.
Import GoInt Float Mesh Collab Viewer.

Section Variants.
Context {M : Mgl32} {H : Host} {G : GLDriver}.

Notation "x <- c ;; k" := (bind c (fun x => k))
  (at level 61, c at next level, right associativity).
Notation "c ;;; k" := (bind c (fun _ => k))
  (at level 61, right associativity).

(** [loadAndSetupMesh]: the loader of one mesh, which ends the process on a
    file without mesh data and frames the camera itself. *)
Definition loadAndSetupMesh (program : Z) (filename : string) : Cmd MeshData :=
  r <- lift (loadOBJFile ParseFloat32 openFile filename) ;;
  let '(vertices, indices, out) := r in
  logPrint out ;;;
  if (len vertices =? 0) || (len indices =? 0) then exit
  else
    b <- lift (calculateBounds vertices) ;;
    let '(bounds, out) := b in
    logPrint out ;;;
    update (initializeCamera bounds) ;;;
    vao <- genVertexArrays ;;
    glDo (BindVertexArray vao) ;;;
    vbo <- genBuffers ;;
    glDo (BindBuffer ARRAY_BUFFER vbo) ;;;
    glDo (BufferDataFloat ARRAY_BUFFER (len vertices * 4) vertices) ;;;
    ebo <- genBuffers ;;
    glDo (BindBuffer ELEMENT_ARRAY_BUFFER ebo) ;;;
    glDo (BufferDataUint ELEMENT_ARRAY_BUFFER (len indices * 4) indices) ;;;
    glDo (EnableVertexAttribArray 0) ;;;
    glDo (VertexAttribPointer 0 3) ;;;
    ret (mkMeshData vertices indices bounds vao vbo ebo).

(** [render]: the drawing of one mesh. *)
Definition render (program : Z) (meshData : MeshData) : Cmd unit :=
  glDo Clear ;;;
  glDo (UseProgram program) ;;;
  g <- read globals ;;
  let b := bounds meshData in
  let maxSize :=
    to32 (Max (to64 (sub32 (maxX b) (minX b)))
              (Max (to64 (sub32 (maxY b) (minY b)))
                   (to64 (sub32 (maxZ b) (minZ b))))) in
  let projection :=
    Perspective (DegToRad (int_to32 45))
                (div32 (int_to32 width) (int_to32 height))
                (dec32 1 10) (mul32 maxSize (int_to32 10)) in
  let view := LookAtV (cameraPos g) (Add (cameraPos g) (cameraFront g)) (cameraUp g) in
  let model := Ident4 in
  projectionUniform <- uniformLocation program "projection" ;;
  viewUniform <- uniformLocation program "camera" ;;
  modelUniform <- uniformLocation program "model" ;;
  glDo (UniformMatrix4fv projectionUniform projection) ;;;
  glDo (UniformMatrix4fv viewUniform view) ;;;
  glDo (UniformMatrix4fv modelUniform model) ;;;
  glDo (BindVertexArray (vao meshData)) ;;;
  glDo (PolygonMode FILL) ;;;
  glDo EnablePolygonOffsetFill ;;;
  glDo PolygonOffset ;;;
  wire <- uniformLocation program "isWireframe" ;;
  glDo (Uniform1i wire 0) ;;;
  glDo (DrawElements (int32 (len (indices meshData)))) ;;;
  glDo DisablePolygonOffsetFill ;;;
  glDo (PolygonMode LINE) ;;;
  glDo LineWidth ;;;
  wire <- uniformLocation program "isWireframe" ;;
  glDo (Uniform1i wire 1) ;;;
  glDo (DrawElements (int32 (len (indices meshData)))) ;;;
  glDo (PolygonMode FILL) ;;;
  multiplier <- lift (index speedMultipliers (currentSpeedIndex g)) ;;
  act (SetTitle (TitleSpeed multiplier)).

(** [glfw.Init] and [initializeWindow] (the window, the context, the
    shaders and the program they link) are the work of the collaborators:
    each is a command, which ends the process where the source calls
    [log.Fatal] or panics. *)
Variable glfwInit : Cmd unit.
Variable initializeWindow : string -> Cmd Z.

(** [main] of the viewer of several meshes: what the first dialog answers,
    then the frames. *)
Definition main (first : DialogAnswer) (inputs : list FrameInput) : Cmd unit :=
  glfwInit ;;;
  r <- selectOBJFiles "" first ;;
  let '(filenames, err) := r in
  if isNil err then
    program <- initializeWindow (String.concat ", " filenames) ;;
    sc <- loadAllMeshes program filenames ;;
    update (set_scene sc) ;;;
    mainLoop program inputs
  else exit.

End Variants.

End Variants.

(** ** The loop of the one-mesh viewer *)

Module OneMesh.
Import GoInt Float Mesh Collab Viewer.

Section One.
Context {M : Mgl32} {H : Host} {G : GLDriver}.

Notation "x <- c ;; k" := (bind c (fun x => k))
  (at level 61, c at next level, right associativity).
Notation "c ;;; k" := (bind c (fun _ => k))
  (at level 61, right associativity).

(** The loop of [main] in the one-mesh [main.go].  What [main] has set up
    before the loop enters as arguments: the program, the index buffer,
    the size of the mesh and the three uniform locations. *)
Section Loop.
Variable program : Z.
Variable indices : list Z.
Variable maxSize : float32.
Variables projectionUniform viewUniform modelUniform : Z.

(** The drawing of one frame, up to the title. *)
Definition drawOne : Cmd unit :=
  glDo Clear ;;;
  glDo (UseProgram program) ;;;
  g <- read globals ;;
  let projection :=
    Perspective (DegToRad (int_to32 45))
                (div32 (int_to32 width) (int_to32 height))
                (dec32 1 10) (mul32 maxSize (int_to32 10)) in
  let view := LookAtV (cameraPos g) (Add (cameraPos g) (cameraFront g)) (cameraUp g) in
  let model := Ident4 in
  glDo (UniformMatrix4fv projectionUniform projection) ;;;
  glDo (UniformMatrix4fv viewUniform view) ;;;
  glDo (UniformMatrix4fv modelUniform model) ;;;
  glDo (PolygonMode FILL) ;;;
  glDo EnablePolygonOffsetFill ;;;
  glDo PolygonOffset ;;;
  wire <- uniformLocation program "isWireframe" ;;
  glDo (Uniform1i wire 0) ;;;
  glDo (DrawElements (int32 (len indices))) ;;;
  glDo DisablePolygonOffsetFill ;;;
  glDo (PolygonMode LINE) ;;;
  glDo LineWidth ;;;
  wire <- uniformLocation program "isWireframe" ;;
  glDo (Uniform1i wire 1) ;;;
  glDo (DrawElements (int32 (len indices))) ;;;
  glDo (PolygonMode FILL) ;;;
  multiplier <- lift (index speedMultipliers (currentSpeedIndex g)) ;;
  act (SetTitle (TitleSpeed multiplier)).

(** The body of the loop. *)
Definition frameOne (i : FrameInput) : Cmd unit :=
  let currentFrame := now i in
  update (fun g => set_deltaTime (sub64 currentFrame (lastFrame g)) g) ;;;
  update (set_lastFrame currentFrame) ;;;
  g <- read globals ;;
  g' <- lift (processInput (getKey i) g) ;;
  update (fun _ => g') ;;;
  drawOne ;;;
  (* window.SwapBuffers() shows the frame and changes nothing here *)
  PollEvents (events i) ;;;
  d <- read (fun w => deltaTime (globals w)) ;;
  act (Sleep (pacing d)).

(** The loop [for !window.ShouldClose()], one input per iteration. *)
Fixpoint mainLoopOne (inputs : list FrameInput) : Cmd unit :=
  match inputs with
  | [] => ret tt
  | i :: rest =>
      closing <- read shouldClose ;;
      if closing then ret tt
      else frameOne i ;;; mainLoopOne rest
  end.

End Loop.
End One.
End OneMesh.

(** ** More vocabulary: what the properties of the whole program speak of *)

Module Behaviour.
Import GoInt Float Mesh Collab Viewer Spec.

(** What a line adds to the buffers, whatever the line. *)
Definition lineVertices (PF : string -> float64) (line : string) : list Vertex :=
  match Strings.Fields line with
  | tok :: x :: y :: z :: _ =>
      if String.eqb tok "v" then [(to32 (PF x), to32 (PF y), to32 (PF z))] else []
  | _ => []
  end.

Definition lineIndices (line : string) : list Z :=
  match Strings.Fields line with
  | tok :: refs =>
      if String.eqb tok "f" && (3 <=? len refs) then map faceIndex refs else []
  | [] => []
  end.

(** A string without a slash. *)
Fixpoint noSlash (s : string) : bool :=
  match s with
  | "" => true
  | String c rest => negb (Ascii.eqb c "/") && noSlash rest
  end.

(** Order on [float64] values and on the [float32] values they widen. *)
Definition le32 (a b : float32) : Prop := leb (to64 a) (to64 b) = true.

(** A box that holds a point, and a box that holds a box. *)
Definition holds (b : Bounds) (v : Vertex) : Prop :=
  let '(x, y, z) := v in
  le32 (minX b) x /\ le32 x (maxX b)
  /\ le32 (minY b) y /\ le32 y (maxY b)
  /\ le32 (minZ b) z /\ le32 z (maxZ b).

Definition encloses (outer inner : Bounds) : Prop :=
  le32 (minX outer) (minX inner) /\ le32 (maxX inner) (maxX outer)
  /\ le32 (minY outer) (minY inner) /\ le32 (maxY inner) (maxY outer)
  /\ le32 (minZ outer) (minZ inner) /\ le32 (maxZ inner) (maxZ outer).

(** A [float32] that is a number, a point of numbers, a box of numbers. *)
Definition isNumber (x : float32) : Prop :=
  valid_binary 24 128 x = true /\ isNaN x = false.

Definition numberVertex (v : Vertex) : Prop :=
  let '(x, y, z) := v in isNumber x /\ isNumber y /\ isNumber z.

Definition numberBounds (b : Bounds) : Prop :=
  isNumber (minX b) /\ isNumber (minY b) /\ isNumber (minZ b)
  /\ isNumber (maxX b) /\ isNumber (maxY b) /\ isNumber (maxZ b).

Definition xOf (v : Vertex) : float32 := fst (fst v).
Definition yOf (v : Vertex) : float32 := snd (fst v).
Definition zOf (v : Vertex) : float32 := snd v.

(** One iteration of the loop of [calculateBounds], on a vertex. *)
Definition grow (b : Bounds) (v : Vertex) : Bounds :=
  let '(x, y, z) := v in growBounds b x y z.

(** What the loop of [calculateBounds] keeps: the bounds are numbers,
    they hold the vertices seen, and each is a coordinate of one of
    them. *)
Definition tight (b : Bounds) (seen : list Vertex) : Prop :=
  numberBounds b /\ Forall (holds b) seen
  /\ In (minX b) (map xOf seen) /\ In (maxX b) (map xOf seen)
  /\ In (minY b) (map yOf seen) /\ In (maxY b) (map yOf seen)
  /\ In (minZ b) (map zOf seen) /\ In (maxZ b) (map zOf seen).

(** The vertices of a flat buffer, three floats each. *)
Fixpoint verticesOf (buffer : list float32) : list Vertex :=
  match buffer with
  | x :: y :: z :: rest => (x, y, z) :: verticesOf rest
  | _ => []
  end.

(** A float that is not a NaN. *)
Definition notNaN (x : spec_float) : Prop := isNaN x = false.

(** The place of a number in the order that [<=] tests: as [rank], with
    the two zeros in one place. *)
Definition rankNum (x : spec_float) : Z * Z * Z :=
  match x with
  | S754_zero _ => (0, 0, 0)
  | _ => rank x
  end.

Section Program.
Context {M : Mgl32} {H : Host} {G : GLDriver}.

(** A command that completes from every state. *)
Definition total {A} (c : Cmd A) : Prop :=
  forall w, exists a w', c w = Some (a, w').

(** A command that leaves an observation of the state as it was. *)
Definition keeps {X A} (obs : World -> X) (c : Cmd A) : Prop :=
  forall w a w', c w = Some (a, w') -> obs w' = obs w.

(** A file that opens; a frame whose dialog selects only such files. *)
Definition opens (filename : string) : Prop := openFile filename <> None.

Definition readable (i : FrameInput) : Prop :=
  forall files, answer i = Selected files -> Forall opens files.

Definition isEscape (e : Event) : bool :=
  match e with
  | KeyEvent KeyEscape Press => true
  | _ => false
  end.

(** An event that sets the close flag: Escape pressed, or a request to
    close the window. *)
Definition closes (e : Event) : bool :=
  match e with
  | KeyEvent KeyEscape Press => true
  | WindowClose => true
  | _ => false
  end.

Definition finiteCursor (e : Event) : Prop :=
  match e with
  | CursorPos _ ypos => isFinite ypos = true
  | KeyEvent _ _ => True
  | WindowClose => True
  end.

Definition validIndex (g : Globals) : Prop :=
  0 <= currentSpeedIndex g < len speedMultipliers.

(** The three deletions of [cleanupScene] for one mesh, and for a list. *)
Definition release (s : GLState) (m : MeshData) : GLState :=
  glCall (DeleteBuffers (ebo m))
         (glCall (DeleteBuffers (vbo m)) (glCall (DeleteVertexArrays (vao m)) s)).

Definition releaseAll (ms : list MeshData) (s : GLState) : GLState :=
  fold_left release ms s.

(** The mesh record a file should load into: the placeholder when the
    parse gives no vertices or no indices, the buffers otherwise. *)
Definition loadsAs (filename : string) (m : MeshData) : Prop :=
  exists lines,
    openFile filename = Some lines
    /\ let '(vs, ixs) := parseLines ParseFloat32 lines in
       if (len vs =? 0) || (len ixs =? 0) then m = emptyMesh
       else vertices m = vs /\ indices m = ixs
            /\ exists out, calculateBounds vs = Some (bounds m, out).

(** A command whose result, whenever it completes, satisfies [P]. *)
Definition returns {A} (P : A -> Prop) (c : Cmd A) : Prop :=
  forall w a w', c w = Some (a, w') -> P a.

(** A command that runs the same with the variables changed first or
    last. *)
Definition apart (f : Globals -> Globals) {A} (c : Cmd A) : Prop :=
  forall w, c (with_globals f w)
            = match c w with
              | Some (a, w') => Some (a, with_globals f w')
              | None => None
              end.

(** What follows the bounds in [loadSingleMesh] and in
    [loadAndSetupMesh]: the names and the buffers. *)
Definition upload (vertices : list float32) (indices : list Z) (bounds : Bounds)
  : Cmd MeshData :=
  bind genVertexArrays (fun vao =>
  bind (glDo (BindVertexArray vao)) (fun _ =>
  bind genBuffers (fun vbo =>
  bind (glDo (BindBuffer ARRAY_BUFFER vbo)) (fun _ =>
  bind (glDo (BufferDataFloat ARRAY_BUFFER (len vertices * 4) vertices)) (fun _ =>
  bind genBuffers (fun ebo =>
  bind (glDo (BindBuffer ELEMENT_ARRAY_BUFFER ebo)) (fun _ =>
  bind (glDo (BufferDataUint ELEMENT_ARRAY_BUFFER (len indices * 4) indices)) (fun _ =>
  bind (glDo (EnableVertexAttribArray 0)) (fun _ =>
  bind (glDo (VertexAttribPointer 0 3)) (fun _ =>
  ret (mkMeshData vertices indices bounds vao vbo ebo))))))))))).

(** The directory the next dialog starts in, after a reload step. *)
Definition nextDirectory (getKey : Key -> Action) (answer : DialogAnswer)
           (current : string) : string :=
  match answer with
  | Selected (first :: _) => if pressed getKey KeyF1 then Dir first else current
  | _ => current
  end.

End Program.

End Behaviour.

(* ================================================================== *)
(** * Part II.  Properties                                             *)
(* ================================================================== *)

(** ** Examples *)

Example Fields_example :
  Strings.Fields "  f 1/2/3  4//5 6 " = ["f"; "1/2/3"; "4//5"; "6"].
Proof. reflexivity. Qed.

(** Fields around a no-break space (U+00A0) and an em space (U+2003). *)
Example Fields_unicode :
  Strings.Fields
    (String "v" (String (ascii_of_N 194) (String (ascii_of_N 160)
       (String "1" (String (ascii_of_N 226) (String (ascii_of_N 128)
          (String (ascii_of_N 131) (String "2" (String (ascii_of_N 226) "")))))))))
  = ["v"; "1"; String "2" (String (ascii_of_N 226) "")].
Proof. reflexivity. Qed.

Example Atoi_examples :
  map Strconv.Atoi ["12"; "-7"; "+0"; "x"; ""; "1x"; "9223372036854775808"]
  = [(12, None); (-7, None); (0, None); (0, Some Strconv.ErrSyntax);
     (0, Some Strconv.ErrSyntax); (0, Some Strconv.ErrSyntax);
     (9223372036854775807, Some Strconv.ErrRange)].
Proof. vm_compute. reflexivity. Qed.

Example loadOBJFile_example :
  Mesh.loadOBJFile (@Collab.ParseFloat32 Double.host) (@Collab.openFile Double.host)
                   "triangle.obj"
  = Some ([S754_zero false; S754_zero false; S754_zero false;
           S754_finite false 8388608 (-22); S754_finite false 8388608 (-21);
           S754_finite true 8388608 (-22);
           S754_finite false 10485760 (-21); S754_zero false;
           S754_finite false 8388608 (-23)],
          [0; 1; 2], [Mesh.LogLoaded 3 3]).
Proof. vm_compute. reflexivity. Qed.

(** ** The loader *)

Module LoaderFacts.
Import GoInt Float Mesh Spec.

Lemma uint32_range (n : Z) : 0 <= uint32 n <= maxUint32.
Proof.
  unfold uint32, maxUint32.
  pose proof (Z.mod_pos_bound n 4294967296 ltac:(lia)). lia.
Qed.

Lemma uint32_int64 (n : Z) : uint32 (int64 n) = uint32 n.
Proof.
  unfold uint32, int64.
  pose proof (Z.div_mod (n + 9223372036854775808) 18446744073709551616 ltac:(lia)) as E.
  replace ((n + 9223372036854775808) mod 18446744073709551616 - 9223372036854775808)
    with (n + (- 4294967296 * ((n + 9223372036854775808) / 18446744073709551616))
              * 4294967296) by lia.
  apply Z_mod_plus_full.
Qed.

Lemma faceIndex_reference (fld : string) :
  faceIndex fld = uint32 (reference fld - 1).
Proof. unfold faceIndex, reference, leading. apply uint32_int64. Qed.

Lemma faceLoop_app (refs : list string) (indices : list Z) :
  faceLoop refs indices = indices ++ map faceIndex refs.
Proof.
  unfold faceLoop. revert indices.
  induction refs as [|fld refs IH]; intros indices; simpl.
  - now rewrite app_nil_r.
  - rewrite IH, <- app_assoc. reflexivity.
Qed.

Lemma flatten_from (tempVertices : list Vertex) (acc : list float32) :
  fold_left (fun acc v => let '(x, y, z) := v in acc ++ [x; y; z]) tempVertices acc
  = acc ++ flat_map triple tempVertices.
Proof.
  revert acc. induction tempVertices as [|[[x y] z] tv IH]; intros acc; simpl.
  - now rewrite app_nil_r.
  - rewrite IH, <- app_assoc. reflexivity.
Qed.

Lemma flatten_flat_map (tempVertices : list Vertex) :
  flatten tempVertices = flat_map triple tempVertices.
Proof. unfold flatten. now rewrite flatten_from. Qed.

Section Scan.
Variable PF : string -> float64.

Lemma scanLine_app (tv : list Vertex) (ix : list Z) (line : string) :
  scanLine PF (tv, ix) line
  = (tv ++ fst (added PF line), ix ++ snd (added PF line)).
Proof.
  unfold Spec.added, scanLine.
  destruct (len (Strings.Fields line) =? 0).
  { simpl. now rewrite !app_nil_r. }
  destruct (String.eqb (field (Strings.Fields line) 0) "v").
  { destruct (len (Strings.Fields line) <? 4); simpl; now rewrite !app_nil_r. }
  destruct (String.eqb (field (Strings.Fields line) 0) "f").
  { destruct (len (Strings.Fields line) <? 4); simpl.
    - now rewrite !app_nil_r.
    - rewrite !faceLoop_app, app_nil_r. reflexivity. }
  simpl. now rewrite !app_nil_r.
Qed.

Lemma scan_app (lines : list string) (tv : list Vertex) (ix : list Z) :
  fold_left (scanLine PF) lines (tv, ix)
  = (tv ++ flat_map (fun l => fst (added PF l)) lines,
     ix ++ flat_map (fun l => snd (added PF l)) lines).
Proof.
  revert tv ix.
  induction lines as [|line lines IH]; intros tv ix; cbn [fold_left flat_map].
  - now rewrite !app_nil_r.
  - rewrite scanLine_app, IH, <- !app_assoc. reflexivity.
Qed.

(** The lines of the three kinds add what the specification says. *)
Lemma added_of_kind (line : string) :
  isPosition line || isTriangle line || isSkipped line = true ->
  flat_map triple (fst (added PF line))
  = (if isPosition line then positionOf PF line else [])
  /\ snd (added PF line) = (if isTriangle line then trianglesOf line else []).
Proof.
  unfold Spec.added, scanLine, isPosition, isTriangle, isSkipped, positionOf,
    trianglesOf, isToken, field, len.
  destruct (Strings.Fields line) as [|tok [|a [|b [|c [|d rest]]]]]; simpl.
  all: try (intros _; split; reflexivity).
  all: destruct (String.eqb tok "v") eqn:Ev; simpl.
  all: try (apply String.eqb_eq in Ev; subst tok; simpl).
  all: try (destruct (String.eqb tok "f"); simpl).
  all: try match goal with
           | |- context [?n <? 4] => destruct (Z.ltb_spec n 4); [lia|]
           end.
  all: intros Hk; try discriminate.
  all: try (apply Z.ltb_lt in Hk; lia).
  all: rewrite ?faceLoop_app, ?faceIndex_reference; split; reflexivity.
Qed.

Lemma positionOf_length (line : string) :
  isPosition line = true -> len (positionOf PF line) = 3.
Proof.
  unfold isPosition, positionOf.
  destruct (Strings.Fields line) as [|tok [|a [|b [|c rest]]]];
    try discriminate. reflexivity.
Qed.

Lemma trianglesOf_length (line : string) :
  isTriangle line = true -> len (trianglesOf line) = 3.
Proof.
  unfold isTriangle, trianglesOf.
  destruct (Strings.Fields line) as [|tok [|a [|b [|c [|d rest]]]]];
    try discriminate. reflexivity.
Qed.

Lemma len_app {A} (l1 l2 : list A) : len (l1 ++ l2) = len l1 + len l2.
Proof. unfold len. rewrite length_app. lia. Qed.

Lemma vertexBuffer_length (lines : list string) :
  len (vertexBuffer PF lines) = 3 * count isPosition lines.
Proof.
  unfold vertexBuffer, count.
  induction lines as [|line lines IH]; cbn [flat_map filter]; [reflexivity|].
  rewrite len_app, IH.
  destruct (isPosition line) eqn:E.
  - rewrite (positionOf_length _ E). unfold len. cbn [List.length]. lia.
  - reflexivity.
Qed.

Lemma indexBuffer_length (lines : list string) :
  len (indexBuffer lines) = 3 * count isTriangle lines.
Proof.
  unfold indexBuffer, count.
  induction lines as [|line lines IH]; cbn [flat_map filter]; [reflexivity|].
  rewrite len_app, IH.
  destruct (isTriangle line) eqn:E.
  - rewrite (trianglesOf_length _ E). unfold len. cbn [List.length]. lia.
  - reflexivity.
Qed.

Lemma indexBuffer_range (lines : list string) :
  Forall (fun i => 0 <= i <= maxUint32) (indexBuffer lines).
Proof.
  unfold indexBuffer. induction lines as [|line lines IH]; simpl.
  - constructor.
  - apply Forall_app. split; [|exact IH].
    destruct (isTriangle line); [|constructor].
    unfold trianglesOf. apply Forall_map, Forall_forall.
    intros fld _. apply uint32_range.
Qed.

Lemma parseLines_of_kinds (lines : list string) :
  Forall (fun line => isPosition line || isTriangle line || isSkipped line = true)
         lines ->
  parseLines PF lines = (vertexBuffer PF lines, indexBuffer lines).
Proof.
  intros Hk. unfold parseLines. rewrite scan_app. simpl.
  rewrite flatten_flat_map. unfold vertexBuffer, indexBuffer.
  induction Hk as [|line lines Hl _ IH]; simpl; [reflexivity|].
  destruct (added_of_kind line Hl) as [Hv Hi].
  rewrite flat_map_app, Hv, Hi.
  injection IH as IHv IHi. now rewrite IHv, IHi.
Qed.

End Scan.

End LoaderFacts.

(** C1.  A file whose lines are position records, triangular face records
    and skipped lines (blank, unrecognized token, too few fields) loads
    into a vertex buffer of three floats per position record, in file
    order, and an index buffer of three [uint32] per face record, in file
    order, each the leading reference of its field minus one. *)
Theorem loadOBJFile_buffers :
  forall (PF : string -> Float.float64)
         (openFile : string -> option (list string))
         (filename : string) (lines : list string),
    openFile filename = Some lines ->
    Forall (fun line =>
              Spec.isPosition line || Spec.isTriangle line || Spec.isSkipped line
              = true) lines ->
    exists out,
      Mesh.loadOBJFile PF openFile filename
      = Some (Spec.vertexBuffer PF lines, Spec.indexBuffer lines, out)
      /\ GoInt.len (Spec.vertexBuffer PF lines) = 3 * Spec.count Spec.isPosition lines
      /\ GoInt.len (Spec.indexBuffer lines) = 3 * Spec.count Spec.isTriangle lines
      /\ Forall (fun i => 0 <= i <= GoInt.maxUint32) (Spec.indexBuffer lines).
Proof.
  intros PF openFile filename lines Hopen Hk.
  unfold Mesh.loadOBJFile. rewrite Hopen.
  rewrite (LoaderFacts.parseLines_of_kinds PF lines Hk).
  eexists. split; [reflexivity|].
  split; [apply LoaderFacts.vertexBuffer_length|].
  split; [apply LoaderFacts.indexBuffer_length|].
  apply LoaderFacts.indexBuffer_range.
Qed.

(** A run of the loader that satisfies the hypotheses of
    [loadOBJFile_buffers]. *)
Lemma loadOBJFile_buffers_witness :
  exists out,
    Mesh.loadOBJFile (@Collab.ParseFloat32 Double.host) (@Collab.openFile Double.host)
                     "triangle.obj"
    = Some (Spec.vertexBuffer (@Collab.ParseFloat32 Double.host) Double.triangle_obj,
            Spec.indexBuffer Double.triangle_obj, out)
    /\ GoInt.len (Spec.vertexBuffer (@Collab.ParseFloat32 Double.host) Double.triangle_obj)
       = 3 * Spec.count Spec.isPosition Double.triangle_obj
    /\ GoInt.len (Spec.indexBuffer Double.triangle_obj)
       = 3 * Spec.count Spec.isTriangle Double.triangle_obj
    /\ Forall (fun i => 0 <= i <= GoInt.maxUint32) (Spec.indexBuffer Double.triangle_obj).
Proof.
  apply (loadOBJFile_buffers (@Collab.ParseFloat32 Double.host)
                             (@Collab.openFile Double.host)
                             "triangle.obj" Double.triangle_obj).
  - reflexivity.
  - repeat constructor.
Defined.

(** ** [strconv.Atoi] *)

Module AtoiFacts.
Import GoInt Strconv Spec.

Lemma parseUintLoop_syntax (s : string) (n v : Z) :
  parseUintLoop s n = (v, Some ErrSyntax) -> v = 0.
Proof.
  revert n. induction s as [|c s IH]; intros n; simpl.
  - discriminate.
  - destruct (digit c); [|now intros [= <-]].
    destruct (cutoff10 <=? n); [discriminate|].
    destruct (_ || _); [discriminate|]. apply IH.
Qed.

Lemma parseUintLoop_range (s : string) (n v : Z) :
  parseUintLoop s n = (v, Some ErrRange) -> v = maxUint64.
Proof.
  revert n. induction s as [|c s IH]; intros n; simpl.
  - discriminate.
  - destruct (digit c); [|discriminate].
    destruct (cutoff10 <=? n); [now intros [= <-]|].
    destruct (_ || _); [now intros [= <-]|]. apply IH.
Qed.

Lemma ParseUint_range (s : string) (v : Z) :
  ParseUint s = (v, Some ErrRange) -> v = maxUint64.
Proof.
  destruct s as [|c s]; [discriminate|].
  change (ParseUint (String c s)) with (parseUintLoop (String c s) 0).
  apply parseUintLoop_range.
Qed.

(** A syntax error leaves the value 0; a range error leaves the nearest
    bound of [int]. *)
Lemma Atoi_error (s : string) (v : Z) (e : NumError) :
  Atoi s = (v, Some e) ->
  match e with
  | ErrSyntax => v = 0
  | ErrRange => v = maxInt64 \/ v = minInt64
  end.
Proof.
  unfold Atoi, ParseInt. destruct s as [|c s]; [now intros [= <- <-]|].
  destruct (ParseUint _) as [un [[|]|]] eqn:EU.
  - now intros [= <- <-].
  - apply ParseUint_range in EU. subst un.
    destruct (Ascii.eqb c "-"); simpl; intros [= <- <-]; [right|left]; reflexivity.
  - destruct (negb _ && _); [intros [= <- <-]; now left|].
    destruct (_ && _); [intros [= <- <-]; now right|]. discriminate.
Qed.

Lemma digit_digitChar (d : Z) : 0 <= d <= 9 -> digit (digitChar d) = Some d.
Proof.
  intros Hd.
  assert (d = 0 \/ d = 1 \/ d = 2 \/ d = 3 \/ d = 4 \/ d = 5 \/ d = 6 \/ d = 7
          \/ d = 8 \/ d = 9) as Hc by lia.
  repeat destruct Hc as [-> | Hc]; try subst d; reflexivity.
Qed.

Lemma digitChar_not_sign (d : Z) :
  0 <= d <= 9 ->
  Ascii.eqb (digitChar d) "+" = false /\ Ascii.eqb (digitChar d) "-" = false.
Proof.
  intros Hd.
  assert (d = 0 \/ d = 1 \/ d = 2 \/ d = 3 \/ d = 4 \/ d = 5 \/ d = 6 \/ d = 7
          \/ d = 8 \/ d = 9) as Hc by lia.
  repeat destruct Hc as [-> | Hc]; try subst d; split; reflexivity.
Qed.

Lemma valueFrom_ge (ds : list Z) (n : Z) :
  isDigits ds -> 0 <= n -> n <= valueFrom n ds.
Proof.
  intros Hds. revert n. unfold valueFrom.
  induction Hds as [|d ds Hd _ IH]; intros n Hn; simpl; [lia|].
  specialize (IH (n * 10 + d) ltac:(lia)). lia.
Qed.

Lemma parseUintLoop_numeral (ds : list Z) (n : Z) :
  isDigits ds -> 0 <= n -> valueFrom n ds <= maxUint64 ->
  parseUintLoop (numeral ds) n = (valueFrom n ds, None).
Proof.
  intros Hds. revert n.
  induction Hds as [|d ds Hd Hds IH]; intros n Hn Hv; [reflexivity|].
  cbn [numeral parseUintLoop]. rewrite (digit_digitChar d Hd).
  change (valueFrom n (d :: ds)) with (valueFrom (n * 10 + d) ds) in *.
  pose proof (valueFrom_ge ds (n * 10 + d) Hds ltac:(lia)) as Hge.
  unfold cutoff10, maxUint64 in *.
  destruct (Z.leb_spec (18446744073709551615 / 10 + 1) n) as [Hc|Hc].
  { change (18446744073709551615 / 10 + 1) with 1844674407370955162 in Hc. lia. }
  unfold uint64.
  rewrite (Z.mod_small (n * 10)) by lia.
  rewrite (Z.mod_small (n * 10 + d)) by lia.
  destruct (Z.ltb_spec (n * 10 + d) (n * 10)); [lia|].
  destruct (Z.ltb_spec 18446744073709551615 (n * 10 + d)); [lia|].
  simpl. apply IH; lia.
Qed.

(** A decimal numeral within the range of [int] reads as its value. *)
Lemma Atoi_numeral (ds : list Z) :
  isDigits ds -> ds <> [] -> valueFrom 0 ds <= maxInt64 ->
  Atoi (numeral ds) = (valueFrom 0 ds, None).
Proof.
  intros Hds Hne Hv. destruct ds as [|d ds]; [contradiction|].
  pose proof (Forall_inv Hds) as Hd. cbn beta in Hd.
  destruct (digitChar_not_sign d Hd) as [Hp Hm].
  unfold Atoi, ParseInt. cbn [numeral]. rewrite Hp, Hm. cbn [orb negb andb].
  change (String (digitChar d) (numeral ds)) with (numeral (d :: ds)).
  unfold ParseUint. cbn [numeral].
  change (String (digitChar d) (numeral ds)) with (numeral (d :: ds)).
  unfold maxInt64 in Hv.
  rewrite parseUintLoop_numeral; [|assumption|lia|unfold maxUint64; lia].
  pose proof (valueFrom_ge (d :: ds) 0 Hds ltac:(lia)).
  destruct (Z.leb_spec 9223372036854775808 (valueFrom 0 (d :: ds))); [lia|].
  reflexivity.
Qed.

End AtoiFacts.

(** ** Face fields *)

Module FaceFacts.
Import GoInt Strconv Strings Mesh Spec.

Lemma append_snoc (cur : string) (c : ascii) (rest : string) :
  (snoc cur c ++ rest)%string = (cur ++ String c rest)%string.
Proof.
  unfold snoc. induction cur as [|a cur IH]; simpl; [reflexivity|].
  now rewrite IH.
Qed.

Lemma append_empty (s : string) : (s ++ "")%string = s.
Proof. induction s as [|a s IH]; simpl; [reflexivity|]. now rewrite IH. Qed.

Lemma digitChar_not_slash (d : Z) :
  0 <= d <= 9 -> Ascii.eqb (digitChar d) "/" = false.
Proof.
  intros Hd.
  assert (d = 0 \/ d = 1 \/ d = 2 \/ d = 3 \/ d = 4 \/ d = 5 \/ d = 6 \/ d = 7
          \/ d = 8 \/ d = 9) as Hc by lia.
  repeat destruct Hc as [-> | Hc]; try subst d; reflexivity.
Qed.

Lemma splitFrom_numeral (ds : list Z) (cur sfx : string) :
  isDigits ds -> isTail sfx ->
  hd "" (splitFrom "/" cur (numeral ds ++ sfx)) = (cur ++ numeral ds)%string.
Proof.
  intros Hds Hs. revert cur.
  induction Hds as [|d ds Hd _ IH]; intros cur.
  - cbn [numeral]. rewrite append_empty.
    destruct Hs as [-> | [rest ->]]; reflexivity.
  - cbn [numeral String.append splitFrom].
    rewrite (digitChar_not_slash d Hd), IH. apply append_snoc.
Qed.

Lemma leading_numeral (ds : list Z) (sfx : string) :
  isDigits ds -> isTail sfx -> leading (numeral ds ++ sfx) = numeral ds.
Proof. intros. unfold leading, Split. now rewrite splitFrom_numeral. Qed.

(** A reference written in decimal, from 1 to 2^32, gives the index one
    below it. *)
Lemma faceIndex_numeral (ds : list Z) (sfx : string) :
  isDigits ds -> ds <> [] -> isTail sfx ->
  1 <= valueFrom 0 ds <= 4294967296 ->
  faceIndex (numeral ds ++ sfx) = valueFrom 0 ds - 1.
Proof.
  intros Hds Hne Hs Hv.
  rewrite LoaderFacts.faceIndex_reference. unfold reference.
  rewrite leading_numeral by assumption.
  rewrite AtoiFacts.Atoi_numeral by (unfold maxInt64; auto; lia).
  cbn [fst]. unfold uint32. apply Z.mod_small. lia.
Qed.

Lemma scanLine_face (PF : string -> Float.float64) (tv : list Vertex) (ix : list Z)
      (line : string) (refs : list string) :
  Fields line = "f" :: refs -> 3 <= len refs ->
  scanLine PF (tv, ix) line = (tv, ix ++ map faceIndex refs).
Proof.
  intros HF Hn. unfold scanLine. rewrite HF.
  unfold len in *. cbn [List.length field nth tl] in *.
  destruct (Z.eqb_spec (Z.of_nat (S (List.length refs))) 0); [lia|].
  change (String.eqb "f" "v") with false. change (String.eqb "f" "f") with true.
  cbn match.
  destruct (Z.ltb_spec (Z.of_nat (S (List.length refs))) 4); [lia|].
  now rewrite LoaderFacts.faceLoop_app.
Qed.

End FaceFacts.

(** C10, as amended.  In a face line every field adds one index.  A field
    whose leading component is not an integer (a syntax error, for which
    [Atoi] leaves 0) or is the string ["0"] adds 4294967295.  A leading
    component out of the range of [int] is a failed parse as well, but
    [Atoi] leaves the nearest bound: the index is 4294967294 above the
    range and 4294967295 below it. *)
Theorem bad_reference_index :
  forall (PF : string -> Float.float64) (tv : list Mesh.Vertex) (ix : list Z)
         (line : string) (refs : list string),
    Strings.Fields line = "f" :: refs ->
    3 <= GoInt.len refs ->
    Mesh.scanLine PF (tv, ix) line = (tv, ix ++ map Mesh.faceIndex refs)
    /\ forall fld,
        (snd (Strconv.Atoi (Spec.leading fld)) = Some Strconv.ErrSyntax
         \/ Spec.leading fld = "0" ->
         Mesh.faceIndex fld = 4294967295)
        /\ (snd (Strconv.Atoi (Spec.leading fld)) = Some Strconv.ErrRange ->
            (fst (Strconv.Atoi (Spec.leading fld)) = GoInt.maxInt64
             /\ Mesh.faceIndex fld = 4294967294)
            \/ (fst (Strconv.Atoi (Spec.leading fld)) = GoInt.minInt64
                /\ Mesh.faceIndex fld = 4294967295)).
Proof.
  intros PF tv ix line refs HF Hn.
  split; [now apply FaceFacts.scanLine_face|].
  intros fld. rewrite LoaderFacts.faceIndex_reference. unfold Spec.reference.
  split.
  - intros [Hs | Hz].
    + destruct (Strconv.Atoi (Spec.leading fld)) as [v e] eqn:EA.
      cbn [snd] in Hs. subst e.
      apply AtoiFacts.Atoi_error in EA. subst v. reflexivity.
    + rewrite Hz. reflexivity.
  - intros Hr.
    destruct (Strconv.Atoi (Spec.leading fld)) as [v e] eqn:EA.
    cbn [snd] in Hr. subst e.
    apply AtoiFacts.Atoi_error in EA.
    destruct EA as [-> | ->]; [left | right]; split; reflexivity.
Qed.

(** A face line with a field that is not a number and a field ["0"]. *)
Lemma bad_reference_index_witness :
  Mesh.scanLine (@Collab.ParseFloat32 Double.host) ([], [7]) "f 1 x/2 0"
  = ([], [7] ++ map Mesh.faceIndex ["1"; "x/2"; "0"])
  /\ map Mesh.faceIndex ["1"; "x/2"; "0"] = [0; 4294967295; 4294967295].
Proof.
  split.
  - apply (bad_reference_index (@Collab.ParseFloat32 Double.host) [] [7]
                               "f 1 x/2 0" ["1"; "x/2"; "0"]).
    + reflexivity.
    + unfold GoInt.len. simpl. lia.
  - reflexivity.
Defined.

(** C10, as stated, fails: a leading component beyond the range of [int]
    fails to parse, and its index is 4294967294. *)
Lemma failed_parse_not_always_wrapped :
  ~ (forall fld,
        snd (Strconv.Atoi (Spec.leading fld)) <> None \/ Spec.leading fld = "0" ->
        Mesh.faceIndex fld = 4294967295).
Proof.
  intros Hall.
  specialize (Hall "9223372036854775808/1").
  assert (Mesh.faceIndex "9223372036854775808/1" = 4294967294) as E by reflexivity.
  rewrite E in Hall.
  assert (4294967294 = 4294967295) as Habs; [|discriminate Habs].
  apply Hall. left.
  assert (snd (Strconv.Atoi (Spec.leading "9223372036854775808/1"))
          = Some Strconv.ErrRange) as -> by (vm_compute; reflexivity).
  discriminate.
Qed.

(** ** The camera *)

Module CameraFacts.
Import GoInt Float Mesh Collab Viewer Spec.

Section Camera.
Context {M : Mgl32} {H : Host}.

Lemma index_speedMultipliers (i : Z) :
  0 <= i < 5 -> exists m, index speedMultipliers i = Some m.
Proof.
  intros Hi.
  assert (i = 0 \/ i = 1 \/ i = 2 \/ i = 3 \/ i = 4) as Hc by lia.
  repeat destruct Hc as [-> | Hc]; try subst i; eexists; reflexivity.
Qed.

Lemma cycleSpeed_index (a : Action) (g : Globals) :
  0 <= currentSpeedIndex g < 5 ->
  currentSpeedIndex (cycleSpeed a g)
  = (currentSpeedIndex g
     + (if Action_eqb a Press && Action_eqb (lastShiftState g) Release then 1 else 0))
    mod 5
  /\ lastShiftState (cycleSpeed a g) = a.
Proof.
  intros Hi. unfold cycleSpeed.
  destruct (Action_eqb a Press && Action_eqb (lastShiftState g) Release);
    cbn [set_lastShiftState set_currentSpeedIndex currentSpeedIndex lastShiftState].
  - split; [|reflexivity].
    change (len speedMultipliers) with 5. unfold int64.
    rewrite (Z.mod_small (currentSpeedIndex g + 1 + 9223372036854775808)) by lia.
    rewrite Z.rem_mod_nonneg by lia. f_equal. lia.
  - split; [|reflexivity]. rewrite Z.add_0_r, Z.mod_small; lia.
Qed.

Lemma processInput_speed (getKey : Key -> Action) (g : Globals) :
  0 <= currentSpeedIndex g < 5 ->
  exists g',
    processInput getKey g = Some g'
    /\ currentSpeedIndex g' = currentSpeedIndex (cycleSpeed (getKey KeyLeftShift) g)
    /\ lastShiftState g' = getKey KeyLeftShift.
Proof.
  intros Hi.
  destruct (cycleSpeed_index (getKey KeyLeftShift) g Hi) as [Hidx Hlast].
  pose proof (Z.mod_pos_bound
                (currentSpeedIndex g
                 + (if Action_eqb (getKey KeyLeftShift) Press
                       && Action_eqb (lastShiftState g) Release then 1 else 0))
                5 ltac:(lia)) as Hb.
  rewrite <- Hidx in Hb.
  destruct (index_speedMultipliers _ Hb) as [m Hm].
  unfold processInput. rewrite Hm.
  eexists. split; [reflexivity|].
  destruct (pressed getKey KeyW), (pressed getKey KeyS), (pressed getKey KeyA),
    (pressed getKey KeyD); cbn; auto.
Qed.

Lemma processInputs_speed (frames : list (Key -> Action)) (g : Globals) :
  0 <= currentSpeedIndex g < 5 ->
  exists g',
    processInputs frames g = Some g'
    /\ currentSpeedIndex g'
       = (currentSpeedIndex g
          + pressEdges (lastShiftState g) (map (fun getKey => getKey KeyLeftShift) frames))
         mod 5.
Proof.
  revert g. induction frames as [|getKey frames IH]; intros g Hi.
  - exists g. split; [reflexivity|]. cbn. rewrite Z.add_0_r, Z.mod_small; lia.
  - destruct (processInput_speed getKey g Hi) as (g1 & Hg1 & Hidx & Hlast).
    destruct (cycleSpeed_index (getKey KeyLeftShift) g Hi) as [Hc _].
    rewrite Hc in Hidx.
    assert (0 <= currentSpeedIndex g1 < 5) as Hi1
        by (rewrite Hidx; apply Z.mod_pos_bound; lia).
    destruct (IH g1 Hi1) as (g' & Hg' & Hidx').
    exists g'. cbn [processInputs]. rewrite Hg1. split; [exact Hg'|].
    rewrite Hidx', Hidx, Hlast. cbn [map pressEdges].
    rewrite Zplus_mod_idemp_l. f_equal. lia.
Qed.

Lemma pressEdges_hold (n : nat) :
  pressEdges Press (repeat Press n) = 0.
Proof. induction n as [|n IH]; cbn; [reflexivity|]. exact IH. Qed.

End Camera.

End CameraFacts.

(** C5.  Over any sequence of frames [processInput] runs to completion and
    leaves the speed index at the start index plus the number of
    released-to-pressed transitions of the shift key, modulo 5: a valid
    position of the list of multipliers.  So five transitions bring the
    index back, and a key held over any number of frames advances it
    once. *)
Theorem speed_index_cycles :
  forall (M : Collab.Mgl32) (H : Collab.Host)
         (frames : list (Collab.Key -> Collab.Action)) (g : Viewer.Globals),
    0 <= Viewer.currentSpeedIndex g < GoInt.len Viewer.speedMultipliers ->
    let shift := map (fun getKey => getKey Collab.KeyLeftShift) frames in
    let edges := Spec.pressEdges (Viewer.lastShiftState g) shift in
    exists g',
      Viewer.processInputs frames g = Some g'
      /\ Viewer.currentSpeedIndex g' = (Viewer.currentSpeedIndex g + edges) mod 5
      /\ 0 <= Viewer.currentSpeedIndex g' < GoInt.len Viewer.speedMultipliers
      /\ (edges = 0 -> Viewer.currentSpeedIndex g' = Viewer.currentSpeedIndex g)
      /\ (edges = 5 -> Viewer.currentSpeedIndex g' = Viewer.currentSpeedIndex g)
      /\ (forall n, Viewer.lastShiftState g = Collab.Release ->
                    shift = repeat Collab.Press (S n) ->
                    Viewer.currentSpeedIndex g'
                    = (Viewer.currentSpeedIndex g + 1) mod 5).
Proof.
  intros M H frames g Hi shift edges.
  change (GoInt.len Viewer.speedMultipliers) with 5 in *.
  destruct (CameraFacts.processInputs_speed frames g Hi) as (g' & Hrun & Hidx).
  fold shift in Hidx. fold edges in Hidx.
  exists g'. split; [exact Hrun|]. split; [exact Hidx|].
  split; [rewrite Hidx; apply Z.mod_pos_bound; lia|].
  split; [intros E; rewrite Hidx, E, Z.add_0_r; apply Z.mod_small; lia|].
  split.
  - intros E. rewrite Hidx, E.
    rewrite <- (Z.mul_1_l 5) at 1. rewrite Z_mod_plus_full. apply Z.mod_small; lia.
  - intros n Hrel Hhold. rewrite Hidx. f_equal. f_equal.
    unfold edges. rewrite Hhold, Hrel. cbn [repeat Spec.pressEdges Collab.Action_eqb andb].
    rewrite CameraFacts.pressEdges_hold. reflexivity.
Qed.

(** Five presses of the shift key from the initial state. *)
Lemma speed_index_cycles_witness :
  0 <= Viewer.currentSpeedIndex Double.initialGlobals < GoInt.len Viewer.speedMultipliers
  /\ exists g',
      Viewer.processInputs Double.fivePresses Double.initialGlobals = Some g'
      /\ Viewer.currentSpeedIndex g' = 0.
Proof.
  assert (0 <= Viewer.currentSpeedIndex Double.initialGlobals
          < GoInt.len Viewer.speedMultipliers) as Hi by (cbn; lia).
  split; [exact Hi|].
  destruct (speed_index_cycles Double.mgl32 Double.host Double.fivePresses
                               Double.initialGlobals Hi)
    as (g' & Hrun & _ & _ & _ & Hfive & _).
  exists g'. split; [exact Hrun|]. apply Hfive. reflexivity.
Defined.

Module MouseFacts.
Import GoInt Float Mesh Collab Viewer Spec.

Section Mouse.
Context {M : Mgl32} {H : Host}.

Lemma mouseCallback_first (xpos ypos : float64) (g : Globals) :
  firstMouse g = true ->
  mouseCallback xpos ypos g = set_firstMouse false (set_lastY ypos (set_lastX xpos g)).
Proof. intros Hf. unfold mouseCallback. now rewrite Hf. Qed.

(** After the first sample: the offsets scaled, the yaw advanced, the
    pitch advanced and clamped, the front recomputed. *)
Lemma mouseCallback_next (xpos ypos : float64) (g : Globals) :
  firstMouse g = false ->
  let g' := mouseCallback xpos ypos g in
  yaw g' = add64 (yaw g) (mul64 (sub64 xpos (lastX g)) mouseSensitivity)
  /\ pitch g'
     = clampPitch (add64 (pitch g) (mul64 (sub64 (lastY g) ypos) mouseSensitivity))
  /\ cameraFront g' = Normalize (direction (yaw g') (pitch g'))
  /\ lastX g' = xpos /\ lastY g' = ypos /\ firstMouse g' = false.
Proof.
  intros Hf. unfold mouseCallback, clampPitch, pitchMax, pitchMin. rewrite Hf.
  cbn [set_lastX set_lastY set_yaw set_pitch yaw pitch lastX lastY].
  destruct (ltb (int64_to64 89)
                (add64 (pitch g) (mul64 (sub64 (lastY g) ypos) mouseSensitivity)))
    eqn:Ehi; cbn [set_pitch pitch].
  - assert (ltb (int64_to64 89) (int64_to64 (-89)) = false) as ->
        by (vm_compute; reflexivity).
    repeat split; auto.
  - destruct (ltb (add64 (pitch g) (mul64 (sub64 (lastY g) ypos) mouseSensitivity))
                  (int64_to64 (-89))); repeat split; auto.
Qed.

End Mouse.

End MouseFacts.

(** C9.  While [firstMouse] is set, a cursor sample only stores the
    position and clears the flag: yaw, pitch, the front vector and every
    other variable keep their values.  The sample after it rotates by its
    offset from the stored position. *)
Theorem first_sample_only_seeds :
  forall (M : Collab.Mgl32) (H : Collab.Host) (g : Viewer.Globals)
         (xpos ypos : Float.float64),
    Viewer.firstMouse g = true ->
    let g1 := Viewer.mouseCallback xpos ypos g in
    g1 = Viewer.set_firstMouse false (Viewer.set_lastY ypos (Viewer.set_lastX xpos g))
    /\ Viewer.yaw g1 = Viewer.yaw g
    /\ Viewer.pitch g1 = Viewer.pitch g
    /\ Viewer.cameraFront g1 = Viewer.cameraFront g
    /\ Viewer.cameraPos g1 = Viewer.cameraPos g
    /\ Viewer.lastX g1 = xpos /\ Viewer.lastY g1 = ypos
    /\ Viewer.firstMouse g1 = false
    /\ forall x2 y2 : Float.float64,
        let g2 := Viewer.mouseCallback x2 y2 g1 in
        Viewer.yaw g2
        = Float.add64 (Viewer.yaw g)
                      (Float.mul64 (Float.sub64 x2 xpos) Viewer.mouseSensitivity)
        /\ Viewer.pitch g2
           = Spec.clampPitch
               (Float.add64 (Viewer.pitch g)
                            (Float.mul64 (Float.sub64 ypos y2) Viewer.mouseSensitivity))
        /\ Viewer.cameraFront g2
           = Collab.Normalize (Viewer.direction (Viewer.yaw g2) (Viewer.pitch g2)).
Proof.
  intros M H g xpos ypos Hf. cbv zeta.
  rewrite (MouseFacts.mouseCallback_first xpos ypos g Hf).
  split; [reflexivity|].
  repeat (split; [reflexivity|]).
  intros x2 y2.
  destruct (MouseFacts.mouseCallback_next
              x2 y2
              (Viewer.set_firstMouse false
                 (Viewer.set_lastY ypos (Viewer.set_lastX xpos g)))
              eq_refl) as (Hy & Hp & Hfr & _).
  split; [exact Hy|]. split; [exact Hp|exact Hfr].
Qed.

(** The first sample of a session, at (700, 300). *)
Lemma first_sample_only_seeds_witness :
  Viewer.firstMouse Double.initialGlobals = true
  /\ Viewer.pitch (@Viewer.mouseCallback Double.mgl32 Double.host
                      (Float.int64_to64 700) (Float.int64_to64 300)
                      Double.initialGlobals)
     = Viewer.pitch Double.initialGlobals.
Proof.
  split; [reflexivity|].
  apply (first_sample_only_seeds Double.mgl32 Double.host Double.initialGlobals
                                 (Float.int64_to64 700) (Float.int64_to64 300)
                                 eq_refl).
Defined.

(** ** The scene *)

Module SceneFacts.
Import GoInt Float Mesh Collab Viewer Spec.

Section Scene.
Context {M : Mgl32} {H : Host} {G : GLDriver}.

(** The world after the two messages a file without mesh data leaves in
    the log. *)
Lemma loadSingleMesh_degenerate (program : Z) (filename : string)
      (lines : list string) (w : World) :
  openFile filename = Some lines ->
  fst (parseLines ParseFloat32 lines) = [] \/ snd (parseLines ParseFloat32 lines) = [] ->
  loadSingleMesh program filename w
  = Some (emptyMesh,
          with_logged
            (fun l => l ++ [LogNoMeshData filename])
            (with_logged
               (fun l => l ++ [LogLoaded
                                 (len (fst (parseLines ParseFloat32 lines)) / 3)
                                 (len (snd (parseLines ParseFloat32 lines)))])
               w)).
Proof.
  intros Hopen Hdeg.
  unfold loadSingleMesh, bind, lift, loadOBJFile. rewrite Hopen.
  destruct (parseLines ParseFloat32 lines) as [vs ixs]. cbn [fst snd] in *.
  unfold logPrint, act.
  assert ((len vs =? 0) || (len ixs =? 0) = true) as ->.
  { destruct Hdeg as [-> | ->]; cbn; [reflexivity|apply orb_true_r]. }
  reflexivity.
Qed.

Lemma driverOnly_ret {A} (a : A) : driverOnly (ret a).
Proof. intros w w' Hgl. cbn. auto. Qed.

Lemma driverOnly_lift {A} (o : option A) : driverOnly (lift o).
Proof. intros w w' Hgl. unfold lift. destruct o; cbn; auto. Qed.

Lemma driverOnly_bind {A B} (c : Cmd A) (k : A -> Cmd B) :
  driverOnly c -> (forall a, driverOnly (k a)) -> driverOnly (bind c k).
Proof.
  intros Hc Hk w w' Hgl. specialize (Hc w w' Hgl).
  unfold bind, sameOutcome in *.
  destruct (c w) as [[a w1]|], (c w') as [[a' w1']|]; try contradiction;
    [|exact I].
  destruct Hc as [<- Hgl1]. apply (Hk a w1 w1' Hgl1).
Qed.

Lemma driverOnly_logPrint (events : list LogEvent) : driverOnly (logPrint events).
Proof. intros w w' Hgl. cbn. auto. Qed.

Lemma driverOnly_glDo (c : GLCall) : driverOnly (glDo c).
Proof. intros w w' Hgl. cbn. split; [reflexivity|]. now rewrite Hgl. Qed.

Lemma driverOnly_genVertexArrays : driverOnly genVertexArrays.
Proof.
  intros w w' Hgl. unfold genVertexArrays. rewrite <- Hgl.
  destruct (GenVertexArrays (gl w)) as [name s]. cbn. auto.
Qed.

Lemma driverOnly_genBuffers : driverOnly genBuffers.
Proof.
  intros w w' Hgl. unfold genBuffers. rewrite <- Hgl.
  destruct (GenBuffers (gl w)) as [name s]. cbn. auto.
Qed.

Lemma loadSingleMesh_same (program : Z) (filename : string) :
  driverOnly (loadSingleMesh program filename).
Proof.
  unfold loadSingleMesh.
  apply driverOnly_bind; [apply driverOnly_lift|].
  intros [[vs ixs] out].
  apply driverOnly_bind; [apply driverOnly_logPrint|]. intros _.
  destruct ((len vs =? 0) || (len ixs =? 0)).
  { apply driverOnly_bind; [apply driverOnly_logPrint|]. intros _.
    apply driverOnly_ret. }
  apply driverOnly_bind; [apply driverOnly_lift|]. intros [b out'].
  repeat first
    [ apply driverOnly_ret
    | apply driverOnly_bind;
      [ first [ apply driverOnly_logPrint | apply driverOnly_glDo
              | apply driverOnly_genVertexArrays | apply driverOnly_genBuffers ]
      | intros ? ] ].
Qed.

Lemma loadEach_same (program : Z) (filenames : list string) :
  driverOnly (loadEach program filenames).
Proof.
  induction filenames as [|f fs IH]; cbn [loadEach].
  - apply driverOnly_ret.
  - apply driverOnly_bind; [apply loadSingleMesh_same|]. intros m.
    apply driverOnly_bind; [exact IH|]. intros ms. apply driverOnly_ret.
Qed.

Lemma bind_Some {A B} (c : Cmd A) (k : A -> Cmd B) (w w1 : World) (a : A) :
  c w = Some (a, w1) -> bind c k w = k a w1.
Proof. intros E. unfold bind. now rewrite E. Qed.

Lemma bind_None {A B} (c : Cmd A) (k : A -> Cmd B) (w : World) :
  c w = None -> bind c k w = None.
Proof. intros E. unfold bind. now rewrite E. Qed.

Lemma loadEach_app (program : Z) (l1 l2 : list string) (w : World) :
  loadEach program (l1 ++ l2) w
  = match loadEach program l1 w with
    | Some (ms1, w1) =>
        match loadEach program l2 w1 with
        | Some (ms2, w2) => Some (ms1 ++ ms2, w2)
        | None => None
        end
    | None => None
    end.
Proof.
  revert w. induction l1 as [|f l1 IH]; intros w.
  - cbn. destruct (loadEach program l2 w) as [[ms w2]|]; reflexivity.
  - cbn [app loadEach].
    destruct (loadSingleMesh program f w) as [[m w1]|] eqn:E1.
    2:{ now rewrite !(bind_None _ _ _ E1). }
    rewrite !(bind_Some _ _ _ _ _ E1).
    unfold bind at 1. rewrite IH. unfold bind.
    destruct (loadEach program l1 w1) as [[ms1 w2]|]; [|reflexivity].
    cbn. destruct (loadEach program l2 w2) as [[ms2 w3]|]; reflexivity.
Qed.

(** The loop of [loadAllMeshes] appends the meshes of its files and folds
    their bounds. *)
Lemma loadRemaining_loadEach (program : Z) (filenames : list string)
      (sc : Scene) (w : World) :
  loadRemaining program filenames sc w
  = match loadEach program filenames w with
    | Some (ms, w') =>
        Some (mkScene (meshes sc ++ ms)
                      (fold_left combineBounds (map bounds ms) (sceneBounds sc)),
              w')
    | None => None
    end.
Proof.
  revert sc w. induction filenames as [|f fs IH]; intros sc w.
  - cbn. rewrite app_nil_r. now destruct sc.
  - cbn [loadRemaining loadEach].
    destruct (loadSingleMesh program f w) as [[m w1]|] eqn:E1.
    2:{ now rewrite !(bind_None _ _ _ E1). }
    rewrite !(bind_Some _ _ _ _ _ E1), IH. unfold bind.
    destruct (loadEach program fs w1) as [[ms w2]|]; [|reflexivity].
    cbn. now rewrite <- app_assoc.
Qed.

Lemma loadAllMeshes_loadEach (program : Z) (filenames : list string) (w : World) :
  filenames <> [] ->
  match loadEach program filenames w with
  | Some (ms, w1) =>
      exists sc w',
        loadAllMeshes program filenames w = Some (sc, w')
        /\ meshes sc = ms /\ gl w' = gl w1
  | None => loadAllMeshes program filenames w = None
  end.
Proof.
  intros Hne. destruct filenames as [|f fs]; [contradiction|].
  cbn [loadAllMeshes loadEach].
  destruct (loadSingleMesh program f w) as [[m w1]|] eqn:E1.
  2:{ now rewrite !(bind_None _ _ _ E1). }
  rewrite !(bind_Some _ _ _ _ _ E1).
  pose proof (loadRemaining_loadEach program fs (mkScene [m] (bounds m)) w1) as E2.
  destruct (loadEach program fs w1) as [[ms w2]|] eqn:E3.
  - rewrite (bind_Some _ _ _ _ _ E3), (bind_Some _ _ _ _ _ E2). cbn.
    eexists _, _. split; [reflexivity|]. auto.
  - now rewrite (bind_None _ _ _ E3), (bind_None _ _ _ E2).
Qed.

Lemma loadEach_length (program : Z) (filenames : list string) (w w' : World)
      (ms : list MeshData) :
  loadEach program filenames w = Some (ms, w') -> len ms = len filenames.
Proof.
  revert w w' ms. induction filenames as [|f fs IH]; intros w w' ms; cbn [loadEach].
  - intros [= <- _]. reflexivity.
  - destruct (loadSingleMesh program f w) as [[m w1]|] eqn:E1.
    2:{ rewrite (bind_None _ _ _ E1). discriminate. }
    rewrite (bind_Some _ _ _ _ _ E1).
    destruct (loadEach program fs w1) as [[ms' w2]|] eqn:E2.
    2:{ rewrite (bind_None _ _ _ E2). discriminate. }
    rewrite (bind_Some _ _ _ _ _ E2). intros [= <- _].
    specialize (IH _ _ _ E2). unfold len in *. cbn [List.length]. lia.
Qed.

(** Loading a list with a degenerate file in it, against loading the list
    without it. *)
Lemma loadEach_insert (program : Z) (before after : list string)
      (degenerate : string) (lines : list string) (w : World) :
  openFile degenerate = Some lines ->
  fst (parseLines ParseFloat32 lines) = [] \/ snd (parseLines ParseFloat32 lines) = [] ->
  match loadEach program (before ++ after) w with
  | Some (ms, w1) =>
      exists ms1 ms2 w1',
        loadEach program (before ++ degenerate :: after) w
        = Some (ms1 ++ emptyMesh :: ms2, w1')
        /\ ms = ms1 ++ ms2 /\ len ms1 = len before /\ gl w1' = gl w1
  | None => loadEach program (before ++ degenerate :: after) w = None
  end.
Proof.
  intros Hopen Hdeg. rewrite !loadEach_app.
  destruct (loadEach program before w) as [[ms1 w1]|] eqn:E1; [|reflexivity].
  cbn [loadEach].
  rewrite (bind_Some _ _ _ _ _
             (loadSingleMesh_degenerate program degenerate lines w1 Hopen Hdeg)).
  match goal with
  | |- context [bind (loadEach program after) _ ?w0] =>
      pose proof (loadEach_same program after w1 w0 eq_refl) as Hsame;
      destruct (loadEach program after w0) as [[ms2' w2']|] eqn:Eb
  end.
  - rewrite (bind_Some _ _ _ _ _ Eb).
    destruct (loadEach program after w1) as [[ms2 w2]|]; [|contradiction].
    destruct Hsame as [-> Hgl]. cbn.
    exists ms1, ms2', w2'. split; [reflexivity|]. split; [reflexivity|].
    split; [exact (loadEach_length _ _ _ _ _ E1)|]. now rewrite Hgl.
  - rewrite (bind_None _ _ _ Eb).
    destruct (loadEach program after w1) as [[ms2 w2]|]; [contradiction|].
    reflexivity.
Qed.

End Scene.

End SceneFacts.

(** C8.  A file that parses to no vertices or no indices loads as the
    empty mesh record and a warning in the log, without ending the load.
    With such a file anywhere in the list, every other file loads into
    the record (buffers, bounds and names) it gets without it, and the
    driver ends in the same state; if the load without it ends the
    process, so does the load with it. *)
Theorem degenerate_file_keeps_siblings :
  forall (M : Collab.Mgl32) (H : Collab.Host) (G : Collab.GLDriver)
         (program : Z) (before after : list string) (degenerate : string)
         (lines : list string) (w : Viewer.World),
    Collab.openFile degenerate = Some lines ->
    fst (Mesh.parseLines Collab.ParseFloat32 lines) = []
    \/ snd (Mesh.parseLines Collab.ParseFloat32 lines) = [] ->
    before ++ after <> [] ->
    (exists w',
        Viewer.loadSingleMesh program degenerate w = Some (Viewer.emptyMesh, w')
        /\ In (Mesh.LogNoMeshData degenerate) (Viewer.logged w')
        /\ Viewer.gl w' = Viewer.gl w /\ Viewer.globals w' = Viewer.globals w)
    /\ match Viewer.loadAllMeshes program (before ++ after) w with
       | Some (sc, w1) =>
           exists ms1 ms2 sc' w1',
             Viewer.loadAllMeshes program (before ++ degenerate :: after) w
             = Some (sc', w1')
             /\ Viewer.meshes sc = ms1 ++ ms2
             /\ GoInt.len ms1 = GoInt.len before
             /\ Viewer.meshes sc' = ms1 ++ Viewer.emptyMesh :: ms2
             /\ Viewer.gl w1' = Viewer.gl w1
       | None =>
           Viewer.loadAllMeshes program (before ++ degenerate :: after) w = None
       end.
Proof.
  intros M H G program before after degenerate lines w Hopen Hdeg Hne.
  split.
  - eexists. split.
    + apply (SceneFacts.loadSingleMesh_degenerate program degenerate lines w Hopen Hdeg).
    + cbn. split; [|auto]. apply in_or_app. right. now left.
  - pose proof (SceneFacts.loadAllMeshes_loadEach program (before ++ after) w Hne)
      as Hwithout.
    assert (before ++ degenerate :: after <> []) as Hne'
        by (destruct before; discriminate).
    pose proof (SceneFacts.loadAllMeshes_loadEach
                  program (before ++ degenerate :: after) w Hne') as Hwith.
    pose proof (SceneFacts.loadEach_insert program before after degenerate lines w
                  Hopen Hdeg) as Hins.
    destruct (Viewer.loadEach program (before ++ after) w) as [[ms w1]|].
    + destruct Hins as (ms1 & ms2 & w1' & Hrun & -> & Hlen & Hgl).
      rewrite Hrun in Hwith.
      destruct Hwithout as (sc & wa & -> & Hms & Hga).
      destruct Hwith as (sc' & wb & Hb & Hms' & Hgb).
      exists ms1, ms2, sc', wb. repeat split; try assumption. congruence.
    + rewrite Hins in Hwith. rewrite Hwithout. exact Hwith.
Qed.


(** A list with a file of two positions and no face after a triangle. *)
Lemma degenerate_file_keeps_siblings_witness :
  @Collab.openFile Double.host "cloud.obj" = Some Double.cloud_obj
  /\ snd (Mesh.parseLines (@Collab.ParseFloat32 Double.host) Double.cloud_obj) = []
  /\ exists w',
      @Viewer.loadSingleMesh Double.mgl32 Double.host Double.driver 1 "cloud.obj"
                             Double.initialWorld
      = Some (Viewer.emptyMesh, w').
Proof.
  split; [reflexivity|]. split; [reflexivity|].
  destruct (degenerate_file_keeps_siblings
              Double.mgl32 Double.host Double.driver 1 ["triangle.obj"] []
              "cloud.obj" Double.cloud_obj Double.initialWorld
              eq_refl (or_intror eq_refl) ltac:(discriminate))
    as [(w' & Hload & _) _].
  exists w'. exact Hload.
Defined.

(** ** The reload and the frame *)

Module FrameFacts.
Import GoInt Float Mesh Collab Viewer Spec.

Section Frame.
Context {M : Mgl32} {H : Host} {G : GLDriver}.

Lemma quiet_ret {A} (a : A) : quiet (ret a).
Proof. intros w a' w' [= _ <-]. reflexivity. Qed.

Lemma quiet_lift {A} (o : option A) : quiet (lift o).
Proof. intros w a w'. unfold lift. destruct o; [|discriminate]. now intros [= _ <-]. Qed.

Lemma quiet_read {A} (f : World -> A) : quiet (read f).
Proof. intros w a w' [= _ <-]. reflexivity. Qed.

Lemma quiet_bind {A B} (c : Cmd A) (k : A -> Cmd B) :
  quiet c -> (forall a, quiet (k a)) -> quiet (bind c k).
Proof.
  intros Hc Hk w b w'. unfold bind.
  destruct (c w) as [[a w1]|] eqn:E; [|discriminate].
  intros E'. rewrite (Hk a _ _ _ E'). apply (Hc _ _ _ E).
Qed.

Lemma quiet_act (f : World -> World) :
  (forall w, dialogs (f w) = dialogs w) -> quiet (act f).
Proof. intros Hf w a w' [= _ <-]. apply Hf. Qed.

Lemma quiet_update (f : Globals -> Globals) : quiet (update f).
Proof. apply quiet_act. reflexivity. Qed.

Lemma quiet_glDo (c : GLCall) : quiet (glDo c).
Proof. apply quiet_act. reflexivity. Qed.

Lemma quiet_logPrint (events : list LogEvent) : quiet (logPrint events).
Proof. apply quiet_act. reflexivity. Qed.

Lemma quiet_genVertexArrays : quiet genVertexArrays.
Proof.
  intros w a w'. unfold genVertexArrays.
  destruct (GenVertexArrays (gl w)). now intros [= _ <-].
Qed.

Lemma quiet_genBuffers : quiet genBuffers.
Proof.
  intros w a w'. unfold genBuffers.
  destruct (GenBuffers (gl w)). now intros [= _ <-].
Qed.

Lemma quiet_uniformLocation (program : Z) (name : string) :
  quiet (uniformLocation program name).
Proof. apply quiet_read. Qed.

Lemma quiet_forEach {A} (l : list A) (body : A -> Cmd unit) :
  (forall a, quiet (body a)) -> quiet (forEach l body).
Proof.
  intros Hb. induction l as [|a l IH]; cbn [forEach].
  - apply quiet_ret.
  - apply quiet_bind; [apply Hb|]. intros _. exact IH.
Qed.

Ltac quiet_step :=
  first
    [ apply quiet_ret | apply quiet_lift | apply quiet_read | apply quiet_update
    | apply quiet_glDo | apply quiet_logPrint | apply quiet_genVertexArrays
    | apply quiet_genBuffers | apply quiet_uniformLocation
    | apply quiet_act; reflexivity
    | apply quiet_forEach; intros ?
    | apply quiet_bind; [|intros ?] ].

Lemma quiet_loadSingleMesh (program : Z) (filename : string) :
  quiet (loadSingleMesh program filename).
Proof.
  unfold loadSingleMesh.
  apply quiet_bind; [apply quiet_lift|]. intros [[vs ixs] out].
  apply quiet_bind; [apply quiet_logPrint|]. intros _.
  destruct ((len vs =? 0) || (len ixs =? 0)); [repeat quiet_step|].
  apply quiet_bind; [apply quiet_lift|]. intros [b out'].
  repeat quiet_step.
Qed.

Lemma quiet_loadRemaining (program : Z) (filenames : list string) (sc : Scene) :
  quiet (loadRemaining program filenames sc).
Proof.
  revert sc. induction filenames as [|f fs IH]; intros sc; cbn [loadRemaining].
  - apply quiet_ret.
  - apply quiet_bind; [apply quiet_loadSingleMesh|]. intros m. apply IH.
Qed.

Lemma quiet_loadAllMeshes (program : Z) (filenames : list string) :
  quiet (loadAllMeshes program filenames).
Proof.
  destruct filenames as [|f fs]; cbn [loadAllMeshes].
  - intros w a w'. discriminate.
  - apply quiet_bind; [apply quiet_loadSingleMesh|]. intros m.
    apply quiet_bind; [apply quiet_loadRemaining|]. intros sc.
    repeat quiet_step.
Qed.

Lemma quiet_cleanupScene : quiet cleanupScene.
Proof. unfold cleanupScene. repeat quiet_step. Qed.

Lemma quiet_renderScene (program : Z) : quiet (renderScene program).
Proof. unfold renderScene. repeat quiet_step. Qed.

Lemma quiet_PollEvents (es : list Event) : quiet (PollEvents es).
Proof.
  unfold PollEvents. apply quiet_forEach. intros [x y | k a |]; cbn [dispatch].
  - apply quiet_update.
  - unfold keyCallback. destruct k, a; repeat quiet_step.
  - apply quiet_act. reflexivity.
Qed.

(** [checkFileReload] opens the dialog when F1 is down, whatever came
    before, and not otherwise. *)
Lemma checkFileReload_dialogs (getKey : Key -> Action) (answer : DialogAnswer)
      (w : World) :
  exists r w',
    checkFileReload getKey answer w = Some (r, w')
    /\ dialogs w'
       = dialogs w
         ++ (if pressed getKey KeyF1 then [lastDirectory (globals w)] else [])
    /\ gl w' = gl w /\ logged w' = logged w /\ windowTitle w' = windowTitle w
    /\ shouldClose w' = shouldClose w /\ pauses w' = pauses w
    /\ (globals w' = globals w
        \/ (pressed getKey KeyF1 = true
            /\ exists f fs, answer = Selected (f :: fs) /\ r = (f :: fs, None)))
    /\ (pressed getKey KeyF1 = false \/ answer = Canceled \/ answer = DialogFailed
        \/ answer = Selected [] ->
        isNil (snd r) && (0 <? len (fst r)) = false).
Proof.
  unfold checkFileReload, pressed.
  destruct (Action_eqb (getKey KeyF1) Press).
  - destruct answer as [[|f fs]| |]; cbn.
    + eexists _, _. split; [reflexivity|]. repeat split; auto.
    + eexists _, _. split; [reflexivity|]. repeat split; auto.
      * right. split; [reflexivity|]. eauto.
      * intros [Hc | [Hc | [Hc | Hc]]]; discriminate.
    + eexists _, _. split; [reflexivity|]. repeat split; auto.
    + eexists _, _. split; [reflexivity|]. repeat split; auto.
  - cbn. eexists _, _. split; [reflexivity|]. rewrite app_nil_r.
    repeat split; auto.
Qed.

Lemma bind_inv {A B} (c : Cmd A) (k : A -> Cmd B) (w w' : World) (b : B) :
  bind c k w = Some (b, w') ->
  exists a w1, c w = Some (a, w1) /\ k a w1 = Some (b, w').
Proof.
  unfold bind. destruct (c w) as [[a w1]|]; [|discriminate]. eauto.
Qed.

Lemma reload_dialogs (program : Z) (getKey : Key -> Action) (answer : DialogAnswer)
      (w w' : World) (u : unit) :
  reload program getKey answer w = Some (u, w') ->
  dialogs w'
  = dialogs w ++ (if pressed getKey KeyF1 then [lastDirectory (globals w)] else []).
Proof.
  unfold reload. intros E.
  apply bind_inv in E. destruct E as ([files err] & w1 & E1 & E2).
  destruct (checkFileReload_dialogs getKey answer w)
    as (r & w1' & E1' & Hd & _).
  rewrite E1 in E1'. injection E1' as <- <-. rewrite <- Hd.
  destruct (isNil err && (0 <? len files)).
  - revert E2. apply quiet_bind; [apply quiet_cleanupScene|]. intros _.
    apply quiet_bind; [apply quiet_loadAllMeshes|]. intros sc.
    repeat quiet_step.
  - unfold ret in E2. injection E2 as _ <-. reflexivity.
Qed.

Lemma processInput_lastDirectory (getKey : Key -> Action) (g g' : Globals) :
  processInput getKey g = Some g' -> lastDirectory g' = lastDirectory g.
Proof.
  unfold processInput, cycleSpeed.
  destruct (index speedMultipliers _); [|discriminate].
  intros [= <-].
  destruct (pressed getKey KeyW), (pressed getKey KeyS), (pressed getKey KeyA),
    (pressed getKey KeyD), (Action_eqb _ Press && _); reflexivity.
Qed.

Lemma frame_dialogs (program : Z) (i : FrameInput) (w w' : World) (u : unit) :
  frame program i w = Some (u, w') ->
  dialogs w'
  = dialogs w
    ++ (if pressed (getKey i) KeyF1 then [lastDirectory (globals w)] else []).
Proof.
  unfold frame. intros E.
  apply bind_inv in E. destruct E as (? & w1 & E1 & E).
  injection E1 as _ <-.
  apply bind_inv in E. destruct E as (? & w2 & E2 & E).
  injection E2 as _ <-.
  apply bind_inv in E. destruct E as (g & w3 & E3 & E).
  injection E3 as <- <-.
  apply bind_inv in E. destruct E as (g' & w4 & E4 & E).
  unfold lift in E4.
  destruct (processInput (getKey i) _) as [g0|] eqn:EP; [|discriminate].
  injection E4 as <- <-.
  apply bind_inv in E. destruct E as (? & w5 & E5 & E).
  injection E5 as _ <-.
  apply bind_inv in E. destruct E as (? & w6 & E6 & E).
  apply reload_dialogs in E6.
  apply processInput_lastDirectory in EP. cbn in EP, E6. rewrite EP in E6.
  rewrite <- E6. revert E.
  apply quiet_bind; [apply quiet_renderScene|]. intros _.
  apply quiet_bind; [apply quiet_PollEvents|]. intros _.
  repeat quiet_step.
Qed.

(** A reload step that finds F1 up, or a dialog that is cancelled, fails
    or returns no path, changes nothing but the record of the dialogs
    opened. *)
Lemma reload_idle (program : Z) (getKey : Key -> Action) (answer : DialogAnswer)
      (w : World) :
  pressed getKey KeyF1 = false \/ answer = Canceled \/ answer = DialogFailed
  \/ answer = Selected [] ->
  exists w',
    reload program getKey answer w = Some (tt, w')
    /\ globals w' = globals w /\ gl w' = gl w /\ logged w' = logged w
    /\ windowTitle w' = windowTitle w.
Proof.
  intros Hidle.
  destruct (checkFileReload_dialogs getKey answer w)
    as ([files err] & w1 & E1 & _ & Hgl & Hlog & Ht & _ & _ & Hg & Hno).
  specialize (Hno Hidle). cbn [fst snd] in Hno.
  unfold reload. rewrite (SceneFacts.bind_Some _ _ _ _ _ E1), Hno.
  exists w1. split; [reflexivity|]. split; [|auto].
  destruct Hg as [Hg | (Hp & f & fs & Ha & _)]; [exact Hg|].
  destruct Hidle as [Hc | [Hc | [Hc | Hc]]]; congruence.
Qed.

End Frame.

End FrameFacts.

(** C7.  When the reload step finds F1 up, or its dialog is cancelled,
    fails or returns an empty list, the step completes and leaves the
    scene (mesh records and combined bounds), every other variable, the
    driver, the log and the window title as they were.  So a step that
    changes the scene, the driver or the title had F1 down and a
    selection of at least one path. *)
Theorem cancelled_reload_keeps_scene :
  forall (M : Collab.Mgl32) (H : Collab.Host) (G : Collab.GLDriver)
         (program : Z) (getKey : Collab.Key -> Collab.Action)
         (answer : Collab.DialogAnswer) (w : Viewer.World),
    (Viewer.pressed getKey Collab.KeyF1 = false \/ answer = Collab.Canceled
     \/ answer = Collab.DialogFailed \/ answer = Collab.Selected [] ->
     exists w',
       Viewer.reload program getKey answer w = Some (tt, w')
       /\ Viewer.scene (Viewer.globals w') = Viewer.scene (Viewer.globals w)
       /\ Viewer.globals w' = Viewer.globals w
       /\ Viewer.gl w' = Viewer.gl w
       /\ Viewer.logged w' = Viewer.logged w
       /\ Viewer.windowTitle w' = Viewer.windowTitle w)
    /\ (forall w',
          Viewer.reload program getKey answer w = Some (tt, w') ->
          Viewer.scene (Viewer.globals w') <> Viewer.scene (Viewer.globals w)
          \/ Viewer.gl w' <> Viewer.gl w
          \/ Viewer.windowTitle w' <> Viewer.windowTitle w ->
          Viewer.pressed getKey Collab.KeyF1 = true
          /\ exists f fs, answer = Collab.Selected (f :: fs)).
Proof.
  intros M H G program getKey answer w.
  assert (Viewer.pressed getKey Collab.KeyF1 = false \/ answer = Collab.Canceled
          \/ answer = Collab.DialogFailed \/ answer = Collab.Selected [] ->
          exists w',
            Viewer.reload program getKey answer w = Some (tt, w')
            /\ Viewer.scene (Viewer.globals w') = Viewer.scene (Viewer.globals w)
            /\ Viewer.globals w' = Viewer.globals w
            /\ Viewer.gl w' = Viewer.gl w
            /\ Viewer.logged w' = Viewer.logged w
            /\ Viewer.windowTitle w' = Viewer.windowTitle w) as Hidle.
  { intros Hi.
    destruct (FrameFacts.reload_idle program getKey answer w Hi)
      as (w' & E & Hg & Hgl & Hlog & Ht).
    exists w'. rewrite Hg. auto 10. }
  split; [exact Hidle|].
  intros w' E Hchanged.
  destruct (Viewer.pressed getKey Collab.KeyF1) eqn:Hp.
  - split; [reflexivity|].
    destruct answer as [[|f fs]| |]; eauto.
    all: destruct Hidle as (w0 & E0 & Hs & _ & Hgl & _ & Ht); [auto|].
    all: rewrite E in E0; injection E0 as <-.
    all: destruct Hchanged as [Hc | [Hc | Hc]]; contradiction.
  - destruct Hidle as (w0 & E0 & Hs & _ & Hgl & _ & Ht); [auto|].
    rewrite E in E0. injection E0 as <-.
    destruct Hchanged as [Hc | [Hc | Hc]]; contradiction.
Qed.

(** A cancelled dialog on the initial world, F1 down. *)
Lemma cancelled_reload_keeps_scene_witness :
  exists w',
    @Viewer.reload Double.mgl32 Double.host Double.driver 1 Double.f1Down
                   Collab.Canceled Double.initialWorld
    = Some (tt, w')
    /\ Viewer.scene (Viewer.globals w') = Viewer.scene (Viewer.globals Double.initialWorld).
Proof.
  destruct (proj1 (cancelled_reload_keeps_scene
                     Double.mgl32 Double.host Double.driver 1 Double.f1Down
                     Collab.Canceled Double.initialWorld)
                  (or_intror (or_introl eq_refl)))
    as (w' & E & Hs & _).
  exists w'. split; [exact E | exact Hs].
Defined.

(** C6, as amended.  [checkFileReload] opens the dialog exactly when it
    finds F1 down, whatever the state of the key in the frame before; and
    a frame that completes has opened the dialog once if F1 was down when
    it began and not at all otherwise. *)
Theorem dialog_follows_key_state :
  forall (M : Collab.Mgl32) (H : Collab.Host) (G : Collab.GLDriver)
         (program : Z) (i : Viewer.FrameInput) (w : Viewer.World),
    let opened :=
      if Viewer.pressed (Viewer.getKey i) Collab.KeyF1
      then [Viewer.lastDirectory (Viewer.globals w)] else [] in
    (exists r w',
        Viewer.checkFileReload (Viewer.getKey i) (Viewer.answer i) w = Some (r, w')
        /\ Viewer.dialogs w' = Viewer.dialogs w ++ opened)
    /\ (forall w',
          Viewer.frame program i w = Some (tt, w') ->
          Viewer.dialogs w' = Viewer.dialogs w ++ opened).
Proof.
  intros M H G program i w opened. split.
  - destruct (FrameFacts.checkFileReload_dialogs (Viewer.getKey i) (Viewer.answer i) w)
      as (r & w' & E & Hd & _).
    exists r, w'. auto.
  - intros w' E. exact (FrameFacts.frame_dialogs program i w w' tt E).
Qed.

(** A frame with F1 down, from the initial world. *)
Lemma dialog_follows_key_state_witness :
  let held :=
    @Viewer.mkFrameInput (Float.int64_to64 0) Double.f1Down Collab.Canceled [] in
  exists w',
    @Viewer.frame Double.mgl32 Double.host Double.driver 1 held Double.initialWorld
    = Some (tt, w')
    /\ Viewer.dialogs w' = Viewer.dialogs Double.initialWorld ++ [""].
Proof.
  cbv zeta.
  assert (match @Viewer.frame Double.mgl32 Double.host Double.driver 1
                  (@Viewer.mkFrameInput (Float.int64_to64 0) Double.f1Down
                                        Collab.Canceled [])
                  Double.initialWorld with
          | Some _ => true
          | None => false
          end = true) as Hruns by (vm_compute; reflexivity).
  destruct (@Viewer.frame Double.mgl32 Double.host Double.driver 1
              (@Viewer.mkFrameInput (Float.int64_to64 0) Double.f1Down
                                    Collab.Canceled [])
              Double.initialWorld) as [[[] w']|] eqn:E; [|discriminate Hruns].
  exists w'. split; [reflexivity|].
  exact (proj2 (dialog_follows_key_state
                  Double.mgl32 Double.host Double.driver 1
                  (@Viewer.mkFrameInput (Float.int64_to64 0) Double.f1Down
                                        Collab.Canceled [])
                  Double.initialWorld) w' E).
Defined.

(** C6, as stated, fails: with F1 down in two consecutive frames (and the
    dialog cancelled in the first) the second frame opens the dialog
    again. *)
Lemma held_F1_opens_dialog_again :
  let held :=
    @Viewer.mkFrameInput (Float.int64_to64 0) Double.f1Down Collab.Canceled [] in
  let opened frames :=
    option_map (fun r => Viewer.dialogs (snd r))
               (@Viewer.mainLoop Double.mgl32 Double.host Double.driver 1 frames
                                 Double.initialWorld) in
  Viewer.pressed (Viewer.getKey held) Collab.KeyF1 = true
  /\ opened [held] = Some [""]
  /\ opened [held; held] = Some [""; ""].
Proof.
  cbv zeta. split; [reflexivity|].
  split; vm_compute; reflexivity.
Qed.

(** ** The pacing of the frames *)

Module PacingFacts.
Import GoInt Float Viewer.

Lemma digits2_pos_bound (m : positive) : Z.pos m < 2 ^ Z.pos (digits2_pos m).
Proof.
  induction m as [m IH | m IH |]; cbn [digits2_pos].
  - rewrite Pos2Z.inj_succ, Z.pow_succ_r by lia. lia.
  - rewrite Pos2Z.inj_succ, Z.pow_succ_r by lia. lia.
  - reflexivity.
Qed.

(** A valid binary64 number has at most 53 digits. *)
Lemma valid_mantissa (s : bool) (m : positive) (e : Z) :
  valid_binary 53 1024 (S754_finite s m e) = true -> Z.pos m < 2 ^ 53.
Proof.
  cbn [valid_binary]. unfold bounded, canonical_mantissa, fexp, emin.
  intros Hv. apply andb_prop in Hv. destruct Hv as [Hc _].
  apply Z.eqb_eq in Hc.
  pose proof (digits2_pos_bound m) as Hd.
  assert (Z.pos (digits2_pos m) <= 53) as Hle by lia.
  eapply Z.lt_le_trans; [exact Hd|].
  apply Z.pow_le_mono_r; lia.
Qed.

(** The order of two positive finite numbers. *)
Lemma ltb_positive (m m' : positive) (e e' : Z) :
  ltb (S754_finite false m e) (S754_finite false m' e') = true ->
  e < e' \/ (e = e' /\ Z.pos m < Z.pos m').
Proof.
  unfold ltb, SFltb, SFcompare.
  change (Pos.compare_cont Eq m m') with (Pos.compare m m').
  destruct (Z.compare_spec e e') as [He | He | He];
    [|intros _; lia|intros Habs; discriminate Habs].
  destruct (Pos.compare_spec m m') as [Hp | Hp | Hp];
    [intros Habs; discriminate Habs|intros _; lia|intros Habs; discriminate Habs].
Qed.

(** The integer part of a number from 0 up to 1 is 0. *)
Lemma to_int64_below_one (x : float64) :
  valid_binary 53 1024 x = true ->
  leb (int64_to64 0) x = true -> ltb x (int64_to64 1) = true ->
  to_int64 x = 0.
Proof.
  intros Hv Hlo Hhi. destruct x as [s | [|] | | [|] m e].
  - reflexivity.
  - discriminate Hlo.
  - discriminate Hhi.
  - discriminate Hlo.
  - discriminate Hlo.
  - pose proof (valid_mantissa false m e Hv) as Hm. clear Hv Hlo.
    assert (e < -52 \/ (e = -52 /\ Z.pos m < 4503599627370496)) as Hcase.
    { apply (ltb_positive m 4503599627370496 e (-52)). exact Hhi. }
    clear Hhi. unfold to_int64, trunc, cond_Zopp.
    assert (match e with
            | Z.neg k => Z.pos m / 2 ^ Z.pos k
            | _ => Z.pos m * 2 ^ e
            end = 0) as ->; [|reflexivity].
    destruct e as [|k|k]; try lia.
    apply Z.div_small. split; [lia|].
    destruct Hcase as [He | [He Hp]].
    + eapply Z.lt_le_trans; [exact Hm|]. apply Z.pow_le_mono_r; lia.
    + injection He as ->. exact Hp.
Qed.

(** Whatever part of a second a frame took, the loop pauses for the whole
    budget. *)
Lemma pacing_below_one_second (deltaTime : float64) :
  valid_binary 53 1024 deltaTime = true ->
  leb (int64_to64 0) deltaTime = true -> ltb deltaTime (int64_to64 1) = true ->
  pacing deltaTime = 16666666.
Proof.
  intros Hv Hlo Hhi. unfold pacing.
  now rewrite (to_int64_below_one deltaTime Hv Hlo Hhi).
Qed.

End PacingFacts.

(** C2: what the code does where the claim fails.  After a frame of 1/128
    second the loop pauses for 16666666 ns, the whole budget, and not for
    the remainder 16666666 - 7812500; after a frame of half a second,
    thirty times the budget, it pauses for 16666666 ns as well. *)
Theorem pause_ignores_frame_time :
  Viewer.pacing (Float.dec64 1 128) = 16666666
  /\ Viewer.pacing (Float.dec64 1 2) = 16666666
  /\ Viewer.pacing (Float.dec64 1 128) <> 16666666 - 7812500
  /\ forall (M : Collab.Mgl32) (G : Collab.GLDriver) (w : Viewer.World),
      Viewer.pauses (Viewer.Sleep (Viewer.pacing (Float.dec64 1 2)) w)
      = Viewer.pauses w ++ [16666666].
Proof.
  split; [reflexivity|]. split; [reflexivity|]. split; [discriminate|].
  intros M G w. reflexivity.
Qed.

(** ** The conversions between [float32] and [float64] *)

Module WidenFacts.
Import Float.

Lemma iter_pos_iter {A} (f : A -> A) (p : positive) (x : A) :
  iter_pos f p x = Pos.iter f x p.
Proof.
  revert x. induction p as [p IH|p IH|]; intros x; cbn [iter_pos Pos.iter].
  - rewrite !IH, !Pos.iter_swap. reflexivity.
  - now rewrite !IH.
  - reflexivity.
Qed.

Lemma digits_shifted (m k : positive) :
  digits2_pos (Pos.iter xO m k) = (digits2_pos m + k)%positive.
Proof.
  induction k as [|k IH] using Pos.peano_ind.
  - cbn. now rewrite Pos.add_1_r.
  - rewrite Pos.iter_succ. cbn [digits2_pos]. rewrite IH, Pos.add_succ_r.
    reflexivity.
Qed.

Lemma shift_back (m k : positive) :
  iter_pos shr_1 k (Build_shr_record (Z.pos (Pos.iter xO m k)) false false)
  = Build_shr_record (Z.pos m) false false.
Proof.
  rewrite iter_pos_iter.
  induction k as [|k IH] using Pos.peano_ind.
  - reflexivity.
  - rewrite Pos.iter_succ_r, Pos.iter_succ. cbn [shr_1 orb]. exact IH.
Qed.

Section Format.
Variables prec emax : Z.

(** Rounding a mantissa that is already in the format changes nothing. *)
Lemma binary_round_aux_canonical (s : bool) (m : positive) (e : Z) :
  bounded prec emax m e = true ->
  binary_round_aux prec emax s (Z.pos m) e loc_Exact = S754_finite s m e.
Proof.
  unfold bounded, canonical_mantissa. intros Hb.
  apply andb_prop in Hb. destruct Hb as [Hc He]. apply Z.eqb_eq in Hc.
  unfold binary_round_aux, shr_fexp.
  cbn [Zdigits2 shr_record_of_loc]. rewrite Hc, Z.sub_diag.
  cbn [shr shr_m loc_of_shr_record round_nearest_even Zdigits2 shr_record_of_loc].
  rewrite Hc, Z.sub_diag. cbn [shr shr_m]. now rewrite He.
Qed.

(** Rounding a mantissa shifted left by [k] digits beyond the format gives
    the mantissa back. *)
Lemma binary_round_aux_shifted (s : bool) (m k : positive) (e : Z) :
  bounded prec emax m e = true ->
  binary_round_aux prec emax s (Z.pos (Pos.iter xO m k)) (e - Z.pos k) loc_Exact
  = S754_finite s m e.
Proof.
  intros Hb. pose proof Hb as Hb'.
  unfold bounded, canonical_mantissa in Hb'.
  apply andb_prop in Hb'. destruct Hb' as [Hc He]. apply Z.eqb_eq in Hc.
  unfold binary_round_aux, shr_fexp.
  cbn [Zdigits2 shr_record_of_loc]. rewrite digits_shifted.
  replace (Z.pos (digits2_pos m + k) + (e - Z.pos k))
    with (Z.pos (digits2_pos m) + e) by lia.
  rewrite Hc.
  replace (e - (e - Z.pos k)) with (Z.pos k) by lia.
  cbn [shr]. rewrite shift_back.
  replace (e - Z.pos k + Z.pos k) with e by lia.
  cbn [shr_m loc_of_shr_record round_nearest_even Zdigits2 shr_record_of_loc].
  rewrite Hc, Z.sub_diag. cbn [shr shr_m]. now rewrite He.
Qed.

End Format.

(** A valid binary32 number widens to the same number with its mantissa
    shifted to 53 digits. *)
Lemma widen_finite (s : bool) (m : positive) (e : Z) :
  bounded 24 128 m e = true ->
  exists k : positive,
    to64 (S754_finite s m e) = S754_finite s (Pos.iter xO m k) (e - Z.pos k).
Proof.
  intros Hb. pose proof Hb as Hb'.
  unfold bounded, canonical_mantissa, fexp, emin in Hb'.
  apply andb_prop in Hb'. destruct Hb' as [Hc He].
  apply Z.eqb_eq in Hc. apply Z.leb_le in He.
  unfold to64, round, binary_round.
  assert (fexp 53 1024 (Z.pos (digits2_pos m) + e)
          = Z.pos (digits2_pos m) + e - 53) as ->
      by (unfold fexp, emin; lia).
  unfold shl_align.
  destruct (Z.pos (digits2_pos m) + e - 53 - e) as [|p|p] eqn:Ed; try lia.
  exists p.
  replace (Z.pos (digits2_pos m) + e - 53) with (e - Z.pos p) by lia.
  apply binary_round_aux_canonical.
  unfold bounded, canonical_mantissa, fexp, emin. rewrite digits_shifted.
  apply andb_true_intro. split; [apply Z.eqb_eq | apply Z.leb_le]; lia.
Qed.

Lemma narrow_shifted (s : bool) (m k : positive) (e : Z) :
  bounded 24 128 m e = true ->
  to32 (S754_finite s (Pos.iter xO m k) (e - Z.pos k)) = S754_finite s m e.
Proof.
  intros Hb. pose proof Hb as Hb'.
  unfold bounded, canonical_mantissa in Hb'.
  apply andb_prop in Hb'. destruct Hb' as [Hc _]. apply Z.eqb_eq in Hc.
  unfold to32, round, binary_round. rewrite digits_shifted.
  replace (Z.pos (digits2_pos m + k) + (e - Z.pos k))
    with (Z.pos (digits2_pos m) + e) by lia.
  rewrite Hc. unfold shl_align.
  replace (e - (e - Z.pos k)) with (Z.pos k) by lia.
  now apply binary_round_aux_shifted.
Qed.

(** Widening a valid [float32] and narrowing it back gives the value. *)
Lemma valid_exact32 (x : float32) :
  valid_binary 24 128 x = true -> exact32 x.
Proof.
  unfold exact32. destruct x as [s|s| |s m e]; try reflexivity.
  cbn [valid_binary]. intros Hb.
  destruct (widen_finite s m e Hb) as [k ->]. now apply narrow_shifted.
Qed.

End WidenFacts.

(** ** [math.Min], [math.Max] and the bounds *)

Module BoundsFacts.
Import GoInt Float Mesh Spec.

Lemma lexle_total (a b : Z * Z * Z) : lexle a b \/ lexle b a.
Proof. destruct a as [[a1 a2] a3], b as [[b1 b2] b3]. cbn. lia. Qed.

Lemma lexle_trans (a b c : Z * Z * Z) : lexle a b -> lexle b c -> lexle a c.
Proof.
  destruct a as [[a1 a2] a3], b as [[b1 b2] b3], c as [[c1 c2] c3]. cbn. lia.
Qed.

Lemma lexle_antisym (a b : Z * Z * Z) : lexle a b -> lexle b a -> a = b.
Proof.
  destruct a as [[a1 a2] a3], b as [[b1 b2] b3]. cbn. intros Hab Hba.
  assert (a1 = b1 /\ a2 = b2 /\ a3 = b3) as (-> & -> & ->) by lia. reflexivity.
Qed.

Lemma rankMin_inj (x y : spec_float) : rankMin x = rankMin y -> x = y.
Proof.
  destruct x as [[|]|[|]| |[|] m e], y as [[|]|[|]| |[|] m' e']; cbn;
    intros E; try discriminate; try reflexivity;
    injection E as E1 E2; f_equal; lia.
Qed.

Lemma rankMax_inj (x y : spec_float) : rankMax x = rankMax y -> x = y.
Proof.
  destruct x as [[|]|[|]| |[|] m e], y as [[|]|[|]| |[|] m' e']; cbn;
    intros E; try discriminate; try reflexivity;
    injection E as E1 E2; f_equal; lia.
Qed.

(** The comparison of two finite numbers of the same sign, spelled out. *)
Ltac compare_finite :=
  unfold ltb, eqb, SFltb, SFeqb, SFcompare;
  repeat match goal with
    | |- context [Pos.compare_cont Eq ?m ?m'] =>
        change (Pos.compare_cont Eq m m') with (Pos.compare m m');
        destruct (Pos.compare_spec m m')
    | |- context [Z.compare ?e ?e'] => destruct (Z.compare_spec e e')
    end.

Lemma Min_lesser (x y : float64) : lexle (rankMin x) (rankMin y) -> Min x y = x.
Proof.
  destruct x as [[|]|[|]| |[|] m e], y as [[|]|[|]| |[|] m' e'];
    cbn [rankMin rank lexle]; intros Hle; try lia; try reflexivity.
  all: unfold Min; cbn [isInf isNaN isZero Signbit Bool.eqb orb andb].
  all: compare_finite; cbn; try reflexivity; try lia.
  all: subst; try reflexivity; f_equal; lia.
Qed.

Lemma Min_greater (x y : float64) : lexle (rankMin y) (rankMin x) -> Min x y = y.
Proof.
  destruct x as [[|]|[|]| |[|] m e], y as [[|]|[|]| |[|] m' e'];
    cbn [rankMin rank lexle]; intros Hle; try lia; try reflexivity.
  all: unfold Min; cbn [isInf isNaN isZero Signbit Bool.eqb orb andb].
  all: compare_finite; cbn; try reflexivity; try lia.
  all: subst; try reflexivity; f_equal; lia.
Qed.

Lemma Max_greater (x y : float64) : lexle (rankMax y) (rankMax x) -> Max x y = x.
Proof.
  destruct x as [[|]|[|]| |[|] m e], y as [[|]|[|]| |[|] m' e'];
    cbn [rankMax rank lexle]; intros Hle; try lia; try reflexivity.
  all: unfold Max; cbn [isInf isNaN isZero Signbit Bool.eqb orb andb].
  all: compare_finite; cbn; try reflexivity; try lia.
  all: subst; try reflexivity; f_equal; lia.
Qed.

Lemma Max_lesser (x y : float64) : lexle (rankMax x) (rankMax y) -> Max x y = y.
Proof.
  destruct x as [[|]|[|]| |[|] m e], y as [[|]|[|]| |[|] m' e'];
    cbn [rankMax rank lexle]; intros Hle; try lia; try reflexivity.
  all: unfold Max; cbn [isInf isNaN isZero Signbit Bool.eqb orb andb].
  all: compare_finite; cbn; try reflexivity; try lia.
  all: subst; try reflexivity; f_equal; lia.
Qed.

Lemma Min_comm (x y : float64) : Min x y = Min y x.
Proof.
  destruct (lexle_total (rankMin x) (rankMin y)) as [Hle | Hle].
  - now rewrite (Min_lesser x y Hle), (Min_greater y x Hle).
  - now rewrite (Min_greater x y Hle), (Min_lesser y x Hle).
Qed.

Lemma Max_comm (x y : float64) : Max x y = Max y x.
Proof.
  destruct (lexle_total (rankMax x) (rankMax y)) as [Hle | Hle].
  - now rewrite (Max_lesser x y Hle), (Max_greater y x Hle).
  - now rewrite (Max_greater x y Hle), (Max_lesser y x Hle).
Qed.

Lemma Min_select (x y : float64) : Min x y = x \/ Min x y = y.
Proof.
  destruct (lexle_total (rankMin x) (rankMin y)) as [Hle | Hle].
  - left. now apply Min_lesser.
  - right. now apply Min_greater.
Qed.

Lemma Max_select (x y : float64) : Max x y = x \/ Max x y = y.
Proof.
  destruct (lexle_total (rankMax x) (rankMax y)) as [Hle | Hle].
  - right. now apply Max_lesser.
  - left. now apply Max_greater.
Qed.

Lemma Min_assoc (x y z : float64) : Min (Min x y) z = Min x (Min y z).
Proof.
  destruct (lexle_total (rankMin x) (rankMin y)) as [Hxy | Hyx];
    destruct (lexle_total (rankMin y) (rankMin z)) as [Hyz | Hzy].
  - rewrite (Min_lesser x y Hxy), (Min_lesser y z Hyz), (Min_lesser x y Hxy).
    apply Min_lesser. exact (lexle_trans _ _ _ Hxy Hyz).
  - now rewrite (Min_lesser x y Hxy), (Min_greater y z Hzy).
  - now rewrite (Min_greater x y Hyx), (Min_lesser y z Hyz), (Min_greater x y Hyx).
  - rewrite (Min_greater x y Hyx), (Min_greater y z Hzy).
    symmetry. apply Min_greater. exact (lexle_trans _ _ _ Hzy Hyx).
Qed.

Lemma Max_assoc (x y z : float64) : Max (Max x y) z = Max x (Max y z).
Proof.
  destruct (lexle_total (rankMax x) (rankMax y)) as [Hxy | Hyx];
    destruct (lexle_total (rankMax y) (rankMax z)) as [Hyz | Hzy].
  - rewrite (Max_lesser x y Hxy), (Max_lesser y z Hyz).
    symmetry. apply Max_lesser. exact (lexle_trans _ _ _ Hxy Hyz).
  - now rewrite (Max_lesser x y Hxy), (Max_greater y z Hzy), (Max_lesser x y Hxy).
  - now rewrite (Max_greater x y Hyx), (Max_lesser y z Hyz).
  - rewrite (Max_greater x y Hyx), (Max_greater y z Hzy), (Max_greater x y Hyx).
    apply Max_greater. exact (lexle_trans _ _ _ Hzy Hyx).
Qed.

(** On canonical [float32] values the narrowing in [min32] and [max32]
    loses nothing. *)
Lemma to64_min32 (a b : float32) :
  exact32 a -> exact32 b -> to64 (min32 a b) = Min (to64 a) (to64 b).
Proof.
  unfold exact32, min32. intros Ha Hb.
  destruct (Min_select (to64 a) (to64 b)) as [-> | ->]; congruence.
Qed.

Lemma to64_max32 (a b : float32) :
  exact32 a -> exact32 b -> to64 (max32 a b) = Max (to64 a) (to64 b).
Proof.
  unfold exact32, max32. intros Ha Hb.
  destruct (Max_select (to64 a) (to64 b)) as [-> | ->]; congruence.
Qed.

Lemma min32_select (a b : float32) :
  exact32 a -> exact32 b -> min32 a b = a \/ min32 a b = b.
Proof.
  unfold exact32, min32. intros Ha Hb.
  destruct (Min_select (to64 a) (to64 b)) as [-> | ->]; auto.
Qed.

Lemma max32_select (a b : float32) :
  exact32 a -> exact32 b -> max32 a b = a \/ max32 a b = b.
Proof.
  unfold exact32, max32. intros Ha Hb.
  destruct (Max_select (to64 a) (to64 b)) as [-> | ->]; auto.
Qed.

Lemma min32_comm (a b : float32) : min32 a b = min32 b a.
Proof. unfold min32. now rewrite Min_comm. Qed.

Lemma max32_comm (a b : float32) : max32 a b = max32 b a.
Proof. unfold max32. now rewrite Max_comm. Qed.

Lemma min32_assoc (a b c : float32) :
  exact32 a -> exact32 b -> exact32 c ->
  min32 (min32 a b) c = min32 a (min32 b c).
Proof.
  intros Ha Hb Hc. unfold min32 at 1 3.
  now rewrite to64_min32, to64_min32, Min_assoc.
Qed.

Lemma max32_assoc (a b c : float32) :
  exact32 a -> exact32 b -> exact32 c ->
  max32 (max32 a b) c = max32 a (max32 b c).
Proof.
  intros Ha Hb Hc. unfold max32 at 1 3.
  now rewrite to64_max32, to64_max32, Max_assoc.
Qed.

End BoundsFacts.

(** C4.  [combineBounds] is commutative and, on bounds that hold
    [float32] values, associative; each field of the result is the
    [math.Min] of the two minimum fields, or the [math.Max] of the two
    maximum fields, and so one of the two. *)
Theorem combineBounds_commutative_associative :
  (forall a b : Mesh.Bounds, Mesh.combineBounds a b = Mesh.combineBounds b a)
  /\ (forall a b c : Mesh.Bounds,
        Spec.validBounds a -> Spec.validBounds b -> Spec.validBounds c ->
        Mesh.combineBounds (Mesh.combineBounds a b) c
        = Mesh.combineBounds a (Mesh.combineBounds b c)
        /\ Mesh.combineBounds (Mesh.combineBounds a b) c
           = Mesh.combineBounds (Mesh.combineBounds b a) c)
  /\ (forall a b : Mesh.Bounds,
        Spec.validBounds a -> Spec.validBounds b ->
        let r := Mesh.combineBounds a b in
        Float.to64 (Mesh.minX r)
        = Float.Min (Float.to64 (Mesh.minX a)) (Float.to64 (Mesh.minX b))
        /\ Float.to64 (Mesh.minY r)
           = Float.Min (Float.to64 (Mesh.minY a)) (Float.to64 (Mesh.minY b))
        /\ Float.to64 (Mesh.minZ r)
           = Float.Min (Float.to64 (Mesh.minZ a)) (Float.to64 (Mesh.minZ b))
        /\ Float.to64 (Mesh.maxX r)
           = Float.Max (Float.to64 (Mesh.maxX a)) (Float.to64 (Mesh.maxX b))
        /\ Float.to64 (Mesh.maxY r)
           = Float.Max (Float.to64 (Mesh.maxY a)) (Float.to64 (Mesh.maxY b))
        /\ Float.to64 (Mesh.maxZ r)
           = Float.Max (Float.to64 (Mesh.maxZ a)) (Float.to64 (Mesh.maxZ b))
        /\ Spec.validBounds r).
Proof.
  assert (forall a b : Mesh.Bounds, Mesh.combineBounds a b = Mesh.combineBounds b a)
    as Hcomm.
  { intros a b. unfold Mesh.combineBounds.
    f_equal; first [apply BoundsFacts.min32_comm | apply BoundsFacts.max32_comm]. }
  split; [exact Hcomm|]. split.
  - intros a b c (Ha1 & Ha2 & Ha3 & Ha4 & Ha5 & Ha6)
      (Hb1 & Hb2 & Hb3 & Hb4 & Hb5 & Hb6) (Hc1 & Hc2 & Hc3 & Hc4 & Hc5 & Hc6).
    split; [|now rewrite (Hcomm a b)].
    unfold Mesh.combineBounds.
    cbn [Mesh.minX Mesh.minY Mesh.minZ Mesh.maxX Mesh.maxY Mesh.maxZ].
    f_equal;
      first [apply BoundsFacts.min32_assoc | apply BoundsFacts.max32_assoc];
      apply WidenFacts.valid_exact32; assumption.
  - intros a b (Ha1 & Ha2 & Ha3 & Ha4 & Ha5 & Ha6)
      (Hb1 & Hb2 & Hb3 & Hb4 & Hb5 & Hb6).
    cbv zeta. unfold Mesh.combineBounds, Spec.validBounds.
    cbn [Mesh.minX Mesh.minY Mesh.minZ Mesh.maxX Mesh.maxY Mesh.maxZ].
    repeat split;
      first
        [ apply BoundsFacts.to64_min32; apply WidenFacts.valid_exact32; assumption
        | apply BoundsFacts.to64_max32; apply WidenFacts.valid_exact32; assumption
        | match goal with
          | |- Spec.isFloat32 (Mesh.min32 ?x ?y) =>
              destruct (BoundsFacts.min32_select x y) as [-> | ->];
              first [assumption | apply WidenFacts.valid_exact32; assumption]
          | |- Spec.isFloat32 (Mesh.max32 ?x ?y) =>
              destruct (BoundsFacts.max32_select x y) as [-> | ->];
              first [assumption | apply WidenFacts.valid_exact32; assumption]
          end ].
Qed.

(** Three boxes, with a NaN, an infinity and a negative zero among their
    fields. *)
Lemma combineBounds_commutative_associative_witness :
  let a := Mesh.mkBounds (Float.int_to32 0) (Float.int_to32 0) (Float.int_to32 (-2))
                         (Float.int_to32 5) (Float.int_to32 4) (Float.int_to32 1) in
  let b := Mesh.mkBounds (Float.dec32 3 10) Float.NaN (S754_zero true)
                         (Float.Inf false) (Float.int_to32 7) (S754_zero false) in
  let c := Mesh.mkBounds (Float.dec32 (-1) 3) (Float.int_to32 1) (S754_zero false)
                         (Float.int_to32 6) Float.NaN (S754_zero true) in
  Spec.validBounds a /\ Spec.validBounds b /\ Spec.validBounds c
  /\ Mesh.combineBounds (Mesh.combineBounds a b) c
     = Mesh.combineBounds a (Mesh.combineBounds b c).
Proof.
  cbv zeta.
  match goal with
  | |- Spec.validBounds ?a /\ Spec.validBounds ?b /\ Spec.validBounds ?c /\ _ =>
      assert (Spec.validBounds a) as Ha by (repeat split; reflexivity);
      assert (Spec.validBounds b) as Hb by (repeat split; reflexivity);
      assert (Spec.validBounds c) as Hc by (repeat split; reflexivity);
      split; [exact Ha|]; split; [exact Hb|]; split; [exact Hc|];
      exact (proj1 (proj1 (proj2 combineBounds_commutative_associative)
                          a b c Ha Hb Hc))
  end.
Defined.

(** ** Floating-point facts for the camera *)

Module FloatFacts.
Import GoInt Float Spec.

Section Rounding.
Variables prec emax : Z.

Lemma shr_1_nonneg (mrs : shr_record) :
  0 <= shr_m mrs -> 0 <= shr_m (shr_1 mrs).
Proof.
  destruct mrs as [m r s]. cbn [shr_m].
  destruct m as [|[p|p|]|p]; cbn; lia.
Qed.

Lemma iter_shr_1_nonneg (p : positive) (mrs : shr_record) :
  0 <= shr_m mrs -> 0 <= shr_m (iter_pos shr_1 p mrs).
Proof.
  revert mrs. induction p as [p IH|p IH|]; intros mrs Hm; cbn [iter_pos].
  - apply IH, IH, shr_1_nonneg, Hm.
  - apply IH, IH, Hm.
  - apply shr_1_nonneg, Hm.
Qed.

Lemma shr_fexp_nonneg (m e : Z) (l : location) :
  0 <= m -> 0 <= shr_m (fst (shr_fexp prec emax m e l)).
Proof.
  intros Hm. unfold shr_fexp, shr.
  assert (0 <= shr_m (shr_record_of_loc m l)) as H0
      by (destruct l as [|[| |]]; exact Hm).
  destruct (fexp prec emax (Zdigits2 m + e) - e) as [|p|p]; cbn [fst];
    [exact H0 | apply iter_shr_1_nonneg, H0 | exact H0].
Qed.

Lemma round_nearest_even_nonneg (m : Z) (l : location) :
  0 <= m -> 0 <= round_nearest_even m l.
Proof.
  intros Hm. unfold round_nearest_even.
  destruct l as [|[| |]]; [assumption| |assumption|lia].
  destruct (Z.even m); lia.
Qed.

(** Rounding a non-negative mantissa gives a zero, a finite number or an
    infinity. *)
Lemma binary_round_aux_not_nan (sx : bool) (mx ex : Z) (lx : location) :
  0 <= mx -> isNaN (binary_round_aux prec emax sx mx ex lx) = false.
Proof.
  intros Hm. unfold binary_round_aux.
  pose proof (shr_fexp_nonneg mx ex lx Hm) as H1.
  destruct (shr_fexp prec emax mx ex lx) as [mrs' e']. cbn [fst] in H1.
  pose proof (shr_fexp_nonneg
                (round_nearest_even (shr_m mrs') (loc_of_shr_record mrs')) e'
                loc_Exact (round_nearest_even_nonneg _ _ H1)) as H2.
  destruct (shr_fexp prec emax _ e' loc_Exact) as [mrs'' e'']. cbn [fst] in H2.
  destruct (shr_m mrs'') as [|p|p]; [reflexivity| |lia].
  destruct (e'' <=? emax - prec); reflexivity.
Qed.

Lemma binary_round_not_nan (sx : bool) (mx : positive) (ex : Z) :
  isNaN (binary_round prec emax sx mx ex) = false.
Proof.
  unfold binary_round. destruct (shl_align mx ex _) as [mz ez].
  apply binary_round_aux_not_nan. lia.
Qed.

Lemma binary_normalize_not_nan (m e : Z) (szero : bool) :
  isNaN (binary_normalize prec emax m e szero) = false.
Proof.
  destruct m as [|p|p]; cbn [binary_normalize];
    [reflexivity | apply binary_round_not_nan | apply binary_round_not_nan].
Qed.

Lemma SFsub_finite (x y : spec_float) :
  isFinite x = true -> isFinite y = true -> isNaN (SFsub prec emax x y) = false.
Proof.
  destruct x as [sx|sx| |sx mx ex], y as [sy|sy| |sy my ey]; try discriminate;
    intros _ _; cbn [SFsub].
  - destruct sx, sy; reflexivity.
  - reflexivity.
  - reflexivity.
  - apply binary_normalize_not_nan.
Qed.

Lemma SFadd_finite (x y : spec_float) :
  isFinite x = true -> isNaN y = false -> isNaN (SFadd prec emax x y) = false.
Proof.
  destruct x as [sx|sx| |sx mx ex], y as [sy|sy| |sy my ey]; try discriminate;
    intros _ _; cbn [SFadd]; try reflexivity.
  - destruct sx, sy; reflexivity.
  - apply binary_normalize_not_nan.
Qed.

Lemma SFmul_finite_r (x : spec_float) (s : bool) (m : positive) (e : Z) :
  isNaN x = false -> isNaN (SFmul prec emax x (S754_finite s m e)) = false.
Proof.
  destruct x as [sx|sx| |sx mx ex]; try discriminate; intros _; cbn [SFmul];
    try reflexivity.
  apply binary_round_aux_not_nan. lia.
Qed.

End Rounding.

(** Of two numbers, if the first is not below the second, the second is at
    most the first. *)
Lemma not_ltb_leb (x y : spec_float) :
  isNaN x = false -> isNaN y = false -> ltb x y = false -> leb y x = true.
Proof.
  destruct x as [[|]|[|]| |[|] m e], y as [[|]|[|]| |[|] m' e'];
    try discriminate; intros _ _; unfold ltb, leb, SFltb, SFleb, SFcompare;
    try reflexivity; try discriminate.
  all: change (Pos.compare_cont Eq m m') with (Pos.compare m m').
  all: change (Pos.compare_cont Eq m' m) with (Pos.compare m' m).
  all: destruct (Z.compare_spec e e'), (Z.compare_spec e' e); try lia.
  all: try reflexivity; try discriminate.
  all: destruct (Pos.compare_spec m m'), (Pos.compare_spec m' m); try lia.
  all: try reflexivity; try discriminate.
Qed.

Lemma inRange_finite (p : float64) : inRange p -> isFinite p = true.
Proof.
  unfold inRange. destruct p as [s|[|]| |s m e]; intros [Hlo Hhi];
    try reflexivity; discriminate.
Qed.

Lemma finite_not_nan (x : spec_float) : isFinite x = true -> isNaN x = false.
Proof. destruct x; try discriminate; reflexivity. Qed.

(** A sum that is a number lands in the interval once clamped. *)
Lemma clampPitch_inRange (p : float64) : isNaN p = false -> inRange (clampPitch p).
Proof.
  intros Hp. unfold clampPitch.
  destruct (ltb (int64_to64 89) p) eqn:Ehi; [split; reflexivity|].
  destruct (ltb p (int64_to64 (-89))) eqn:Elo; [split; reflexivity|].
  split; apply not_ltb_leb; auto.
Qed.

(** A number below -89 is not above 89. *)
Lemma below_not_above (x : float64) :
  ltb x (int64_to64 (-89)) = true -> ltb (int64_to64 89) x = false.
Proof.
  destruct x as [s | [|] | | [|] m e]; intros Hlo;
    first [reflexivity | vm_compute in Hlo; discriminate Hlo].
Qed.

End FloatFacts.

Module PitchFacts.
Import GoInt Float Mesh Collab Viewer Spec.

Section Pitch.
Context {M : Mgl32} {H : Host}.

(** The pitch after the offset is added, before it is clamped. *)
Lemma raised_pitch_not_nan (g : Globals) (ypos : float64) :
  inRange (pitch g) -> isFinite (lastY g) = true -> isFinite ypos = true ->
  isNaN (add64 (pitch g) (mul64 (sub64 (lastY g) ypos) mouseSensitivity)) = false.
Proof.
  intros Hp Hl Hy.
  apply FloatFacts.SFadd_finite; [apply FloatFacts.inRange_finite, Hp|].
  change mouseSensitivity with (S754_finite false 7205759403792794 (-56)).
  apply FloatFacts.SFmul_finite_r. now apply FloatFacts.SFsub_finite.
Qed.

Lemma mouseCallback_keeps_range (xpos ypos : float64) (g : Globals) :
  inRange (pitch g) -> isFinite (lastY g) = true -> isFinite ypos = true ->
  inRange (pitch (mouseCallback xpos ypos g))
  /\ isFinite (lastY (mouseCallback xpos ypos g)) = true.
Proof.
  intros Hp Hl Hy. destruct (firstMouse g) eqn:Hf.
  - rewrite (MouseFacts.mouseCallback_first xpos ypos g Hf). cbn. auto.
  - destruct (MouseFacts.mouseCallback_next xpos ypos g Hf)
      as (_ & Hpitch & _ & _ & Hlast & _).
    rewrite Hpitch, Hlast. split; [|exact Hy].
    apply FloatFacts.clampPitch_inRange. now apply raised_pitch_not_nan.
Qed.

Lemma Forall_prefix {A} (P : A -> Prop) (l : list A) (k : nat) :
  Forall P l -> Forall P (firstn k l).
Proof.
  intros Hl. revert k. induction Hl as [|a l Ha _ IH]; intros [|k]; cbn;
    constructor; auto.
Qed.

Lemma mouseCallbacks_keep_range (samples : list (float64 * float64)) (g : Globals) :
  inRange (pitch g) -> isFinite (lastY g) = true ->
  Forall (fun s => isFinite (snd s) = true) samples ->
  inRange (pitch (mouseCallbacks samples g)).
Proof.
  intros Hp Hl Hs. revert g Hp Hl. unfold mouseCallbacks.
  induction Hs as [|[x y] samples Hy _ IH]; intros g Hp Hl; cbn [fold_left].
  - exact Hp.
  - destruct (mouseCallback_keeps_range x y g Hp Hl Hy) as [Hp' Hl'].
    apply IH; assumption.
Qed.

End Pitch.

End PitchFacts.

(** C3, for finite cursor heights.  From a pitch between -89 and 89 and a
    finite last cursor height, over any sequence of cursor samples whose
    heights are finite, the pitch after each call of [mouseCallback] is
    between -89 and 89.  After the first sample, a call whose offset
    raises the pitch above 89 leaves it at 89 exactly, and one that lowers
    it below -89 leaves it at -89 exactly. *)
Theorem pitch_stays_clamped :
  forall (M : Collab.Mgl32) (H : Collab.Host)
         (samples : list (Float.float64 * Float.float64)) (g : Viewer.Globals),
    Spec.inRange (Viewer.pitch g) ->
    Float.isFinite (Viewer.lastY g) = true ->
    Forall (fun s => Float.isFinite (snd s) = true) samples ->
    (forall k : nat,
        Spec.inRange (Viewer.pitch (Viewer.mouseCallbacks (firstn k samples) g)))
    /\ (forall xpos ypos : Float.float64,
          Viewer.firstMouse g = false ->
          let raised :=
            Float.add64 (Viewer.pitch g)
              (Float.mul64 (Float.sub64 (Viewer.lastY g) ypos)
                           Viewer.mouseSensitivity) in
          (Float.ltb (Float.int64_to64 89) raised = true ->
           Viewer.pitch (Viewer.mouseCallback xpos ypos g) = Float.int64_to64 89)
          /\ (Float.ltb raised (Float.int64_to64 (-89)) = true ->
              Viewer.pitch (Viewer.mouseCallback xpos ypos g)
              = Float.int64_to64 (-89))).
Proof.
  intros M H samples g Hp Hl Hs. split.
  - intros k. apply PitchFacts.mouseCallbacks_keep_range; try assumption.
    apply PitchFacts.Forall_prefix, Hs.
  - intros xpos ypos Hf raised.
    destruct (MouseFacts.mouseCallback_next xpos ypos g Hf) as (_ & Hpitch & _).
    fold raised in Hpitch. rewrite Hpitch. unfold Spec.clampPitch. split.
    + intros ->. reflexivity.
    + intros Hlo. now rewrite (FloatFacts.below_not_above raised Hlo), Hlo.
Qed.

(** The cursor moved up by 1500 pixels, an offset of 150 degrees, and then
    down by 3000: the pitch stops at 89 and at -89. *)
Example pitch_clamps_at_89 :
  let at_y y := (Float.int64_to64 640, Float.int64_to64 y) in
  map (fun k => Viewer.pitch
                  (@Viewer.mouseCallbacks Double.mgl32 Double.host
                     (firstn k [at_y 360; at_y (-1140); at_y 1860])
                     Double.initialGlobals))
      [1; 2; 3]%nat
  = [S754_zero false; Float.int64_to64 89; Float.int64_to64 (-89)].
Proof. vm_compute. reflexivity. Qed.

Lemma pitch_stays_clamped_witness :
  let at_y y := (Float.int64_to64 640, Float.int64_to64 y) in
  let samples := [at_y 360; at_y (-1140); at_y 1860] in
  Spec.inRange (Viewer.pitch Double.initialGlobals)
  /\ Float.isFinite (Viewer.lastY Double.initialGlobals) = true
  /\ Forall (fun s => Float.isFinite (snd s) = true) samples
  /\ Spec.inRange
       (Viewer.pitch (@Viewer.mouseCallbacks Double.mgl32 Double.host
                        (firstn 2 samples) Double.initialGlobals)).
Proof.
  cbv zeta.
  assert (Spec.inRange (Viewer.pitch Double.initialGlobals)) as Hp
      by (split; reflexivity).
  assert (Float.isFinite (Viewer.lastY Double.initialGlobals) = true) as Hl
      by reflexivity.
  match goal with
  | |- _ /\ _ /\ Forall ?P ?l /\ _ =>
      assert (Forall P l) as Hs by (repeat constructor)
  end.
  split; [exact Hp|]. split; [exact Hl|]. split; [exact Hs|].
  exact (proj1 (pitch_stays_clamped Double.mgl32 Double.host _
                  Double.initialGlobals Hp Hl Hs) 2%nat).
Defined.

(** C3, as stated for every sequence of samples, fails: a sample is any
    pair of [float64] values.  After a first sample at height 360, a
    second whose height is not a number makes the offset, and with it the
    raised pitch, not a number; neither comparison of the clamp then
    holds and the pitch is stored as it is, outside the interval from -89
    to 89.  Two samples at height +Inf do the same, the offset being
    Inf - Inf. *)
Lemma nan_offset_escapes_clamp :
  let pitch_after samples :=
    Viewer.pitch (@Viewer.mouseCallbacks Double.mgl32 Double.host samples
                    Double.initialGlobals) in
  let x := Float.int64_to64 640 in
  let not_a_number := [(x, Float.int64_to64 360); (x, S754_nan)] in
  let infinite := [(x, S754_infinity false); (x, S754_infinity false)] in
  Spec.inRange (Viewer.pitch Double.initialGlobals)
  /\ Float.isNaN (pitch_after not_a_number) = true
  /\ ~ Spec.inRange (pitch_after not_a_number)
  /\ Float.isNaN (pitch_after infinite) = true
  /\ ~ Spec.inRange (pitch_after infinite).
Proof.
  cbv zeta. split; [split; reflexivity|].
  split; [vm_compute; reflexivity|].
  split; [intros [Hlo _]; vm_compute in Hlo; discriminate Hlo|].
  split; [vm_compute; reflexivity|].
  intros [Hlo _]. vm_compute in Hlo. discriminate Hlo.
Qed.

(** ** The frame as a whole *)

Module InvariantFacts.
Import GoInt Float Mesh Collab Viewer Spec.

Section Invariant.
Context {M : Mgl32} {H : Host} {G : GLDriver}.
Variable Q : Globals -> Prop.

Lemma maintains_ret {A} (a : A) : maintains Q (ret a).
Proof. intros w a' w' HQ [= _ <-]. exact HQ. Qed.

Lemma maintains_exit {A} : maintains Q (@exit _ _ A).
Proof. intros w a w' _ E. discriminate E. Qed.

Lemma maintains_lift {A} (o : option A) : maintains Q (lift o).
Proof.
  intros w a w' HQ. unfold lift. destruct o; [|discriminate].
  intros [= _ <-]. exact HQ.
Qed.

Lemma maintains_read {A} (f : World -> A) : maintains Q (read f).
Proof. intros w a w' HQ [= _ <-]. exact HQ. Qed.

Lemma maintains_bind {A B} (c : Cmd A) (k : A -> Cmd B) :
  maintains Q c -> (forall a, maintains Q (k a)) -> maintains Q (bind c k).
Proof.
  intros Hc Hk w b w' HQ. unfold bind.
  destruct (c w) as [[a w1]|] eqn:E; [|discriminate].
  apply (Hk a). apply (Hc _ _ _ HQ E).
Qed.

(** What acts on the driver, the log or the window leaves the variables. *)
Lemma maintains_act (f : World -> World) :
  (forall w, globals (f w) = globals w) -> maintains Q (act f).
Proof. intros Hf w a w' HQ [= _ <-]. now rewrite Hf. Qed.

Lemma maintains_update (f : Globals -> Globals) :
  (forall g, Q g -> Q (f g)) -> maintains Q (update f).
Proof. intros Hf w a w' HQ [= _ <-]. cbn. now apply Hf. Qed.

Lemma maintains_genVertexArrays : maintains Q genVertexArrays.
Proof.
  intros w a w' HQ. unfold genVertexArrays.
  destruct (GenVertexArrays (gl w)). intros [= _ <-]. exact HQ.
Qed.

Lemma maintains_genBuffers : maintains Q genBuffers.
Proof.
  intros w a w' HQ. unfold genBuffers.
  destruct (GenBuffers (gl w)). intros [= _ <-]. exact HQ.
Qed.

Lemma maintains_forEach {A} (l : list A) (body : A -> Cmd unit) :
  Forall (fun a => maintains Q (body a)) l -> maintains Q (forEach l body).
Proof.
  intros Hb. induction Hb as [|a l Ha _ IH]; cbn [forEach].
  - apply maintains_ret.
  - apply maintains_bind; [exact Ha|]. intros _. exact IH.
Qed.

Ltac keep :=
  first
    [ apply maintains_ret | apply maintains_exit | apply maintains_lift
    | apply maintains_read | apply maintains_genVertexArrays
    | apply maintains_genBuffers
    | apply maintains_act; reflexivity
    | apply maintains_forEach; apply Forall_forall; intros ? _
    | apply maintains_bind; [|intros ?] ].

Lemma maintains_loadSingleMesh (program : Z) (filename : string) :
  maintains Q (loadSingleMesh program filename).
Proof.
  unfold loadSingleMesh, logPrint, glDo.
  apply maintains_bind; [apply maintains_lift|]. intros [[vs ixs] out].
  apply maintains_bind; [keep|]. intros _.
  destruct ((len vs =? 0) || (len ixs =? 0)); [repeat keep|].
  apply maintains_bind; [apply maintains_lift|]. intros [b out'].
  repeat keep.
Qed.

Lemma maintains_loadRemaining (program : Z) (filenames : list string) (sc : Scene) :
  maintains Q (loadRemaining program filenames sc).
Proof.
  revert sc. induction filenames as [|f fs IH]; intros sc; cbn [loadRemaining].
  - apply maintains_ret.
  - apply maintains_bind; [apply maintains_loadSingleMesh|]. intros m. apply IH.
Qed.

(** The hypotheses on [Q]: it survives the updates of the reload and of
    the clock, which leave the fields it reads alone or reset them. *)
Hypothesis Q_initializeCamera : forall b g, Q g -> Q (initializeCamera b g).
Hypothesis Q_set_scene : forall sc g, Q g -> Q (set_scene sc g).
Hypothesis Q_set_lastDirectory : forall d g, Q g -> Q (set_lastDirectory d g).
Hypothesis Q_set_deltaTime : forall t g, Q g -> Q (set_deltaTime t g).
Hypothesis Q_set_lastFrame : forall t g, Q g -> Q (set_lastFrame t g).

Lemma maintains_loadAllMeshes (program : Z) (filenames : list string) :
  maintains Q (loadAllMeshes program filenames).
Proof.
  destruct filenames as [|f fs]; cbn [loadAllMeshes]; [apply maintains_exit|].
  apply maintains_bind; [apply maintains_loadSingleMesh|]. intros m.
  apply maintains_bind; [apply maintains_loadRemaining|]. intros sc.
  apply maintains_bind; [|intros _; apply maintains_ret].
  apply maintains_update. apply Q_initializeCamera.
Qed.

Lemma maintains_cleanupScene : maintains Q cleanupScene.
Proof.
  unfold cleanupScene, glDo.
  apply maintains_bind; [keep|]. intros sc.
  apply maintains_bind; [repeat keep|]. intros _.
  apply maintains_update. intros g. apply Q_set_scene.
Qed.

Lemma maintains_renderScene (program : Z) : maintains Q (renderScene program).
Proof. unfold renderScene, glDo, uniformLocation. repeat keep. Qed.

Lemma maintains_reload (program : Z) (getKey : Key -> Action)
      (answer : DialogAnswer) :
  maintains Q (reload program getKey answer).
Proof.
  unfold reload, checkFileReload, selectOBJFiles, when.
  apply maintains_bind.
  - destruct (Action_eqb (getKey KeyF1) Press); [|apply maintains_ret].
    apply maintains_bind; [keep|]. intros d.
    apply maintains_bind; [keep|]. intros _.
    destruct answer as [files| |]; [|apply maintains_ret|apply maintains_ret].
    apply maintains_bind; [|intros _; apply maintains_ret].
    destruct (0 <? len files); [|apply maintains_ret].
    apply maintains_update. apply Q_set_lastDirectory.
  - intros [files err].
    destruct (isNil err && (0 <? len files)); [|apply maintains_ret].
    apply maintains_bind; [apply maintains_cleanupScene|]. intros _.
    apply maintains_bind; [apply maintains_loadAllMeshes|]. intros sc.
    apply maintains_bind; [apply maintains_update, Q_set_scene|]. intros _.
    keep.
Qed.

(** A frame that completes has run [processInput], and what follows it
    keeps [Q] if the events received do. *)
Lemma frame_after_input (program : Z) (i : FrameInput) (w w' : World) (u : unit) :
  frame program i w = Some (u, w') ->
  exists g0,
    processInput (getKey i) (clocked i (globals w)) = Some g0
    /\ (Forall (fun e => maintains Q (dispatch e)) (events i) ->
        Q g0 -> Q (globals w')).
Proof.
  unfold frame. intros E.
  apply FrameFacts.bind_inv in E. destruct E as (? & w1 & E1 & E).
  injection E1 as _ <-.
  apply FrameFacts.bind_inv in E. destruct E as (? & w2 & E2 & E).
  injection E2 as _ <-.
  apply FrameFacts.bind_inv in E. destruct E as (g & w3 & E3 & E).
  injection E3 as <- <-.
  apply FrameFacts.bind_inv in E. destruct E as (g0 & w4 & E4 & E).
  unfold lift in E4.
  match type of E4 with
  | match ?o with _ => _ end = _ => destruct o as [g1|] eqn:EP; [|discriminate]
  end.
  injection E4 as <- <-.
  exists g1. split; [exact EP|].
  intros Hevents HQ.
  apply FrameFacts.bind_inv in E. destruct E as (? & w5 & E5 & E).
  injection E5 as _ <-.
  revert E.
  match goal with
  | |- bind _ _ ?w0 = _ -> _ =>
      assert (Q (globals w0)) as HQ0 by exact HQ; revert HQ0; generalize w0
  end.
  intros w0 HQ0 E. revert E. revert HQ0.
  apply (maintains_bind (reload program (getKey i) (answer i))).
  - apply maintains_reload.
  - intros _. apply maintains_bind; [apply maintains_renderScene|]. intros _.
    apply maintains_bind; [unfold PollEvents; now apply maintains_forEach|].
    intros _. repeat keep.
Qed.

End Invariant.

End InvariantFacts.

Module FrameInvariants.
Import GoInt Float Mesh Collab Viewer Spec.

Section Frames.
Context {M : Mgl32} {H : Host} {G : GLDriver}.

(** The fields a frame is followed through: the speed index with the
    last shift state, and the pitch with the last cursor height. *)
Lemma moved_fields (b : bool) (v : Vec3) (g : Globals) :
  let g' := if b then set_cameraPos v g else g in
  currentSpeedIndex g' = currentSpeedIndex g
  /\ lastShiftState g' = lastShiftState g
  /\ pitch g' = pitch g /\ lastY g' = lastY g.
Proof. destruct b; repeat split; reflexivity. Qed.

Lemma processInput_fields (getKey : Key -> Action) (g g' : Globals) :
  processInput getKey g = Some g' ->
  currentSpeedIndex g' = currentSpeedIndex (cycleSpeed (getKey KeyLeftShift) g)
  /\ lastShiftState g' = getKey KeyLeftShift
  /\ pitch g' = pitch g /\ lastY g' = lastY g.
Proof.
  unfold processInput.
  set (g1 := cycleSpeed (getKey KeyLeftShift) g).
  assert (lastShiftState g1 = getKey KeyLeftShift /\ pitch g1 = pitch g
          /\ lastY g1 = lastY g) as (Hs1 & Hp1 & Hl1).
  { unfold g1, cycleSpeed. destruct (Action_eqb _ Press && _); repeat split. }
  clearbody g1.
  destruct (index speedMultipliers (currentSpeedIndex g1)) as [mult|];
    [|discriminate].
  cbv zeta. intros [= <-].
  repeat match goal with
    | |- context [if ?b then set_cameraPos ?v ?g0 else ?g0] =>
        destruct (moved_fields b v g0) as (Hi & Hs & Hp & Hl);
        cbv zeta in Hi, Hs, Hp, Hl; rewrite Hi, Hs, Hp, Hl;
        clear Hi Hs Hp Hl
    end.
  rewrite Hs1, Hp1, Hl1. repeat split.
Qed.

Lemma mouseCallback_speed (xpos ypos : float64) (g : Globals) :
  currentSpeedIndex (mouseCallback xpos ypos g) = currentSpeedIndex g
  /\ lastShiftState (mouseCallback xpos ypos g) = lastShiftState g.
Proof.
  unfold mouseCallback. destruct (firstMouse g); [split; reflexivity|].
  cbn [set_lastX set_lastY set_yaw set_pitch yaw pitch lastX lastY].
  match goal with
  | |- context [if ltb pitchMax ?p then _ else _] => destruct (ltb pitchMax p)
  end;
    cbn [set_pitch pitch];
    match goal with
    | |- context [if ltb ?p pitchMin then _ else _] => destruct (ltb p pitchMin)
    end; split; reflexivity.
Qed.

Lemma maintains_keyCallback (Q : Globals -> Prop) (key : Key) (action : Action) :
  maintains Q (keyCallback key action).
Proof.
  unfold keyCallback.
  destruct key, action;
    first [apply InvariantFacts.maintains_ret
          | apply InvariantFacts.maintains_act; reflexivity].
Qed.

(** A frame that completes leaves the speed index and the last shift
    state as [processInput] set them. *)
Lemma frame_speed_index (program : Z) (i : FrameInput) (w w' : World) (u : unit) :
  frame program i w = Some (u, w') ->
  currentSpeedIndex (globals w')
  = currentSpeedIndex (cycleSpeed (getKey i KeyLeftShift) (globals w))
  /\ lastShiftState (globals w') = getKey i KeyLeftShift.
Proof.
  intros E.
  set (idx := currentSpeedIndex (cycleSpeed (getKey i KeyLeftShift) (globals w))).
  destruct (InvariantFacts.frame_after_input
              (fun g => currentSpeedIndex g = idx
                        /\ lastShiftState g = getKey i KeyLeftShift)
              ltac:(intros b g HQ; exact HQ)
              ltac:(intros sc g HQ; exact HQ)
              ltac:(intros d g HQ; exact HQ)
              program i w w' u E) as (g0 & EP & Hrest).
  apply processInput_fields in EP. destruct EP as (Hi & Hl & _).
  apply Hrest.
  - apply Forall_forall. intros [x y | k a |] _; cbn [dispatch].
    + apply InvariantFacts.maintains_update. intros g [Hq1 Hq2].
      destruct (mouseCallback_speed x y g) as [-> ->]. auto.
    + apply maintains_keyCallback.
    + apply InvariantFacts.maintains_act. reflexivity.
  - split; [|exact Hl]. rewrite Hi. unfold idx, cycleSpeed, clocked.
    cbn [set_lastFrame set_deltaTime lastShiftState currentSpeedIndex].
    destruct (Action_eqb _ Press && _); reflexivity.
Qed.

(** A frame that completes and receives cursor positions of finite height
    keeps the pitch between -89 and 89: the callback clamps it, and the
    reload resets it to -20. *)
Lemma frame_keeps_pitch (program : Z) (i : FrameInput) (w w' : World) (u : unit) :
  inRange (pitch (globals w)) -> isFinite (lastY (globals w)) = true ->
  Forall (fun e => match e with
                   | CursorPos _ ypos => isFinite ypos = true
                   | KeyEvent _ _ => True
                   | WindowClose => True
                   end) (events i) ->
  frame program i w = Some (u, w') ->
  inRange (pitch (globals w')) /\ isFinite (lastY (globals w')) = true.
Proof.
  intros Hp Hl Hev E.
  assert (inRange (int64_to64 (-20))) as H20 by (split; vm_compute; reflexivity).
  destruct (InvariantFacts.frame_after_input
              (fun g => inRange (pitch g) /\ isFinite (lastY g) = true)
              ltac:(intros b g [_ HQ]; split; [exact H20 | exact HQ])
              ltac:(intros sc g HQ; exact HQ)
              ltac:(intros d g HQ; exact HQ)
              program i w w' u E) as (g0 & EP & Hrest).
  apply processInput_fields in EP. destruct EP as (_ & _ & Hpitch & Hlast).
  apply Hrest.
  - apply Forall_forall. intros e He.
    pose proof (proj1 (Forall_forall _ _) Hev e He) as Hfin.
    destruct e as [x y | k a |]; cbn [dispatch].
    + apply InvariantFacts.maintains_update. intros g [Hq1 Hq2].
      now apply PitchFacts.mouseCallback_keeps_range.
    + apply maintains_keyCallback.
    + apply InvariantFacts.maintains_act. reflexivity.
  - rewrite Hpitch, Hlast. auto.
Qed.

End Frames.

End FrameInvariants.

(** ** The loader on any file *)

Module ParserFacts.
Import GoInt Float Mesh Spec Behaviour.

Section Parser.
Variable PF : string -> float64.

Lemma added_any (line : string) :
  added PF line = (lineVertices PF line, lineIndices line).
Proof.
  unfold added, scanLine, lineVertices, lineIndices, field, len.
  destruct (Strings.Fields line) as [|tok [|a [|b [|c rest]]]];
    cbn [List.length nth tl]; try reflexivity.
  all: destruct (String.eqb tok "v") eqn:Ev;
    [apply String.eqb_eq in Ev; rewrite Ev; change (String.eqb "v" "f") with false
    |destruct (String.eqb tok "f")]; cbn [andb]; try reflexivity.
  all: repeat match goal with
         | |- context [?n <? 4] => destruct (Z.ltb_spec n 4); try lia
         | |- context [3 <=? ?n] => destruct (Z.leb_spec 3 n); try lia
         | |- context [?n =? 0] => destruct (Z.eqb_spec n 0); try lia
         end; try reflexivity.
  all: now rewrite LoaderFacts.faceLoop_app.
Qed.

Lemma parseLines_any (lines : list string) :
  parseLines PF lines
  = (flat_map triple (flat_map (lineVertices PF) lines), flat_map lineIndices lines).
Proof.
  unfold parseLines. rewrite LoaderFacts.scan_app. cbn [app].
  rewrite LoaderFacts.flatten_flat_map. f_equal.
  - f_equal. induction lines as [|l ls IH]; cbn [flat_map]; [reflexivity|].
    now rewrite IH, added_any.
  - induction lines as [|l ls IH]; cbn [flat_map]; [reflexivity|].
    now rewrite IH, added_any.
Qed.

Lemma lineVertices_count (line : string) :
  len (flat_map triple (lineVertices PF line))
  = if isPosition line then 3 else 0.
Proof.
  unfold lineVertices, isPosition, isToken.
  destruct (Strings.Fields line) as [|tok [|a [|b [|c rest]]]]; try reflexivity.
  destruct (String.eqb tok "v"); reflexivity.
Qed.

Lemma vertices_count (lines : list string) :
  len (flat_map triple (flat_map (lineVertices PF) lines))
  = 3 * count isPosition lines.
Proof.
  unfold count.
  induction lines as [|l ls IH]; cbn [flat_map filter]; [reflexivity|].
  rewrite flat_map_app, LoaderFacts.len_app, IH, lineVertices_count.
  destruct (isPosition l); unfold len; cbn [List.length]; lia.
Qed.

Lemma flat_map_triple_app (l1 l2 : list Vertex) :
  flat_map triple (l1 ++ l2) = flat_map triple l1 ++ flat_map triple l2.
Proof. apply flat_map_app. Qed.

Lemma parseLines_app (l1 l2 : list string) :
  parseLines PF (l1 ++ l2)
  = (fst (parseLines PF l1) ++ fst (parseLines PF l2),
     snd (parseLines PF l1) ++ snd (parseLines PF l2)).
Proof. rewrite !parseLines_any. cbn [fst snd]. now rewrite !flat_map_app. Qed.

End Parser.
End ParserFacts.

(** X1.  Whatever the lines of a file that opens, [loadOBJFile] returns
    three floats for each [v] line with at least three fields after the
    token, in file order, and for each [f] line with at least three
    references one index per reference, in file order; every other line
    adds nothing.  The vertex buffer so holds three floats per position
    record, and the counts are what is logged. *)
Theorem loadOBJFile_any_file :
  forall (PF : string -> Float.float64)
         (openFile : string -> option (list string))
         (filename : string) (lines : list string),
    openFile filename = Some lines ->
    exists vertices indices,
      Mesh.loadOBJFile PF openFile filename
      = Some (vertices, indices,
              [Mesh.LogLoaded (Spec.count Spec.isPosition lines) (GoInt.len indices)])
      /\ vertices = flat_map Spec.triple (flat_map (Behaviour.lineVertices PF) lines)
      /\ indices = flat_map Behaviour.lineIndices lines
      /\ GoInt.len vertices = 3 * Spec.count Spec.isPosition lines.
Proof.
  intros PF openFile filename lines Hopen.
  unfold Mesh.loadOBJFile. rewrite Hopen, ParserFacts.parseLines_any.
  do 2 eexists. split; [|split; [reflexivity|split; [reflexivity|]]].
  - rewrite ParserFacts.vertices_count.
    replace (3 * Spec.count Spec.isPosition lines / 3)
      with (Spec.count Spec.isPosition lines); [reflexivity|].
    symmetry. rewrite Z.mul_comm. apply Z.div_mul. lia.
  - apply ParserFacts.vertices_count.
Qed.

Lemma loadOBJFile_any_file_witness :
  exists vertices indices,
    Mesh.loadOBJFile (@Collab.ParseFloat32 Double.host) (@Collab.openFile Double.host)
                     "triangle.obj"
    = Some (vertices, indices,
            [Mesh.LogLoaded (Spec.count Spec.isPosition Double.triangle_obj)
                            (GoInt.len indices)])
    /\ vertices = flat_map Spec.triple
                    (flat_map (Behaviour.lineVertices (@Collab.ParseFloat32 Double.host))
                              Double.triangle_obj)
    /\ indices = flat_map Behaviour.lineIndices Double.triangle_obj
    /\ GoInt.len vertices = 3 * Spec.count Spec.isPosition Double.triangle_obj.
Proof.
  apply (loadOBJFile_any_file (@Collab.ParseFloat32 Double.host)
                              (@Collab.openFile Double.host)
                              "triangle.obj" Double.triangle_obj).
  reflexivity.
Defined.

(** X2.  The buffers of a file are those of its first lines followed by
    those of the rest: no line changes what another adds, and a face
    refers to positions by number only, wherever they stand. *)
Theorem parseLines_concatenation :
  forall (PF : string -> Float.float64) (l1 l2 : list string),
    Mesh.parseLines PF (l1 ++ l2)
    = (fst (Mesh.parseLines PF l1) ++ fst (Mesh.parseLines PF l2),
       snd (Mesh.parseLines PF l1) ++ snd (Mesh.parseLines PF l2)).
Proof. intros PF l1 l2. apply ParserFacts.parseLines_app. Qed.

(** ** The references of a face *)

Module ReferenceFacts.
Import GoInt Strconv Strings Mesh Spec Behaviour.

Lemma splitFrom_prefix (p cur sfx : string) :
  noSlash p = true -> isTail sfx ->
  hd "" (splitFrom "/" cur (p ++ sfx)) = (cur ++ p)%string.
Proof.
  intros Hp Hs. revert cur Hp.
  induction p as [|c p IH]; intros cur Hp.
  - cbn [String.append]. rewrite FaceFacts.append_empty.
    destruct Hs as [-> | [rest ->]]; reflexivity.
  - cbn [noSlash] in Hp. apply andb_prop in Hp. destruct Hp as [Hc Hp].
    apply negb_true_iff in Hc.
    cbn [String.append splitFrom]. rewrite Hc, IH by assumption.
    apply FaceFacts.append_snoc.
Qed.

Lemma leading_prefix (p sfx : string) :
  noSlash p = true -> isTail sfx -> leading (p ++ sfx) = p.
Proof. intros. unfold leading, Split. now rewrite splitFrom_prefix. Qed.

Lemma leading_whole (p : string) : noSlash p = true -> leading p = p.
Proof.
  intros Hp. rewrite <- (FaceFacts.append_empty p) at 1.
  apply leading_prefix; [assumption | now left].
Qed.

Lemma noSlash_numeral (ds : list Z) : isDigits ds -> noSlash (numeral ds) = true.
Proof.
  induction 1 as [|d ds Hd _ IH]; [reflexivity|].
  cbn [numeral noSlash]. now rewrite (FaceFacts.digitChar_not_slash d Hd), IH.
Qed.

(** A decimal numeral after a minus sign reads as the negated value, down
    to the smallest [int]. *)
Lemma Atoi_negative (ds : list Z) :
  isDigits ds -> ds <> [] -> valueFrom 0 ds <= 9223372036854775808 ->
  Atoi (String "-" (numeral ds)) = (- valueFrom 0 ds, None).
Proof.
  intros Hds Hne Hv. destruct ds as [|d ds]; [contradiction|].
  unfold Atoi, ParseInt.
  change (Ascii.eqb "-" "-") with true. change (Ascii.eqb "-" "+") with false.
  cbn [orb negb andb]. unfold ParseUint. cbn [numeral].
  change (String (digitChar d) (numeral ds)) with (numeral (d :: ds)).
  rewrite AtoiFacts.parseUintLoop_numeral;
    [|assumption|lia|unfold maxUint64; lia].
  destruct (Z.ltb_spec 9223372036854775808 (valueFrom 0 (d :: ds))); [lia|].
  reflexivity.
Qed.

End ReferenceFacts.

(** X3.  A face field counts up to its first slash only: whatever follows
    the slash (texture and normal references, or anything else), the
    index is that of the leading component alone. *)
Theorem faceIndex_ignores_after_slash :
  forall (p rest : string),
    Behaviour.noSlash p = true ->
    Mesh.faceIndex (p ++ String "/" rest) = Mesh.faceIndex p.
Proof.
  intros p rest Hp.
  rewrite !LoaderFacts.faceIndex_reference. unfold Spec.reference.
  rewrite ReferenceFacts.leading_prefix, ReferenceFacts.leading_whole;
    [reflexivity | assumption | assumption | right; now exists rest].
Qed.

Lemma faceIndex_ignores_after_slash_witness :
  Mesh.faceIndex ("12" ++ String "/" "5/7") = Mesh.faceIndex "12".
Proof.
  apply (faceIndex_ignores_after_slash "12" "5/7"). reflexivity.
Defined.

(** X4.  A reference written as a decimal numeral n, from 1 up to the
    largest [int], gives the index n - 1 reduced modulo 2^32: n - 1 itself
    up to 2^32, and a wrapped index, without an error, beyond. *)
Theorem decimal_reference_index :
  forall (ds : list Z) (sfx : string),
    Spec.isDigits ds -> ds <> [] -> Spec.isTail sfx ->
    1 <= Spec.valueFrom 0 ds <= GoInt.maxInt64 ->
    Mesh.faceIndex (Spec.numeral ds ++ sfx)
    = (Spec.valueFrom 0 ds - 1) mod 4294967296
    /\ (Spec.valueFrom 0 ds <= 4294967296 ->
        Mesh.faceIndex (Spec.numeral ds ++ sfx) = Spec.valueFrom 0 ds - 1).
Proof.
  intros ds sfx Hds Hne Hs Hv.
  assert (Mesh.faceIndex (Spec.numeral ds ++ sfx)
          = (Spec.valueFrom 0 ds - 1) mod 4294967296) as E.
  { rewrite LoaderFacts.faceIndex_reference. unfold Spec.reference.
    rewrite FaceFacts.leading_numeral by assumption.
    rewrite AtoiFacts.Atoi_numeral by (auto; lia).
    reflexivity. }
  split; [exact E|].
  intros Hle. rewrite E. apply Z.mod_small. lia.
Qed.

Lemma decimal_reference_index_witness :
  Mesh.faceIndex (Spec.numeral [4; 2; 9; 4; 9; 6; 7; 2; 9; 8] ++ "/1")
  = (Spec.valueFrom 0 [4; 2; 9; 4; 9; 6; 7; 2; 9; 8] - 1) mod 4294967296
  /\ (Spec.valueFrom 0 [4; 2; 9; 4; 9; 6; 7; 2; 9; 8] <= 4294967296 ->
      Mesh.faceIndex (Spec.numeral [4; 2; 9; 4; 9; 6; 7; 2; 9; 8] ++ "/1")
      = Spec.valueFrom 0 [4; 2; 9; 4; 9; 6; 7; 2; 9; 8] - 1).
Proof.
  apply (decimal_reference_index [4; 2; 9; 4; 9; 6; 7; 2; 9; 8] "/1").
  - repeat constructor; lia.
  - discriminate.
  - right. now exists "1".
  - unfold GoInt.maxInt64. cbn. lia.
Defined.

(** X5.  A negative reference is not counted from the end of the vertex
    list: the field -n, for n written in decimal and below 2^32, gives
    the index 2^32 - 1 - n, so -1 gives 4294967294. *)
Theorem negative_reference_wraps :
  forall (ds : list Z) (sfx : string),
    Spec.isDigits ds -> ds <> [] -> Spec.isTail sfx ->
    Spec.valueFrom 0 ds < 4294967296 ->
    Mesh.faceIndex (String "-" (Spec.numeral ds) ++ sfx)
    = 4294967295 - Spec.valueFrom 0 ds.
Proof.
  intros ds sfx Hds Hne Hs Hv.
  pose proof (AtoiFacts.valueFrom_ge ds 0 Hds ltac:(lia)) as Hge.
  rewrite LoaderFacts.faceIndex_reference. unfold Spec.reference.
  rewrite ReferenceFacts.leading_prefix;
    [|cbn [Behaviour.noSlash]; now rewrite ReferenceFacts.noSlash_numeral
     |assumption].
  rewrite ReferenceFacts.Atoi_negative by (auto; lia).
  cbn [fst]. unfold GoInt.uint32.
  replace (- Spec.valueFrom 0 ds - 1)
    with (4294967295 - Spec.valueFrom 0 ds + (-1) * 4294967296) by lia.
  rewrite Z_mod_plus_full. apply Z.mod_small. lia.
Qed.

Lemma negative_reference_wraps_witness :
  Mesh.faceIndex (String "-" (Spec.numeral [1]) ++ "")
  = 4294967295 - Spec.valueFrom 0 [1].
Proof.
  apply (negative_reference_wraps [1] "").
  - repeat constructor; lia.
  - discriminate.
  - now left.
  - cbn. lia.
Defined.

(** ** The values of the formats *)

Module ValidFacts.
Import GoInt Float Spec.

Lemma digits2_pos_lower (m : positive) :
  2 ^ (Z.pos (digits2_pos m) - 1) <= Z.pos m.
Proof.
  induction m as [m IH | m IH |]; cbn [digits2_pos].
  - rewrite Pos2Z.inj_succ.
    replace (Z.succ (Z.pos (digits2_pos m)) - 1)
      with (Z.succ (Z.pos (digits2_pos m) - 1)) by lia.
    rewrite Z.pow_succ_r by lia. lia.
  - rewrite Pos2Z.inj_succ.
    replace (Z.succ (Z.pos (digits2_pos m)) - 1)
      with (Z.succ (Z.pos (digits2_pos m) - 1)) by lia.
    rewrite Z.pow_succ_r by lia. lia.
  - reflexivity.
Qed.

(** The number of digits of a positive number is the [d] with
    [2^(d-1) <= m < 2^d]. *)
Lemma Zdigits2_unique (m d : Z) :
  0 < d -> 2 ^ (d - 1) <= m < 2 ^ d -> Zdigits2 m = d.
Proof.
  intros Hd [Hlo Hhi].
  assert (0 < m) as Hm by (pose proof (Z.pow_pos_nonneg 2 (d - 1)); lia).
  destruct m as [|p|p]; try lia. cbn [Zdigits2].
  pose proof (digits2_pos_lower p) as Hl.
  pose proof (PacingFacts.digits2_pos_bound p) as Hu.
  set (k := Z.pos (digits2_pos p)) in *.
  assert (0 < k) as Hk by (unfold k; lia).
  destruct (Z.lt_trichotomy k d) as [Hlt | [Heq | Hgt]]; [|exact Heq|].
  - assert (2 ^ k <= 2 ^ (d - 1)) by (apply Z.pow_le_mono_r; lia). lia.
  - assert (2 ^ d <= 2 ^ (k - 1)) by (apply Z.pow_le_mono_r; lia). lia.
Qed.

Lemma Zdigits2_bounds (m : Z) :
  0 < m -> 2 ^ (Zdigits2 m - 1) <= m < 2 ^ Zdigits2 m.
Proof.
  destruct m as [|p|p]; try lia. intros _. cbn [Zdigits2].
  split; [apply digits2_pos_lower | apply PacingFacts.digits2_pos_bound].
Qed.

Lemma Zdigits2_nonneg (m : Z) : 0 <= Zdigits2 m.
Proof. destruct m; cbn; lia. Qed.

Lemma Zdigits2_positive (m : Z) : 0 < m -> 0 < Zdigits2 m.
Proof. destruct m; cbn; lia. Qed.

Lemma Zdigits2_le (a b : Z) : 0 <= a <= b -> Zdigits2 a <= Zdigits2 b.
Proof.
  intros [Ha Hab].
  destruct (Z.eq_dec a 0) as [-> | Hne]; [apply Zdigits2_nonneg|].
  pose proof (Zdigits2_bounds a ltac:(lia)) as [Hla _].
  pose proof (Zdigits2_bounds b ltac:(lia)) as [_ Hub].
  destruct (Z.le_gt_cases (Zdigits2 a) (Zdigits2 b)) as [Hle | Hgt]; [exact Hle|].
  assert (2 ^ Zdigits2 b <= 2 ^ (Zdigits2 a - 1)).
  { apply Z.pow_le_mono_r; [lia|]. lia. }
  lia.
Qed.

(** The digits left after a shift to the right. *)
Lemma Zdigits2_shifted (m n : Z) :
  0 <= m -> 0 <= n -> 0 < m / 2 ^ n ->
  Zdigits2 (m / 2 ^ n) = Zdigits2 m - n.
Proof.
  intros Hm Hn Hq.
  assert (0 < 2 ^ n) as Hp by (apply Z.pow_pos_nonneg; lia).
  assert (0 < m) as Hm'.
  { destruct (Z.eq_dec m 0) as [-> | ]; [|lia]. rewrite Z.div_0_l in Hq; lia. }
  pose proof (Zdigits2_bounds m Hm') as [Hlo Hhi].
  set (d := Zdigits2 m) in *.
  assert (n < d) as Hnd.
  { destruct (Z.lt_ge_cases n d) as [H|H]; [exact H|].
    assert (2 ^ d <= 2 ^ n) by (apply Z.pow_le_mono_r; lia).
    rewrite Z.div_small in Hq by lia. lia. }
  apply Zdigits2_unique; [lia|]. split.
  - apply Z.div_le_lower_bound; [lia|].
    rewrite <- Z.pow_add_r by lia. replace (n + (d - n - 1)) with (d - 1) by lia.
    exact Hlo.
  - apply Z.div_lt_upper_bound; [lia|].
    rewrite <- Z.pow_add_r by lia. replace (n + (d - n)) with d by lia.
    exact Hhi.
Qed.

Lemma shr_1_half (mrs : shr_record) :
  0 <= shr_m mrs -> shr_m (shr_1 mrs) = shr_m mrs / 2.
Proof.
  destruct mrs as [m r s]. cbn [shr_m]. intros Hm.
  destruct m as [|[p|p|]|p]; try lia; cbn [shr_1 shr_m].
  all: try reflexivity.
  - apply Z.div_unique with (r := 1); lia.
  - apply Z.div_unique with (r := 0); lia.
Qed.

Lemma iter_shr_1_shifted (p : positive) (mrs : shr_record) :
  0 <= shr_m mrs ->
  shr_m (iter_pos shr_1 p mrs) = shr_m mrs / 2 ^ Z.pos p.
Proof.
  intros Hm. rewrite WidenFacts.iter_pos_iter.
  induction p as [|p IH] using Pos.peano_ind.
  - cbn [Pos.iter]. rewrite shr_1_half by assumption. reflexivity.
  - rewrite Pos.iter_succ, shr_1_half.
    + rewrite IH, Pos2Z.inj_succ, Z.pow_succ_r by lia.
      rewrite Z.div_div by (try apply Z.pow_pos_nonneg; lia).
      f_equal. lia.
    + rewrite IH. apply Z.div_pos; [assumption|]. apply Z.pow_pos_nonneg; lia.
Qed.

Section Format.
Variables prec emax : Z.

Lemma fexp_mono (a b : Z) : a <= b -> fexp prec emax a <= fexp prec emax b.
Proof. unfold fexp. lia. Qed.

(** One shift to the exponent of the format. *)
Lemma shr_fexp_shifted (m e : Z) (l : location) :
  0 <= m -> e <= fexp prec emax (Zdigits2 m + e) ->
  snd (shr_fexp prec emax m e l) = fexp prec emax (Zdigits2 m + e)
  /\ shr_m (fst (shr_fexp prec emax m e l))
     = m / 2 ^ (fexp prec emax (Zdigits2 m + e) - e).
Proof.
  intros Hm He. unfold shr_fexp, shr.
  assert (shr_m (shr_record_of_loc m l) = m) as Hrec
      by (destruct l as [|[| |]]; reflexivity).
  destruct (fexp prec emax (Zdigits2 m + e) - e) as [|p|p] eqn:En; try lia;
    cbn [fst snd].
  - split; [lia|]. rewrite Hrec, Z.pow_0_r, Z.div_1_r. reflexivity.
  - split; [lia|]. rewrite iter_shr_1_shifted by (rewrite Hrec; exact Hm).
    now rewrite Hrec.
Qed.

Lemma round_nearest_even_bounds (m : Z) (l : location) :
  m <= round_nearest_even m l <= m + 1.
Proof.
  unfold round_nearest_even. destruct l as [|[| |]]; try lia.
  destruct (Z.even m); lia.
Qed.

(** Rounding gives a value of the format. *)
Lemma binary_round_aux_valid (s : bool) (m e : Z) (l : location) :
  0 <= m -> e <= fexp prec emax (Zdigits2 m + e) ->
  valid_binary prec emax (binary_round_aux prec emax s m e l) = true.
Proof.
  intros Hm He. unfold binary_round_aux.
  destruct (shr_fexp_shifted m e l Hm He) as [He1 Hm1].
  destruct (shr_fexp prec emax m e l) as [mrs1 e1]. cbn [fst snd] in He1, Hm1.
  set (m1 := shr_m mrs1) in *.
  set (n := fexp prec emax (Zdigits2 m + e) - e) in *.
  assert (0 <= n) as Hn by (unfold n; lia).
  assert (0 < 2 ^ n) as Hp by (apply Z.pow_pos_nonneg; lia).
  assert (0 <= m1) as Hm1pos by (rewrite Hm1; apply Z.div_pos; lia).
  set (r := round_nearest_even m1 (loc_of_shr_record mrs1)).
  pose proof (round_nearest_even_bounds m1 (loc_of_shr_record mrs1)) as Hr.
  fold r in Hr.
  assert (Zdigits2 m + e - e1 <= Zdigits2 r) as Hd.
  { destruct (Z.eq_dec m1 0) as [Hz | Hnz].
    - (* everything was shifted out *)
      pose proof (Zdigits2_nonneg r).
      destruct (Z.eq_dec m 0) as [-> | Hmz]; [cbn [Zdigits2]; lia|].
      pose proof (Zdigits2_bounds m ltac:(lia)) as [Hlo _].
      destruct (Z.le_gt_cases (Zdigits2 m) n) as [Hle | Hgt]; [lia|].
      assert (2 ^ n <= 2 ^ (Zdigits2 m - 1)) by (apply Z.pow_le_mono_r; lia).
      assert (1 <= m / 2 ^ n) by (apply Z.div_le_lower_bound; lia).
      lia.
    - pose proof (Zdigits2_shifted m n Hm Hn ltac:(rewrite <- Hm1; lia)) as Hs.
      rewrite <- Hm1 in Hs.
      pose proof (Zdigits2_le m1 r ltac:(lia)). lia. }
  assert (e1 <= fexp prec emax (Zdigits2 r + e1)) as He2.
  { rewrite He1 at 1. apply fexp_mono. lia. }
  destruct (shr_fexp_shifted r e1 loc_Exact ltac:(lia) He2) as [He3 Hm3].
  destruct (shr_fexp prec emax r e1 loc_Exact) as [mrs2 e2].
  cbn [fst snd] in He3, Hm3.
  destruct (shr_m mrs2) as [|p|p] eqn:Em2; [reflexivity| |reflexivity].
  destruct (e2 <=? emax - prec) eqn:Eb; [|reflexivity].
  cbn [valid_binary]. unfold bounded, canonical_mantissa. rewrite Eb, andb_true_r.
  apply Z.eqb_eq.
  pose proof (Zdigits2_shifted r (e2 - e1) ltac:(lia) ltac:(lia)) as Hs.
  rewrite <- He3 in Hm3. rewrite <- Hm3 in Hs. specialize (Hs ltac:(lia)).
  cbn [Zdigits2] in Hs. rewrite Hs.
  replace (Zdigits2 r - (e2 - e1) + e2) with (Zdigits2 r + e1) by lia.
  symmetry. exact He3.
Qed.

Lemma binary_round_valid (s : bool) (m : positive) (e : Z) :
  valid_binary prec emax (binary_round prec emax s m e) = true.
Proof.
  unfold binary_round, shl_align.
  destruct (fexp prec emax (Z.pos (digits2_pos m) + e) - e) as [|d|d] eqn:En.
  - apply binary_round_aux_valid; [lia|]. cbn [Zdigits2]. lia.
  - apply binary_round_aux_valid; [lia|]. cbn [Zdigits2]. lia.
  - apply binary_round_aux_valid; [lia|]. cbn [Zdigits2].
    rewrite WidenFacts.digits_shifted.
    replace (Z.pos (digits2_pos m + d)
             + fexp prec emax (Z.pos (digits2_pos m) + e))
      with (Z.pos (digits2_pos m) + e) by lia.
    lia.
Qed.

Lemma binary_normalize_valid (m e : Z) (szero : bool) :
  valid_binary prec emax (binary_normalize prec emax m e szero) = true.
Proof.
  destruct m as [|p|p]; cbn [binary_normalize];
    [reflexivity | apply binary_round_valid | apply binary_round_valid].
Qed.

Lemma SFsub_valid (x y : spec_float) :
  valid_binary prec emax x = true -> valid_binary prec emax y = true ->
  valid_binary prec emax (SFsub prec emax x y) = true.
Proof.
  destruct x as [sx|sx| |sx mx ex], y as [sy|sy| |sy my ey]; intros Hx Hy;
    cbn [SFsub]; try reflexivity; try assumption.
  - destruct sx, sy; reflexivity.
  - destruct sx, sy; reflexivity.
  - apply binary_normalize_valid.
Qed.

End Format.

(** The conversions give values of their formats. *)
Lemma to32_valid (x : float64) : valid_binary 24 128 (to32 x) = true.
Proof.
  destruct x as [s|s| |s m e]; try reflexivity. apply binary_round_valid.
Qed.

Lemma to64_valid (x : float32) : valid_binary 53 1024 (to64 x) = true.
Proof.
  destruct x as [s|s| |s m e]; try reflexivity. apply binary_round_valid.
Qed.

End ValidFacts.

(** ** The order of the numbers and [calculateBounds] *)


Module OrderFacts.
Import GoInt Float Mesh Spec Behaviour.

Lemma leb_rankNum (x y : spec_float) :
  isNaN x = false -> isNaN y = false ->
  (leb x y = true <-> lexle (rankNum x) (rankNum y)).
Proof.
  destruct x as [[|]|[|]| |[|] m e], y as [[|]|[|]| |[|] m' e'];
    try discriminate; intros _ _; unfold leb, SFleb, SFcompare;
    cbn [rankNum rank lexle]; try (split; [intros _; lia | reflexivity]);
    try (split; [discriminate | lia]).
  all: change (Pos.compare_cont Eq m m') with (Pos.compare m m').
  all: try change (Pos.compare_cont Eq m' m) with (Pos.compare m' m).
  all: destruct (Z.compare_spec e e'); cbn [CompOpp];
    try (split; [intros _; lia | reflexivity]);
    try (split; [discriminate | lia]).
  all: destruct (Pos.compare_spec m m'); cbn [CompOpp];
    try (split; [intros _; lia | reflexivity]);
    try (split; [discriminate | lia]).
Qed.

Lemma rankNum_mono (x y : spec_float) :
  lexle (rank x) (rank y) -> lexle (rankNum x) (rankNum y).
Proof.
  destruct x as [[|]|[|]| |[|] m e], y as [[|]|[|]| |[|] m' e'];
    cbn [rankNum rank lexle]; lia.
Qed.

Lemma leb_refl (x : spec_float) : isNaN x = false -> leb x x = true.
Proof.
  intros Hx. apply leb_rankNum; [assumption..|].
  destruct (rankNum x) as [[a b] c]. cbn. lia.
Qed.

Lemma leb_trans (x y z : spec_float) :
  isNaN x = false -> isNaN y = false -> isNaN z = false ->
  leb x y = true -> leb y z = true -> leb x z = true.
Proof.
  intros Hx Hy Hz Hxy Hyz.
  apply leb_rankNum in Hxy; [|assumption..].
  apply leb_rankNum in Hyz; [|assumption..].
  apply leb_rankNum; [assumption..|].
  eapply BoundsFacts.lexle_trans; eassumption.
Qed.

Lemma rankMin_number (x : spec_float) : isNaN x = false -> rankMin x = rank x.
Proof. destruct x; try discriminate; reflexivity. Qed.

Lemma rankMax_number (x : spec_float) : isNaN x = false -> rankMax x = rank x.
Proof. destruct x; try discriminate; reflexivity. Qed.

(** [math.Min] of two numbers is one of them, and at most each. *)
Lemma Min_number (x y : float64) :
  isNaN x = false -> isNaN y = false ->
  (Min x y = x \/ Min x y = y)
  /\ leb (Min x y) x = true /\ leb (Min x y) y = true.
Proof.
  intros Hx Hy.
  destruct (BoundsFacts.lexle_total (rank x) (rank y)) as [Hle | Hle].
  - rewrite BoundsFacts.Min_lesser
      by (now rewrite !rankMin_number by assumption).
    repeat split; [now left | now apply leb_refl |].
    apply leb_rankNum; [assumption..|]. now apply rankNum_mono.
  - rewrite BoundsFacts.Min_greater
      by (now rewrite !rankMin_number by assumption).
    repeat split; [now right | | now apply leb_refl].
    apply leb_rankNum; [assumption..|]. now apply rankNum_mono.
Qed.

Lemma Max_number (x y : float64) :
  isNaN x = false -> isNaN y = false ->
  (Max x y = x \/ Max x y = y)
  /\ leb x (Max x y) = true /\ leb y (Max x y) = true.
Proof.
  intros Hx Hy.
  destruct (BoundsFacts.lexle_total (rank x) (rank y)) as [Hle | Hle].
  - rewrite BoundsFacts.Max_lesser
      by (now rewrite !rankMax_number by assumption).
    repeat split; [now right | | now apply leb_refl].
    apply leb_rankNum; [assumption..|]. now apply rankNum_mono.
  - rewrite BoundsFacts.Max_greater
      by (now rewrite !rankMax_number by assumption).
    repeat split; [now left | now apply leb_refl |].
    apply leb_rankNum; [assumption..|]. now apply rankNum_mono.
Qed.

Lemma to64_number (x : float32) : isNaN (to64 x) = isNaN x.
Proof.
  destruct x as [s|s| |s m e]; try reflexivity.
  apply FloatFacts.binary_round_not_nan.
Qed.

Lemma le32_refl (x : float32) : isNumber x -> le32 x x.
Proof. intros [_ Hx]. apply leb_refl. now rewrite to64_number. Qed.

Lemma le32_trans (x y z : float32) :
  isNumber x -> isNumber y -> isNumber z -> le32 x y -> le32 y z -> le32 x z.
Proof.
  intros [_ Hx] [_ Hy] [_ Hz]. apply leb_trans; now rewrite to64_number.
Qed.

(** [min32] of two numbers: one of the two, and at most each. *)
Lemma min32_number (a b : float32) :
  isNumber a -> isNumber b ->
  (min32 a b = a \/ min32 a b = b)
  /\ le32 (min32 a b) a /\ le32 (min32 a b) b.
Proof.
  intros [Va Ha] [Vb Hb].
  pose proof (WidenFacts.valid_exact32 a Va) as Ea.
  pose proof (WidenFacts.valid_exact32 b Vb) as Eb.
  destruct (Min_number (to64 a) (to64 b)) as (_ & H1 & H2);
    [now rewrite to64_number..|].
  unfold le32. rewrite BoundsFacts.to64_min32 by assumption.
  repeat split; [now apply BoundsFacts.min32_select | assumption..].
Qed.

Lemma max32_number (a b : float32) :
  isNumber a -> isNumber b ->
  (max32 a b = a \/ max32 a b = b)
  /\ le32 a (max32 a b) /\ le32 b (max32 a b).
Proof.
  intros [Va Ha] [Vb Hb].
  pose proof (WidenFacts.valid_exact32 a Va) as Ea.
  pose proof (WidenFacts.valid_exact32 b Vb) as Eb.
  destruct (Max_number (to64 a) (to64 b)) as (_ & H1 & H2);
    [now rewrite to64_number..|].
  unfold le32. rewrite BoundsFacts.to64_max32 by assumption.
  repeat split; [now apply BoundsFacts.max32_select | assumption..].
Qed.

Lemma min32_isNumber (a b : float32) :
  isNumber a -> isNumber b -> isNumber (min32 a b).
Proof.
  intros Ha Hb. destruct (min32_number a b Ha Hb) as ([-> | ->] & _); assumption.
Qed.

Lemma max32_isNumber (a b : float32) :
  isNumber a -> isNumber b -> isNumber (max32 a b).
Proof.
  intros Ha Hb. destruct (max32_number a b Ha Hb) as ([-> | ->] & _); assumption.
Qed.

End OrderFacts.


Module CalculateFacts.
Import GoInt Float Mesh Spec Behaviour OrderFacts.

(** Lists taken three elements at a time. *)
Lemma by_threes {A} (P : list A -> Prop) :
  P [] -> (forall x, P [x]) -> (forall x y, P [x; y]) ->
  (forall x y z rest, P rest -> P (x :: y :: z :: rest)) ->
  forall l, P l.
Proof.
  intros H0 H1 H2 H3 l.
  assert (P l /\ (forall x, P (x :: l)) /\ (forall x y, P (x :: y :: l)))
    as (Hl & _ & _); [|exact Hl].
  induction l as [|a l (IH0 & IH1 & IH2)]; [auto|].
  repeat split; auto.
Qed.

Lemma boundsLoop_completes (vertices : list float32) (b : Bounds) :
  boundsLoop vertices b <> None <-> len vertices mod 3 = 0.
Proof.
  revert b. induction vertices as [|x|x y|x y z rest IH] using by_threes;
    intros b; cbn [boundsLoop].
  - split; [reflexivity | discriminate].
  - split; [intros Hc; now contradiction Hc | discriminate].
  - split; [intros Hc; now contradiction Hc | discriminate].
  - rewrite IH. unfold len. cbn [List.length].
    replace (Z.of_nat (S (S (S (List.length rest)))))
      with (Z.of_nat (List.length rest) + 1 * 3) by lia.
    now rewrite Z_mod_plus_full.
Qed.

Lemma calculateBounds_completes (vertices : list float32) :
  calculateBounds vertices <> None
  <-> 0 < len vertices /\ len vertices mod 3 = 0.
Proof.
  unfold calculateBounds.
  destruct vertices as [|v0 [|v1 [|v2 rest]]].
  - split; [intros Hc; now contradiction Hc | unfold len; cbn; lia].
  - split; [intros Hc; now contradiction Hc | intros [_ Hc]; discriminate Hc].
  - split; [intros Hc; now contradiction Hc | intros [_ Hc]; discriminate Hc].
  - pose proof (boundsLoop_completes (v0 :: v1 :: v2 :: rest)
                  (mkBounds v0 v1 v2 v0 v1 v2)) as Hl.
    destruct (boundsLoop _ _) as [b|].
    + split; [intros _ | discriminate].
      split; [unfold len; cbn [List.length]; lia | apply Hl; discriminate].
    + split; [intros Hc; now contradiction Hc|].
      intros [_ Hm]. apply Hl in Hm. now contradiction Hm.
Qed.

(** The loop over the floats of whole vertices. *)
Lemma boundsLoop_vertices (vs : list Vertex) (b : Bounds) :
  boundsLoop (flat_map triple vs) b
  = Some (fold_left grow vs b).
Proof.
  revert b. induction vs as [|[[x y] z] vs IH]; intros b; [reflexivity|].
  cbn [flat_map triple app boundsLoop fold_left]. apply IH.
Qed.

Lemma holds_grow (b : Bounds) (v w : Vertex) :
  numberBounds b -> numberVertex v -> numberVertex w ->
  holds b w -> holds (grow b v) w.
Proof.
  destruct v as [[x y] z], w as [[wx wy] wz].
  intros (N1 & N2 & N3 & N4 & N5 & N6) (Nx & Ny & Nz) (Mx & My & Mz)
         (H1 & H2 & H3 & H4 & H5 & H6).
  cbn [grow growBounds holds minX minY minZ maxX maxY maxZ].
  repeat split.
  - apply (le32_trans _ (minX b)); auto using min32_isNumber.
    now apply min32_number.
  - apply (le32_trans _ (maxX b)); auto using max32_isNumber.
    now apply max32_number.
  - apply (le32_trans _ (minY b)); auto using min32_isNumber.
    now apply min32_number.
  - apply (le32_trans _ (maxY b)); auto using max32_isNumber.
    now apply max32_number.
  - apply (le32_trans _ (minZ b)); auto using min32_isNumber.
    now apply min32_number.
  - apply (le32_trans _ (maxZ b)); auto using max32_isNumber.
    now apply max32_number.
Qed.

Lemma holds_grown (b : Bounds) (v : Vertex) :
  numberBounds b -> numberVertex v -> holds (grow b v) v.
Proof.
  destruct v as [[x y] z].
  intros (N1 & N2 & N3 & N4 & N5 & N6) (Nx & Ny & Nz).
  cbn [grow growBounds holds minX minY minZ maxX maxY maxZ].
  repeat split; first [now apply min32_number | now apply max32_number].
Qed.

Lemma number_grow (b : Bounds) (v : Vertex) :
  numberBounds b -> numberVertex v -> numberBounds (grow b v).
Proof.
  destruct v as [[x y] z].
  intros (N1 & N2 & N3 & N4 & N5 & N6) (Nx & Ny & Nz).
  cbn [grow growBounds]. unfold numberBounds.
  cbn [minX minY minZ maxX maxY maxZ].
  repeat split; first [now apply min32_isNumber | now apply max32_isNumber].
Qed.

Lemma In_grown {f : Vertex -> float32} (seen : list Vertex) (v : Vertex)
      (old new : float32) :
  In old (map f seen) -> new = old \/ new = f v ->
  In new (map f (seen ++ [v])).
Proof.
  intros Hin [-> | ->]; rewrite map_app; apply in_or_app;
    [now left | right; now left].
Qed.

Lemma tight_grow (b : Bounds) (seen : list Vertex) (v : Vertex) :
  Forall numberVertex seen -> numberVertex v ->
  tight b seen -> tight (grow b v) (seen ++ [v]).
Proof.
  intros Hseen Hv (Hn & Hh & I1 & I2 & I3 & I4 & I5 & I6).
  split; [now apply number_grow|].
  split.
  { apply Forall_app. split.
    - apply Forall_forall. intros w Hw.
      apply holds_grow; auto.
      + exact (proj1 (Forall_forall _ _) Hseen w Hw).
      + exact (proj1 (Forall_forall _ _) Hh w Hw).
    - constructor; [|constructor]. now apply holds_grown. }
  destruct v as [[x y] z].
  destruct Hn as (N1 & N2 & N3 & N4 & N5 & N6), Hv as (Nx & Ny & Nz).
  cbn [grow growBounds minX minY minZ maxX maxY maxZ].
  repeat split.
  - eapply In_grown; [exact I1 | now apply min32_number].
  - eapply In_grown; [exact I2 | now apply max32_number].
  - eapply In_grown; [exact I3 | now apply min32_number].
  - eapply In_grown; [exact I4 | now apply max32_number].
  - eapply In_grown; [exact I5 | now apply min32_number].
  - eapply In_grown; [exact I6 | now apply max32_number].
Qed.

Lemma In_widen {A} (x : A) (seen rest : list A) :
  In x seen -> In x (seen ++ rest).
Proof. intros. apply in_or_app. now left. Qed.

Lemma tight_loop (vs seen : list Vertex) (b : Bounds) :
  Forall numberVertex seen -> Forall numberVertex vs ->
  tight b seen -> tight (fold_left grow vs b) (seen ++ vs).
Proof.
  revert seen b. induction vs as [|v vs IH]; intros seen b Hseen Hvs Ht.
  - now rewrite app_nil_r.
  - cbn [fold_left].
    replace (seen ++ v :: vs) with ((seen ++ [v]) ++ vs)
      by now rewrite <- app_assoc.
    apply IH.
    + apply Forall_app. split; [assumption|].
      constructor; [exact (Forall_inv Hvs) | constructor].
    + exact (Forall_inv_tail Hvs).
    + apply tight_grow; [assumption | exact (Forall_inv Hvs) | assumption].
Qed.

(** The bounds of [calculateBounds] for a first vertex and the others. *)
Lemma calculateBounds_vertices (v : Vertex) (vs : list Vertex) :
  calculateBounds (flat_map triple (v :: vs))
  = let '(x, y, z) := v in
    let b := fold_left grow (v :: vs) (mkBounds x y z x y z) in
    Some (b, [LogBounds b]).
Proof.
  destruct v as [[x y] z]. unfold calculateBounds.
  cbn [flat_map triple app boundsLoop fold_left grow].
  now rewrite boundsLoop_vertices.
Qed.

Lemma tight_calculateBounds (v : Vertex) (vs : list Vertex) :
  Forall numberVertex (v :: vs) ->
  exists b, calculateBounds (flat_map triple (v :: vs)) = Some (b, [LogBounds b])
            /\ tight b (v :: vs).
Proof.
  intros Hvs. rewrite calculateBounds_vertices.
  destruct v as [[x y] z]. eexists. split; [reflexivity|].
  pose proof (Forall_inv Hvs) as (Nx & Ny & Nz).
  cbn [fold_left].
  apply (tight_loop vs [(x, y, z)]).
  - constructor; [exact (Forall_inv Hvs) | constructor].
  - exact (Forall_inv_tail Hvs).
  - assert (tight (mkBounds x y z x y z) [(x, y, z)]) as Ht.
    { split; [repeat split; try apply Nx; try apply Ny; apply Nz|].
      split; [|cbn; tauto].
      constructor; [|constructor].
      cbn [holds minX minY minZ maxX maxY maxZ].
      repeat split; now apply le32_refl. }
    pose proof (tight_grow _ [(x, y, z)] (x, y, z)
                  ltac:(constructor; [exact (Forall_inv Hvs) | constructor])
                  (Forall_inv Hvs) Ht) as Hg.
    destruct Hg as (Hn & Hh & I1 & I2 & I3 & I4 & I5 & I6).
    split; [exact Hn|]. split; [exact (Forall_inv_tail Hh) |].
    cbn [map app In] in *. tauto.
Qed.

End CalculateFacts.

(** X6.  [calculateBounds] completes exactly on a buffer of whole
    vertices with at least one: on an empty buffer, and on one whose
    length is not a multiple of three, an index goes out of range. *)
Theorem calculateBounds_domain :
  forall (vertices : list Float.float32),
    Mesh.calculateBounds vertices <> None
    <-> 0 < GoInt.len vertices /\ GoInt.len vertices mod 3 = 0.
Proof. apply CalculateFacts.calculateBounds_completes. Qed.

(** X7.  For vertices whose coordinates are numbers, the bounds hold
    every vertex, and each of the six bounds is the coordinate of some
    vertex on its axis. *)
Theorem calculateBounds_tight :
  forall (v : Mesh.Vertex) (vs : list Mesh.Vertex),
    Forall Behaviour.numberVertex (v :: vs) ->
    exists b,
      Mesh.calculateBounds (flat_map Spec.triple (v :: vs))
      = Some (b, [Mesh.LogBounds b])
      /\ Forall (Behaviour.holds b) (v :: vs)
      /\ In (Mesh.minX b) (map Behaviour.xOf (v :: vs))
      /\ In (Mesh.maxX b) (map Behaviour.xOf (v :: vs))
      /\ In (Mesh.minY b) (map Behaviour.yOf (v :: vs))
      /\ In (Mesh.maxY b) (map Behaviour.yOf (v :: vs))
      /\ In (Mesh.minZ b) (map Behaviour.zOf (v :: vs))
      /\ In (Mesh.maxZ b) (map Behaviour.zOf (v :: vs)).
Proof.
  intros v vs Hvs.
  destruct (CalculateFacts.tight_calculateBounds v vs Hvs) as (b & E & _ & Ht).
  exists b. split; [exact E | exact Ht].
Qed.

Lemma calculateBounds_tight_witness :
  exists b,
    Mesh.calculateBounds
      (flat_map Spec.triple
         [(Float.int_to32 0, Float.int_to32 0, Float.int_to32 0);
          (Float.int_to32 2, Float.int_to32 4, Float.int_to32 (-2))])
    = Some (b, [Mesh.LogBounds b])
    /\ Forall (Behaviour.holds b)
         [(Float.int_to32 0, Float.int_to32 0, Float.int_to32 0);
          (Float.int_to32 2, Float.int_to32 4, Float.int_to32 (-2))].
Proof.
  destruct (calculateBounds_tight
              (Float.int_to32 0, Float.int_to32 0, Float.int_to32 0)
              [(Float.int_to32 2, Float.int_to32 4, Float.int_to32 (-2))])
    as (b & E & Hh & _).
  - repeat constructor.
  - exists b. split; [exact E | exact Hh].
Defined.

(** ** Commands that complete, and what they leave alone *)


Module RunFacts.
Import GoInt Float Mesh Collab Viewer Spec Behaviour.

Section Run.
Context {M : Mgl32} {H : Host} {G : GLDriver}.

Lemma total_ret {A} (a : A) : total (ret a).
Proof. intros w. now exists a, w. Qed.

Lemma total_act (f : World -> World) : total (act f).
Proof. intros w. now exists tt, (f w). Qed.

Lemma total_read {A} (f : World -> A) : total (read f).
Proof. intros w. now exists (f w), w. Qed.

Lemma total_bind {A B} (c : Cmd A) (k : A -> Cmd B) :
  total c -> (forall a, total (k a)) -> total (bind c k).
Proof.
  intros Hc Hk w. destruct (Hc w) as (a & w1 & E).
  destruct (Hk a w1) as (b & w2 & E2).
  exists b, w2. unfold bind. now rewrite E.
Qed.

Lemma total_lift_bind {A B} (a : A) (k : A -> Cmd B) :
  total (k a) -> total (bind (lift (Some a)) k).
Proof. intros Hk w. exact (Hk w). Qed.

Lemma total_genVertexArrays : total genVertexArrays.
Proof.
  intros w. unfold genVertexArrays.
  destruct (GenVertexArrays (gl w)) as [name s]. now eexists _, _.
Qed.

Lemma total_genBuffers : total genBuffers.
Proof.
  intros w. unfold genBuffers.
  destruct (GenBuffers (gl w)) as [name s]. now eexists _, _.
Qed.

Lemma total_forEach {A} (l : list A) (body : A -> Cmd unit) :
  (forall a, total (body a)) -> total (forEach l body).
Proof.
  intros Hb. induction l as [|a l IH]; cbn [forEach].
  - apply total_ret.
  - apply total_bind; [apply Hb | intros _; exact IH].
Qed.

Lemma total_when (b : bool) (c : Cmd unit) : total c -> total (when b c).
Proof. intros Hc. destruct b; [exact Hc | apply total_ret]. Qed.

Lemma returns_ret {A} (P : A -> Prop) (a : A) : P a -> returns P (ret a).
Proof. intros HP w a' w' [= <- _]. exact HP. Qed.

Lemma returns_bind {A B} (P : B -> Prop) (c : Cmd A) (k : A -> Cmd B) :
  (forall a, returns P (k a)) -> returns P (bind c k).
Proof.
  intros Hk w b w'. unfold bind.
  destruct (c w) as [[a w1]|]; [|discriminate]. apply (Hk a).
Qed.

Lemma returns_lift_bind {A B} (P : B -> Prop) (a : A) (k : A -> Cmd B) :
  returns P (k a) -> returns P (bind (lift (Some a)) k).
Proof. intros Hk w. exact (Hk w). Qed.

(** Observations of the state that a command leaves alone. *)
Section Keeps.
Context {X : Type}.
Variable obs : World -> X.

Lemma keeps_ret {A} (a : A) : keeps obs (ret a).
Proof. intros w a' w' [= _ <-]. reflexivity. Qed.

Lemma keeps_exit {A} : keeps obs (@exit _ _ A).
Proof. intros w a w' E. discriminate E. Qed.

Lemma keeps_lift {A} (o : option A) : keeps obs (lift o).
Proof.
  intros w a w'. unfold lift. destruct o; [|discriminate].
  intros [= _ <-]. reflexivity.
Qed.

Lemma keeps_read {A} (f : World -> A) : keeps obs (read f).
Proof. intros w a w' [= _ <-]. reflexivity. Qed.

Lemma keeps_bind {A B} (c : Cmd A) (k : A -> Cmd B) :
  keeps obs c -> (forall a, keeps obs (k a)) -> keeps obs (bind c k).
Proof.
  intros Hc Hk w b w'. unfold bind.
  destruct (c w) as [[a w1]|] eqn:E; [|discriminate].
  intros E2. rewrite (Hk a _ _ _ E2). exact (Hc _ _ _ E).
Qed.

Lemma keeps_act (f : World -> World) :
  (forall w, obs (f w) = obs w) -> keeps obs (act f).
Proof. intros Hf w a w' [= _ <-]. apply Hf. Qed.

Lemma keeps_forEach {A} (l : list A) (body : A -> Cmd unit) :
  Forall (fun a => keeps obs (body a)) l -> keeps obs (forEach l body).
Proof.
  intros Hb. induction Hb as [|a l Ha _ IH]; cbn [forEach].
  - apply keeps_ret.
  - apply keeps_bind; [exact Ha | intros _; exact IH].
Qed.

(** An observation of what is neither the driver, the log nor the
    variables. *)
Hypothesis obs_gl : forall f w, obs (with_gl f w) = obs w.
Hypothesis obs_logged : forall f w, obs (with_logged f w) = obs w.

Lemma keeps_genVertexArrays : keeps obs genVertexArrays.
Proof.
  intros w a w'. unfold genVertexArrays.
  destruct (GenVertexArrays (gl w)). intros [= _ <-]. apply obs_gl.
Qed.

Lemma keeps_genBuffers : keeps obs genBuffers.
Proof.
  intros w a w'. unfold genBuffers.
  destruct (GenBuffers (gl w)). intros [= _ <-]. apply obs_gl.
Qed.

Lemma keeps_glDo (c : GLCall) : keeps obs (glDo c).
Proof. apply keeps_act. intros w. apply obs_gl. Qed.

Lemma keeps_logPrint (events : list LogEvent) : keeps obs (logPrint events).
Proof. apply keeps_act. intros w. apply obs_logged. Qed.

Ltac kept :=
  first
    [ apply keeps_ret | apply keeps_exit | apply keeps_lift | apply keeps_read
    | apply keeps_genVertexArrays | apply keeps_genBuffers
    | apply keeps_glDo | apply keeps_logPrint
    | apply keeps_forEach; apply Forall_forall; intros ? _
    | apply keeps_bind; [|intros ?] ].

Lemma keeps_loadSingleMesh (program : Z) (filename : string) :
  keeps obs (loadSingleMesh program filename).
Proof.
  unfold loadSingleMesh.
  apply keeps_bind; [apply keeps_lift|]. intros [[vs ixs] out].
  apply keeps_bind; [kept|]. intros _.
  destruct ((len vs =? 0) || (len ixs =? 0)); [repeat kept|].
  apply keeps_bind; [apply keeps_lift|]. intros [b out'].
  repeat kept.
Qed.

Lemma keeps_loadRemaining (program : Z) (filenames : list string) (sc : Scene) :
  keeps obs (loadRemaining program filenames sc).
Proof.
  revert sc. induction filenames as [|f fs IH]; intros sc; cbn [loadRemaining].
  - apply keeps_ret.
  - apply keeps_bind; [apply keeps_loadSingleMesh|]. intros m. apply IH.
Qed.

Lemma keeps_loadEach (program : Z) (filenames : list string) :
  keeps obs (loadEach program filenames).
Proof.
  induction filenames as [|f fs IH]; cbn [loadEach].
  - apply keeps_ret.
  - apply keeps_bind; [apply keeps_loadSingleMesh|]. intros m.
    apply keeps_bind; [exact IH|]. intros ms. apply keeps_ret.
Qed.

(** ... nor the variables. *)
Hypothesis obs_globals : forall f w, obs (with_globals f w) = obs w.

Lemma keeps_update (f : Globals -> Globals) : keeps obs (update f).
Proof. apply keeps_act. intros w. apply obs_globals. Qed.

Lemma keeps_loadAllMeshes (program : Z) (filenames : list string) :
  keeps obs (loadAllMeshes program filenames).
Proof.
  destruct filenames as [|f fs]; cbn [loadAllMeshes]; [apply keeps_exit|].
  apply keeps_bind; [apply keeps_loadSingleMesh|]. intros m.
  apply keeps_bind; [apply keeps_loadRemaining|]. intros sc.
  apply keeps_bind; [apply keeps_update | intros _; apply keeps_ret].
Qed.

Lemma keeps_cleanupScene : keeps obs cleanupScene.
Proof.
  unfold cleanupScene.
  apply keeps_bind; [kept|]. intros sc.
  apply keeps_bind; [repeat kept | intros _; apply keeps_update].
Qed.

Lemma keeps_renderScene (program : Z) :
  (forall t w, obs (SetTitle t w) = obs w) -> keeps obs (renderScene program).
Proof.
  intros obs_title. unfold renderScene, uniformLocation.
  repeat kept. apply keeps_act. intros w. apply obs_title.
Qed.

End Keeps.

End Run.
End RunFacts.

(** ** Loading the meshes *)

Module LoadFacts.
Import GoInt Float Mesh Collab Viewer Spec Behaviour RunFacts.

Section Load.
Context {M : Mgl32} {H : Host} {G : GLDriver}.

Lemma loadsAs_placeholder (filename : string) (lines : list string) :
  openFile filename = Some lines ->
  (len (fst (parseLines ParseFloat32 lines)) =? 0)
  || (len (snd (parseLines ParseFloat32 lines)) =? 0) = true ->
  loadsAs filename emptyMesh.
Proof.
  intros Hopen Hdeg. exists lines. split; [exact Hopen|].
  destruct (parseLines ParseFloat32 lines) as [vs ixs]. cbn [fst snd] in Hdeg.
  now rewrite Hdeg.
Qed.

(** A file that opens loads: the parse of a file leaves whole vertices,
    so [calculateBounds] does not go out of range. *)
Lemma loadSingleMesh_opened (program : Z) (filename : string)
      (lines : list string) :
  openFile filename = Some lines ->
  total (loadSingleMesh program filename)
  /\ returns (loadsAs filename) (loadSingleMesh program filename).
Proof.
  intros Hopen.
  pose proof (loadsAs_placeholder filename lines Hopen) as Hph.
  assert (forall m,
             (len (fst (parseLines ParseFloat32 lines)) =? 0)
             || (len (snd (parseLines ParseFloat32 lines)) =? 0) = false ->
             vertices m = fst (parseLines ParseFloat32 lines) ->
             indices m = snd (parseLines ParseFloat32 lines) ->
             (exists out, calculateBounds (vertices m) = Some (bounds m, out)) ->
             loadsAs filename m) as Hfull.
  { intros m Hdeg Hv Hi Hb. exists lines. split; [exact Hopen|].
    destruct (parseLines ParseFloat32 lines) as [vs ixs]. cbn [fst snd] in *.
    rewrite Hdeg. rewrite <- Hv. auto. }
  unfold loadSingleMesh, loadOBJFile. rewrite Hopen.
  rewrite ParserFacts.parseLines_any in *. cbn [fst snd] in *.
  set (tvs := flat_map (lineVertices ParseFloat32) lines) in *.
  set (ixs := flat_map lineIndices lines) in *.
  split.
  - apply total_lift_bind. apply total_bind; [apply total_act|intros _].
    destruct ((len (flat_map triple tvs) =? 0) || (len ixs =? 0)) eqn:Edeg.
    { apply total_bind; [apply total_act|intros _]. apply total_ret. }
    destruct tvs as [|v tvs]; [discriminate Edeg|].
    pose proof (CalculateFacts.calculateBounds_vertices v tvs) as Eb.
    destruct v as [[x y] z]. cbv zeta in Eb.
    rewrite Eb. apply total_lift_bind.
    repeat first [ apply total_ret
                 | apply total_bind;
                   [first [apply total_act | apply total_genVertexArrays
                          | apply total_genBuffers] | intros ?] ].
  - apply returns_lift_bind. apply returns_bind. intros _.
    destruct ((len (flat_map triple tvs) =? 0) || (len ixs =? 0)) eqn:Edeg.
    { apply returns_bind; intros _. apply returns_ret. now apply Hph. }
    destruct tvs as [|v tvs]; [discriminate Edeg|].
    pose proof (CalculateFacts.calculateBounds_vertices v tvs) as Eb.
    destruct v as [[x y] z]. cbv zeta in Eb.
    rewrite Eb. apply returns_lift_bind.
    repeat (apply returns_bind; intros ?).
    apply returns_ret. apply Hfull; try reflexivity.
    cbn [vertices bounds]. rewrite Eb. now eexists.
Qed.

Lemma loadSingleMesh_unopened (program : Z) (filename : string) (w : World) :
  openFile filename = None -> loadSingleMesh program filename w = None.
Proof.
  intros Hopen. unfold loadSingleMesh, loadOBJFile, bind, lift.
  now rewrite Hopen.
Qed.

Lemma opens_or_not (filenames : list string) :
  Forall opens filenames \/ Exists (fun f => openFile f = None) filenames.
Proof.
  induction filenames as [|f fs [IH | IH]].
  - left. constructor.
  - destruct (openFile f) eqn:E.
    + left. constructor; [unfold opens; now rewrite E | exact IH].
    + right. now constructor.
  - right. now constructor 2.
Qed.

Lemma opens_not_both (filenames : list string) :
  Forall opens filenames -> Exists (fun f => openFile f = None) filenames -> False.
Proof.
  intros Hall Hex. apply Exists_exists in Hex. destruct Hex as (f & Hin & Hf).
  exact (proj1 (Forall_forall _ _) Hall f Hin Hf).
Qed.

Lemma loadEach_opened (program : Z) (filenames : list string) :
  Forall opens filenames ->
  total (loadEach program filenames)
  /\ returns (Forall2 loadsAs filenames) (loadEach program filenames).
Proof.
  induction 1 as [|f fs Hf _ [IHt IHr]]; cbn [loadEach].
  - split; [apply total_ret | apply returns_ret; constructor].
  - unfold opens in Hf. destruct (openFile f) as [lines|] eqn:Hopen;
      [|now contradiction Hf].
    destruct (loadSingleMesh_opened program f lines Hopen) as [Ht Hr].
    split.
    + apply total_bind; [exact Ht|]. intros m.
      apply total_bind; [exact IHt|]. intros ms. apply total_ret.
    + intros w ms w' E.
      apply FrameFacts.bind_inv in E. destruct E as (m & w1 & E1 & E).
      apply FrameFacts.bind_inv in E. destruct E as (ms' & w2 & E2 & E).
      injection E as <- _. constructor; [exact (Hr _ _ _ E1) | exact (IHr _ _ _ E2)].
Qed.

Lemma loadEach_unopened (program : Z) (filenames : list string) (w : World) :
  Exists (fun f => openFile f = None) filenames ->
  loadEach program filenames w = None.
Proof.
  intros Hex. revert w.
  induction Hex as [f fs Hf | f fs _ IH]; intros w; cbn [loadEach].
  - apply SceneFacts.bind_None. now apply loadSingleMesh_unopened.
  - destruct (loadSingleMesh program f w) as [[m w1]|] eqn:E1.
    + rewrite (SceneFacts.bind_Some _ _ _ _ _ E1).
      apply SceneFacts.bind_None. apply IH.
    + now apply SceneFacts.bind_None.
Qed.

(** [loadAllMeshes] through [loadEach]: the scene, and the variables. *)
Lemma loadAllMeshes_scene (program : Z) (first : string) (rest : list string)
      (w : World) :
  loadAllMeshes program (first :: rest) w
  = match loadEach program (first :: rest) w with
    | Some (ms, w1) =>
        let b := fold_left combineBounds (map bounds (tl ms))
                           (bounds (hd emptyMesh ms)) in
        Some (mkScene ms b, with_globals (initializeCamera b) w1)
    | None => None
    end.
Proof.
  cbn [loadAllMeshes loadEach].
  destruct (loadSingleMesh program first w) as [[m w1]|] eqn:E1.
  2:{ now rewrite !(SceneFacts.bind_None _ _ _ E1). }
  rewrite !(SceneFacts.bind_Some _ _ _ _ _ E1).
  pose proof (SceneFacts.loadRemaining_loadEach program rest
                (mkScene [m] (bounds m)) w1) as E2.
  destruct (loadEach program rest w1) as [[ms w2]|] eqn:E3.
  - rewrite (SceneFacts.bind_Some _ _ _ _ _ E3), (SceneFacts.bind_Some _ _ _ _ _ E2).
    reflexivity.
  - now rewrite (SceneFacts.bind_None _ _ _ E3), (SceneFacts.bind_None _ _ _ E2).
Qed.

Lemma loadAllMeshes_None (program : Z) (filenames : list string) (w : World) :
  loadAllMeshes program filenames w = None
  <-> filenames = [] \/ Exists (fun f => openFile f = None) filenames.
Proof.
  destruct filenames as [|f fs]; [split; [now left | reflexivity]|].
  rewrite loadAllMeshes_scene. split.
  - intros E. right.
    destruct (opens_or_not (f :: fs)) as [Hall | Hex]; [|exact Hex].
    destruct (loadEach_opened program (f :: fs) Hall) as [Ht _].
    destruct (Ht w) as (ms & w1 & E1). rewrite E1 in E. discriminate E.
  - intros [Hnil | Hex]; [discriminate Hnil|].
    now rewrite (loadEach_unopened program (f :: fs) w Hex).
Qed.

Lemma loadAllMeshes_Some (program : Z) (filenames : list string)
      (w w' : World) (sc : Scene) :
  loadAllMeshes program filenames w = Some (sc, w') ->
  Forall2 loadsAs filenames (meshes sc)
  /\ sceneBounds sc
     = fold_left combineBounds (map bounds (tl (meshes sc)))
                 (bounds (hd emptyMesh (meshes sc)))
  /\ globals w' = initializeCamera (sceneBounds sc) (globals w).
Proof.
  intros E. destruct filenames as [|f fs]; [discriminate E|].
  rewrite loadAllMeshes_scene in E.
  destruct (loadEach program (f :: fs) w) as [[ms w1]|] eqn:E1;
    [|discriminate E].
  cbv zeta in E. injection E as <- <-. cbn [meshes sceneBounds].
  assert (Forall2 loadsAs (f :: fs) ms) as Hms.
  { destruct (opens_or_not (f :: fs)) as [Hall | Hex].
    - exact (proj2 (loadEach_opened program (f :: fs) Hall) _ _ _ E1).
    - rewrite (loadEach_unopened program (f :: fs) w Hex) in E1.
      discriminate E1. }
  pose proof (keeps_loadEach globals (fun _ _ => eq_refl) (fun _ _ => eq_refl)
                program (f :: fs) _ _ _ E1) as Hg.
  split; [exact Hms|]. split; [reflexivity|].
  cbn [with_globals globals]. now rewrite Hg.
Qed.

End Load.
End LoadFacts.

(** X8.  [loadSingleMesh] ends the process exactly when the file does not
    open.  A file that opens always loads, into the placeholder when the
    parse leaves no vertices or no indices and into a record of the
    parsed buffers and their bounds otherwise: the vertex buffer holds
    whole vertices, so [calculateBounds] never reads out of range.  The
    variables of the program are left as they were. *)
Theorem loadSingleMesh_completion :
  forall (M : Collab.Mgl32) (H : Collab.Host) (G : Collab.GLDriver)
         (program : Z) (filename : string) (w : Viewer.World),
    match Collab.openFile filename with
    | None => Viewer.loadSingleMesh program filename w = None
    | Some _ =>
        exists m w',
          Viewer.loadSingleMesh program filename w = Some (m, w')
          /\ Behaviour.loadsAs filename m
          /\ Viewer.globals w' = Viewer.globals w
    end.
Proof.
  intros M H G program filename w.
  destruct (Collab.openFile filename) as [lines|] eqn:Hopen.
  - destruct (LoadFacts.loadSingleMesh_opened program filename lines Hopen)
      as [Ht Hr].
    destruct (Ht w) as (m & w' & E). exists m, w'.
    split; [exact E|]. split; [exact (Hr _ _ _ E)|].
    exact (RunFacts.keeps_loadSingleMesh Viewer.globals
             (fun _ _ => eq_refl) (fun _ _ => eq_refl) program filename _ _ _ E).
  - now apply LoadFacts.loadSingleMesh_unopened.
Qed.

(** X9.  [loadAllMeshes] ends the process in two cases only: an empty list
    of files (the index out of range at [filenames[0]]) and a file that
    does not open; files without mesh data never end it. *)
Theorem loadAllMeshes_fatal :
  forall (M : Collab.Mgl32) (H : Collab.Host) (G : Collab.GLDriver)
         (program : Z) (filenames : list string) (w : Viewer.World),
    Viewer.loadAllMeshes program filenames w = None
    <-> filenames = []
        \/ Exists (fun f => Collab.openFile f = None) filenames.
Proof. intros M H G. apply LoadFacts.loadAllMeshes_None. Qed.

(** X10.  A load that completes returns one mesh record per file, in the
    order of the list, each what its file loads into; the bounds of the
    scene are those of the first mesh combined with the others in turn;
    the camera is framed on them, with the yaw back at -90 and the pitch
    at -20, and the scene variable itself is not yet assigned. *)
Theorem loadAllMeshes_result :
  forall (M : Collab.Mgl32) (H : Collab.Host) (G : Collab.GLDriver)
         (program : Z) (filenames : list string) (w w' : Viewer.World)
         (sc : Viewer.Scene),
    Viewer.loadAllMeshes program filenames w = Some (sc, w') ->
    Forall2 Behaviour.loadsAs filenames (Viewer.meshes sc)
    /\ Viewer.sceneBounds sc
       = fold_left Mesh.combineBounds
                   (map Viewer.bounds (tl (Viewer.meshes sc)))
                   (Viewer.bounds (hd Viewer.emptyMesh (Viewer.meshes sc)))
    /\ Viewer.globals w'
       = Viewer.initializeCamera (Viewer.sceneBounds sc) (Viewer.globals w)
    /\ Viewer.yaw (Viewer.globals w') = Float.int64_to64 (-90)
    /\ Viewer.pitch (Viewer.globals w') = Float.int64_to64 (-20)
    /\ Viewer.scene (Viewer.globals w') = Viewer.scene (Viewer.globals w).
Proof.
  intros M H G program filenames w w' sc E.
  destruct (LoadFacts.loadAllMeshes_Some program filenames w w' sc E)
    as (Hms & Hb & Hg).
  split; [exact Hms|]. split; [exact Hb|]. split; [exact Hg|].
  rewrite Hg. repeat split.
Qed.

Lemma loadAllMeshes_result_witness :
  exists sc w',
    @Viewer.loadAllMeshes Double.mgl32 Double.host Double.driver 1
                          ["triangle.obj"; "cloud.obj"] Double.initialWorld
    = Some (sc, w')
    /\ Forall2 (@Behaviour.loadsAs Double.host) ["triangle.obj"; "cloud.obj"]
               (Viewer.meshes sc)
    /\ Viewer.pitch (Viewer.globals w') = Float.int64_to64 (-20).
Proof.
  assert (match @Viewer.loadAllMeshes Double.mgl32 Double.host Double.driver 1
                  ["triangle.obj"; "cloud.obj"] Double.initialWorld with
          | Some _ => true
          | None => false
          end = true) as Hruns by (vm_compute; reflexivity).
  destruct (@Viewer.loadAllMeshes Double.mgl32 Double.host Double.driver 1
              ["triangle.obj"; "cloud.obj"] Double.initialWorld)
    as [[sc w']|] eqn:E; [|discriminate Hruns].
  exists sc, w'. split; [reflexivity|].
  destruct (loadAllMeshes_result Double.mgl32 Double.host Double.driver 1
              ["triangle.obj"; "cloud.obj"] Double.initialWorld w' sc E)
    as (Hms & _ & _ & _ & Hp & _).
  split; [exact Hms | exact Hp].
Defined.

(** ** The bounds of the scene *)

Module EncloseFacts.
Import GoInt Float Mesh Collab Viewer Spec Behaviour OrderFacts.

Lemma encloses_refl (b : Bounds) : numberBounds b -> encloses b b.
Proof.
  intros (N1 & N2 & N3 & N4 & N5 & N6).
  repeat split; now apply le32_refl.
Qed.

Lemma encloses_trans (a b c : Bounds) :
  numberBounds a -> numberBounds b -> numberBounds c ->
  encloses a b -> encloses b c -> encloses a c.
Proof.
  intros (A1 & A2 & A3 & A4 & A5 & A6) (B1 & B2 & B3 & B4 & B5 & B6)
         (C1 & C2 & C3 & C4 & C5 & C6)
         (H1 & H2 & H3 & H4 & H5 & H6) (K1 & K2 & K3 & K4 & K5 & K6).
  repeat split.
  - exact (le32_trans _ _ _ A1 B1 C1 H1 K1).
  - exact (le32_trans _ _ _ C4 B4 A4 K2 H2).
  - exact (le32_trans _ _ _ A2 B2 C2 H3 K3).
  - exact (le32_trans _ _ _ C5 B5 A5 K4 H4).
  - exact (le32_trans _ _ _ A3 B3 C3 H5 K5).
  - exact (le32_trans _ _ _ C6 B6 A6 K6 H6).
Qed.

Lemma number_combineBounds (a b : Bounds) :
  numberBounds a -> numberBounds b -> numberBounds (combineBounds a b).
Proof.
  intros (A1 & A2 & A3 & A4 & A5 & A6) (B1 & B2 & B3 & B4 & B5 & B6).
  unfold combineBounds, numberBounds. cbn [minX minY minZ maxX maxY maxZ].
  repeat split; first [now apply min32_isNumber | now apply max32_isNumber].
Qed.

(** The combined box holds both boxes. *)
Lemma combineBounds_encloses (a b : Bounds) :
  numberBounds a -> numberBounds b ->
  encloses (combineBounds a b) a /\ encloses (combineBounds a b) b.
Proof.
  intros (A1 & A2 & A3 & A4 & A5 & A6) (B1 & B2 & B3 & B4 & B5 & B6).
  unfold combineBounds, encloses. cbn [minX minY minZ maxX maxY maxZ].
  repeat split; first [now apply min32_number | now apply max32_number].
Qed.

Lemma fold_combineBounds (bs : list Bounds) (b : Bounds) :
  numberBounds b -> Forall numberBounds bs ->
  numberBounds (fold_left combineBounds bs b)
  /\ encloses (fold_left combineBounds bs b) b
  /\ Forall (encloses (fold_left combineBounds bs b)) bs.
Proof.
  intros Hb Hbs. revert b Hb.
  induction Hbs as [|c bs Hc _ IH]; intros b Hb; cbn [fold_left].
  - split; [exact Hb|]. split; [now apply encloses_refl | constructor].
  - pose proof (number_combineBounds b c Hb Hc) as Hn.
    destruct (combineBounds_encloses b c Hb Hc) as [E1 E2].
    destruct (IH _ Hn) as (Hn' & E & Hall).
    split; [exact Hn'|].
    split; [exact (encloses_trans _ _ _ Hn' Hn Hb E E1)|].
    constructor; [exact (encloses_trans _ _ _ Hn' Hn Hc E E2) | exact Hall].
Qed.

End EncloseFacts.

Module MeshBoundsFacts.
Import GoInt Float Mesh Collab Viewer Spec Behaviour OrderFacts.

Lemma verticesOf_triples (vs : list Vertex) :
  verticesOf (flat_map triple vs) = vs.
Proof.
  induction vs as [|[[x y] z] vs IH]; [reflexivity|].
  cbn [flat_map triple app verticesOf]. now rewrite IH.
Qed.

Lemma lineVertices_valid (PF : string -> float64) (line : string) :
  Forall (fun v => isFloat32 (xOf v) /\ isFloat32 (yOf v) /\ isFloat32 (zOf v))
         (lineVertices PF line).
Proof.
  unfold lineVertices.
  destruct (Strings.Fields line) as [|tok [|a [|b [|c rest]]]]; try constructor.
  destruct (String.eqb tok "v"); constructor; [|constructor].
  repeat split; apply ValidFacts.to32_valid.
Qed.

Lemma parsed_valid (PF : string -> float64) (lines : list string) :
  Forall (fun v => isFloat32 (xOf v) /\ isFloat32 (yOf v) /\ isFloat32 (zOf v))
         (flat_map (lineVertices PF) lines).
Proof.
  induction lines as [|l ls IH]; cbn [flat_map]; [constructor|].
  apply Forall_app. split; [apply lineVertices_valid | exact IH].
Qed.

Lemma notNaN_triples (vs : list Vertex) :
  Forall notNaN (flat_map triple vs) ->
  Forall (fun v => notNaN (xOf v) /\ notNaN (yOf v) /\ notNaN (zOf v)) vs.
Proof.
  induction vs as [|[[x y] z] vs IH]; intros Hn; [constructor|].
  cbn [flat_map triple app] in Hn.
  inversion Hn as [|? ? Hx Hn1]; subst. inversion Hn1 as [|? ? Hy Hn2]; subst.
  inversion Hn2 as [|? ? Hz Hn3]; subst.
  constructor; [repeat split; assumption | now apply IH].
Qed.

Lemma numberVertex_of (vs : list Vertex) :
  Forall (fun v => isFloat32 (xOf v) /\ isFloat32 (yOf v) /\ isFloat32 (zOf v)) vs ->
  Forall (fun v => notNaN (xOf v) /\ notNaN (yOf v) /\ notNaN (zOf v)) vs ->
  Forall numberVertex vs.
Proof.
  intros Hv Hn. induction vs as [|[[x y] z] vs IH]; [constructor|].
  pose proof (Forall_inv Hv) as (V1 & V2 & V3).
  pose proof (Forall_inv Hn) as (N1 & N2 & N3).
  constructor; [|exact (IH (Forall_inv_tail Hv) (Forall_inv_tail Hn))].
  repeat split; assumption.
Qed.

Lemma numberBounds_zero : numberBounds zeroBounds.
Proof. repeat split. Qed.

Section Meshes.
Context {M : Mgl32} {H : Host} {G : GLDriver}.

(** What a file loads into has bounds that are numbers and hold its
    vertices, when no coordinate is a NaN. *)
Lemma loadsAs_holds (filename : string) (m : MeshData) :
  loadsAs filename m -> Forall notNaN (vertices m) ->
  numberBounds (bounds m)
  /\ Forall numberVertex (verticesOf (vertices m))
  /\ Forall (holds (bounds m)) (verticesOf (vertices m)).
Proof.
  intros (lines & _ & Hm) Hn.
  rewrite ParserFacts.parseLines_any in Hm.
  set (tvs := flat_map (lineVertices ParseFloat32) lines) in *.
  pose proof (parsed_valid ParseFloat32 lines) as Hv. fold tvs in Hv.
  destruct ((len (flat_map triple tvs) =? 0) || _) eqn:Edeg.
  { subst m. split; [apply numberBounds_zero|]. split; constructor. }
  destruct Hm as (Hvs & _ & out & Eb).
  rewrite Hvs in Hn |- *. rewrite verticesOf_triples.
  pose proof (numberVertex_of tvs Hv (notNaN_triples tvs Hn)) as Hnum.
  destruct tvs as [|v tvs]; [discriminate Edeg|].
  destruct (CalculateFacts.tight_calculateBounds v tvs Hnum)
    as (b & Eb' & Hnb & Hh & _).
  rewrite Eb' in Eb. injection Eb as <- _. auto.
Qed.

End Meshes.

Lemma holds_enclosed (outer inner : Bounds) (v : Vertex) :
  numberBounds outer -> numberBounds inner -> numberVertex v ->
  encloses outer inner -> holds inner v -> holds outer v.
Proof.
  destruct v as [[x y] z].
  intros (O1 & O2 & O3 & O4 & O5 & O6) (I1 & I2 & I3 & I4 & I5 & I6)
         (Nx & Ny & Nz) (E1 & E2 & E3 & E4 & E5 & E6)
         (H1 & H2 & H3 & H4 & H5 & H6).
  repeat split.
  - exact (le32_trans _ _ _ O1 I1 Nx E1 H1).
  - exact (le32_trans _ _ _ Nx I4 O4 H2 E2).
  - exact (le32_trans _ _ _ O2 I2 Ny E3 H3).
  - exact (le32_trans _ _ _ Ny I5 O5 H4 E4).
  - exact (le32_trans _ _ _ O3 I3 Nz E5 H5).
  - exact (le32_trans _ _ _ Nz I6 O6 H6 E6).
Qed.

Section Scenes.
Context {M : Mgl32} {H : Host} {G : GLDriver}.

Lemma scene_holds (program : Z) (filenames : list string) (w w' : World)
      (sc : Scene) :
  loadAllMeshes program filenames w = Some (sc, w') ->
  Forall (fun m => Forall notNaN (vertices m)) (meshes sc) ->
  Forall (fun m => encloses (sceneBounds sc) (bounds m)
                   /\ Forall (holds (sceneBounds sc)) (verticesOf (vertices m)))
         (meshes sc).
Proof.
  intros E Hn.
  destruct (LoadFacts.loadAllMeshes_Some program filenames w w' sc E)
    as (Hms & Hb & _).
  assert (Forall (fun m => numberBounds (bounds m)
                           /\ Forall numberVertex (verticesOf (vertices m))
                           /\ Forall (holds (bounds m)) (verticesOf (vertices m)))
                 (meshes sc)) as Hall.
  { clear Hb E. revert Hn. induction Hms as [|f m fs ms Hf _ IH]; intros Hn.
    - constructor.
    - constructor; [|exact (IH (Forall_inv_tail Hn))].
      exact (loadsAs_holds f m Hf (Forall_inv Hn)). }
  clear Hms Hn E. rewrite Hb. clear Hb.
  destruct (meshes sc) as [|m ms]; [constructor|]. cbn [hd tl].
  pose proof (Forall_inv Hall) as (Hnb & _).
  assert (Forall numberBounds (map bounds ms)) as Hnbs.
  { apply Forall_map. apply Forall_forall. intros m' Hm'.
    exact (proj1 (proj1 (Forall_forall _ _) (Forall_inv_tail Hall) m' Hm')). }
  destruct (EncloseFacts.fold_combineBounds (map bounds ms) (bounds m) Hnb Hnbs)
    as (Hnt & E1 & Eall).
  pose proof (proj1 (Forall_map _ _ _) Eall) as Eall'. cbn beta in Eall'.
  assert (Forall (fun m' => encloses (fold_left combineBounds (map bounds ms)
                                                (bounds m)) (bounds m'))
                 (m :: ms)) as Henc by (constructor; assumption).
  apply Forall_forall. intros m' Hm'.
  pose proof (proj1 (Forall_forall _ _) Henc m' Hm') as He.
  pose proof (proj1 (Forall_forall _ _) Hall m' Hm') as (Hnb' & Hnv & Hh).
  split; [exact He|].
  apply Forall_forall. intros v Hv.
  apply (holds_enclosed _ (bounds m') v Hnt Hnb').
  - exact (proj1 (Forall_forall _ _) Hnv v Hv).
  - exact He.
  - exact (proj1 (Forall_forall _ _) Hh v Hv).
Qed.

End Scenes.
End MeshBoundsFacts.

(** X11.  When no coordinate read from the file is a NaN, the bounds of
    the mesh [loadSingleMesh] returns hold every vertex of its vertex
    buffer: what [float32] makes of a parsed coordinate is always a value
    of the format, so the minimum and the maximum are taken of
    numbers. *)
Theorem loaded_bounds_hold_vertices :
  forall (M : Collab.Mgl32) (H : Collab.Host) (G : Collab.GLDriver)
         (program : Z) (filename : string) (w w' : Viewer.World)
         (m : Viewer.MeshData),
    Viewer.loadSingleMesh program filename w = Some (m, w') ->
    Forall Behaviour.notNaN (Viewer.vertices m) ->
    Forall (Behaviour.holds (Viewer.bounds m))
           (Behaviour.verticesOf (Viewer.vertices m)).
Proof.
  intros M H G program filename w w' m E Hn.
  destruct (Collab.openFile filename) as [lines|] eqn:Hopen.
  - destruct (LoadFacts.loadSingleMesh_opened program filename lines Hopen)
      as [_ Hr].
    exact (proj2 (proj2 (MeshBoundsFacts.loadsAs_holds filename m (Hr _ _ _ E) Hn))).
  - rewrite (LoadFacts.loadSingleMesh_unopened program filename w Hopen) in E.
    discriminate E.
Qed.

Lemma loaded_bounds_hold_vertices_witness :
  exists m w',
    @Viewer.loadSingleMesh Double.mgl32 Double.host Double.driver 1
                           "triangle.obj" Double.initialWorld
    = Some (m, w')
    /\ Forall (Behaviour.holds (Viewer.bounds m))
              (Behaviour.verticesOf (Viewer.vertices m)).
Proof.
  assert (match @Viewer.loadSingleMesh Double.mgl32 Double.host Double.driver 1
                  "triangle.obj" Double.initialWorld with
          | Some (m, _) =>
              forallb (fun x => negb (Float.isNaN x)) (Viewer.vertices m)
          | None => false
          end = true) as Hruns by (vm_compute; reflexivity).
  destruct (@Viewer.loadSingleMesh Double.mgl32 Double.host Double.driver 1
              "triangle.obj" Double.initialWorld)
    as [[m w']|] eqn:E; [|discriminate Hruns].
  exists m, w'. split; [reflexivity|].
  apply (loaded_bounds_hold_vertices Double.mgl32 Double.host Double.driver 1
           "triangle.obj" Double.initialWorld w' m E).
  apply Forall_forall. intros x Hx.
  apply negb_true_iff. exact (proj1 (forallb_forall _ _) Hruns x Hx).
Defined.

(** X12.  When no coordinate read from the files is a NaN, the bounds of a
    loaded scene hold every vertex of every mesh, and the bounds of every
    mesh.  The placeholder of a file without mesh data counts with its
    bounds at zero, so with such a file in the list the bounds of the
    scene reach the origin. *)
Theorem scene_bounds_enclose_meshes :
  forall (M : Collab.Mgl32) (H : Collab.Host) (G : Collab.GLDriver)
         (program : Z) (filenames : list string) (w w' : Viewer.World)
         (sc : Viewer.Scene),
    Viewer.loadAllMeshes program filenames w = Some (sc, w') ->
    Forall (fun m => Forall Behaviour.notNaN (Viewer.vertices m)) (Viewer.meshes sc) ->
    Forall (fun m =>
              Behaviour.encloses (Viewer.sceneBounds sc) (Viewer.bounds m)
              /\ Forall (Behaviour.holds (Viewer.sceneBounds sc))
                        (Behaviour.verticesOf (Viewer.vertices m)))
           (Viewer.meshes sc).
Proof. intros M H G. apply MeshBoundsFacts.scene_holds. Qed.

Lemma scene_bounds_enclose_meshes_witness :
  exists sc w',
    @Viewer.loadAllMeshes Double.mgl32 Double.host Double.driver 1
                          ["triangle.obj"; "cloud.obj"] Double.initialWorld
    = Some (sc, w')
    /\ Forall (fun m =>
                 Behaviour.encloses (Viewer.sceneBounds sc) (Viewer.bounds m)
                 /\ Forall (Behaviour.holds (Viewer.sceneBounds sc))
                           (Behaviour.verticesOf (Viewer.vertices m)))
              (Viewer.meshes sc).
Proof.
  assert (match @Viewer.loadAllMeshes Double.mgl32 Double.host Double.driver 1
                  ["triangle.obj"; "cloud.obj"] Double.initialWorld with
          | Some (sc, _) =>
              forallb (fun m => forallb (fun x => negb (Float.isNaN x))
                                        (Viewer.vertices m))
                      (Viewer.meshes sc)
          | None => false
          end = true) as Hruns by (vm_compute; reflexivity).
  destruct (@Viewer.loadAllMeshes Double.mgl32 Double.host Double.driver 1
              ["triangle.obj"; "cloud.obj"] Double.initialWorld)
    as [[sc w']|] eqn:E; [|discriminate Hruns].
  exists sc, w'. split; [reflexivity|].
  apply (scene_bounds_enclose_meshes Double.mgl32 Double.host Double.driver 1
           ["triangle.obj"; "cloud.obj"] Double.initialWorld w' sc E).
  apply Forall_forall. intros m Hm.
  pose proof (proj1 (forallb_forall _ _) Hruns m Hm) as Hb.
  apply Forall_forall. intros x Hx.
  apply negb_true_iff. exact (proj1 (forallb_forall _ _) Hb x Hx).
Defined.

(** ** The release of the scene and the reload *)

Module ReloadFacts.
Import GoInt Float Mesh Collab Viewer Spec Behaviour RunFacts.

Section Reload.
Context {M : Mgl32} {H : Host} {G : GLDriver}.

Lemma forEach_release (ms : list MeshData) (w : World) :
  forEach ms (fun m =>
    bind (glDo (DeleteVertexArrays (vao m))) (fun _ =>
    bind (glDo (DeleteBuffers (vbo m))) (fun _ =>
    glDo (DeleteBuffers (ebo m))))) w
  = Some (tt, with_gl (releaseAll ms) w).
Proof.
  revert w. induction ms as [|m ms IH]; intros w; cbn [forEach].
  - destruct w; reflexivity.
  - unfold bind at 1. cbn. rewrite IH. reflexivity.
Qed.

(** [cleanupScene] always completes: the names of every mesh are deleted,
    in the order of the meshes, and the list is emptied. *)
Lemma cleanupScene_run (w : World) :
  cleanupScene w
  = Some (tt,
          with_globals
            (fun g => set_scene (mkScene [] (sceneBounds (scene g))) g)
            (with_gl (releaseAll (meshes (scene (globals w)))) w)).
Proof.
  unfold cleanupScene, bind at 1, read.
  unfold bind. rewrite forEach_release. reflexivity.
Qed.

Lemma total_cleanupScene : total cleanupScene.
Proof. intros w. rewrite cleanupScene_run. now eexists _, _. Qed.

(** The dialog of a frame with F1 down. *)
Lemma checkFileReload_pressed (getKey : Key -> Action) (answer : DialogAnswer)
      (w : World) :
  pressed getKey KeyF1 = true ->
  checkFileReload getKey answer w
  = selectOBJFiles (lastDirectory (globals w)) answer w.
Proof.
  unfold pressed. intros Hk. unfold checkFileReload. rewrite Hk. reflexivity.
Qed.

Lemma selectOBJFiles_selected (startDir first : string) (rest : list string)
      (w : World) :
  selectOBJFiles startDir (Selected (first :: rest)) w
  = Some ((first :: rest, None),
          with_globals (set_lastDirectory (Dir first)) (openDialog startDir w)).
Proof.
  unfold selectOBJFiles, when.
  assert ((0 <? len (first :: rest)) = true) as ->.
  { apply Z.ltb_lt. unfold len. cbn [List.length]. lia. }
  reflexivity.
Qed.

(** The reload step with F1 down and files selected: the dialog, the
    release of the old scene, the load, the assignment and the title. *)
Lemma reload_selected (program : Z) (getKey : Key -> Action)
      (first : string) (rest : list string) (w : World) :
  pressed getKey KeyF1 = true ->
  reload program getKey (Selected (first :: rest)) w
  = match loadAllMeshes program (first :: rest)
            (with_globals
               (fun g => set_scene (mkScene [] (sceneBounds (scene g)))
                                   (set_lastDirectory (Dir first) g))
               (with_gl (releaseAll (meshes (scene (globals w))))
                        (openDialog (lastDirectory (globals w)) w))) with
    | Some (sc, w1) =>
        Some (tt, SetTitle (TitleFiles (String.concat ", " (first :: rest)))
                           (with_globals (set_scene sc) w1))
    | None => None
    end.
Proof.
  intros Hk. unfold reload.
  rewrite (SceneFacts.bind_Some _ _ _ _ _
             (eq_trans (checkFileReload_pressed getKey _ w Hk)
                       (selectOBJFiles_selected _ first rest w))).
  assert ((isNil None && (0 <? len (first :: rest))) = true) as ->.
  { apply Z.ltb_lt. unfold len. cbn [List.length]. lia. }
  rewrite (SceneFacts.bind_Some _ _ _ _ _ (cleanupScene_run _)).
  match goal with
  | |- bind (loadAllMeshes _ _) _ ?w0 = match loadAllMeshes _ _ ?w1 with _ => _ end =>
      change w0 with w1; destruct (loadAllMeshes program (first :: rest) w1)
        as [[sc w2]|] eqn:E
  end.
  - rewrite (SceneFacts.bind_Some _ _ _ _ _ E). reflexivity.
  - now rewrite (SceneFacts.bind_None _ _ _ E).
Qed.

(** The reload step ends the process only on a selected file that does
    not open. *)
Lemma reload_None (program : Z) (getKey : Key -> Action)
      (answer : DialogAnswer) (w : World) :
  reload program getKey answer w = None
  <-> pressed getKey KeyF1 = true
      /\ exists first rest,
           answer = Selected (first :: rest)
           /\ Exists (fun f => openFile f = None) (first :: rest).
Proof.
  split.
  - intros E.
    destruct (pressed getKey KeyF1) eqn:Hk.
    2:{ destruct (FrameFacts.reload_idle program getKey answer w
                    ltac:(left; exact Hk)) as (w' & E' & _).
        rewrite E' in E. discriminate E. }
    split; [reflexivity|].
    destruct answer as [[|first rest]| |].
    2:{ exists first, rest. split; [reflexivity|].
        rewrite (reload_selected program getKey first rest w Hk) in E.
        match type of E with
        | context [loadAllMeshes program (first :: rest) ?w0] =>
            destruct (loadAllMeshes program (first :: rest) w0)
              as [[sc w2]|] eqn:E2; [discriminate E|]
        end.
        apply LoadFacts.loadAllMeshes_None in E2.
        destruct E2 as [E2 | E2]; [discriminate E2 | exact E2]. }
    all: match type of E with
         | reload _ _ ?a _ = None =>
             destruct (FrameFacts.reload_idle program getKey a w
                         ltac:(right; auto)) as (w' & E' & _)
         end;
      rewrite E' in E; discriminate E.
  - intros (Hk & first & rest & -> & Hex).
    rewrite (reload_selected program getKey first rest w Hk).
    match goal with
    | |- context [loadAllMeshes program (first :: rest) ?w0] =>
        rewrite (proj2 (LoadFacts.loadAllMeshes_None program (first :: rest) w0)
                       (or_intror Hex))
    end.
    reflexivity.
Qed.

End Reload.
End ReloadFacts.

(** X13.  [cleanupScene] always completes.  It deletes the vertex array
    and the two buffers of every mesh, mesh after mesh, empties the list
    of meshes and keeps the bounds of the scene; run again at once, it
    deletes nothing more. *)
Theorem cleanupScene_releases_once :
  forall (M : Collab.Mgl32) (H : Collab.Host) (G : Collab.GLDriver)
         (w : Viewer.World),
    exists w',
      Viewer.cleanupScene w = Some (tt, w')
      /\ Viewer.gl w'
         = Behaviour.releaseAll
             (Viewer.meshes (Viewer.scene (Viewer.globals w))) (Viewer.gl w)
      /\ Viewer.meshes (Viewer.scene (Viewer.globals w')) = []
      /\ Viewer.sceneBounds (Viewer.scene (Viewer.globals w'))
         = Viewer.sceneBounds (Viewer.scene (Viewer.globals w))
      /\ Viewer.cleanupScene w' = Some (tt, w').
Proof.
  intros M H G w. eexists. split; [apply ReloadFacts.cleanupScene_run|].
  repeat split.
Qed.

(** X14.  A reload with F1 down and a selection of files that all open
    completes: the dialog was opened once, at the last directory; the
    scene holds one mesh per selected file, in order; the title names the
    files; the last directory is that of the first file; the camera is
    back at yaw -90 and pitch -20, and the speed setting is kept. *)
Theorem reload_loads_selection :
  forall (M : Collab.Mgl32) (H : Collab.Host) (G : Collab.GLDriver)
         (program : Z) (getKey : Collab.Key -> Collab.Action)
         (first : string) (rest : list string) (w : Viewer.World),
    Viewer.pressed getKey Collab.KeyF1 = true ->
    Forall Behaviour.opens (first :: rest) ->
    exists w',
      Viewer.reload program getKey (Collab.Selected (first :: rest)) w
      = Some (tt, w')
      /\ Forall2 Behaviour.loadsAs (first :: rest)
                 (Viewer.meshes (Viewer.scene (Viewer.globals w')))
      /\ Viewer.windowTitle w'
         = Viewer.TitleFiles (String.concat ", " (first :: rest))
      /\ Viewer.dialogs w'
         = Viewer.dialogs w ++ [Viewer.lastDirectory (Viewer.globals w)]
      /\ Viewer.lastDirectory (Viewer.globals w') = Collab.Dir first
      /\ Viewer.yaw (Viewer.globals w') = Float.int64_to64 (-90)
      /\ Viewer.pitch (Viewer.globals w') = Float.int64_to64 (-20)
      /\ Viewer.currentSpeedIndex (Viewer.globals w')
         = Viewer.currentSpeedIndex (Viewer.globals w).
Proof.
  intros M H G program getKey first rest w Hk Hall.
  rewrite (ReloadFacts.reload_selected program getKey first rest w Hk).
  match goal with
  | |- context [Viewer.loadAllMeshes program (first :: rest) ?w0] =>
      set (w1 := w0)
  end.
  destruct (Viewer.loadAllMeshes program (first :: rest) w1) as [[sc w2]|] eqn:E.
  2:{ apply LoadFacts.loadAllMeshes_None in E.
      destruct E as [E | E]; [discriminate E|].
      destruct (LoadFacts.opens_not_both _ Hall E). }
  destruct (LoadFacts.loadAllMeshes_Some program (first :: rest) w1 w2 sc E)
    as (Hms & _ & Hg).
  pose proof (RunFacts.keeps_loadAllMeshes Viewer.dialogs
                (fun _ _ => eq_refl) (fun _ _ => eq_refl) (fun _ _ => eq_refl)
                program (first :: rest) _ _ _ E) as Hd.
  eexists. split; [reflexivity|].
  cbn [Viewer.SetTitle Viewer.with_globals Viewer.globals Viewer.windowTitle
       Viewer.dialogs Viewer.set_scene Viewer.scene Viewer.lastDirectory
       Viewer.yaw Viewer.pitch Viewer.currentSpeedIndex].
  rewrite Hg, Hd. repeat split. exact Hms.
Qed.

Lemma reload_loads_selection_witness :
  exists w',
    @Viewer.reload Double.mgl32 Double.host Double.driver 1 Double.f1Down
                   (Collab.Selected ["triangle.obj"; "cloud.obj"])
                   Double.initialWorld
    = Some (tt, w')
    /\ Viewer.windowTitle w' = Viewer.TitleFiles "triangle.obj, cloud.obj"
    /\ Viewer.dialogs w' = [""].
Proof.
  destruct (reload_loads_selection
              Double.mgl32 Double.host Double.driver 1 Double.f1Down
              "triangle.obj" ["cloud.obj"] Double.initialWorld eq_refl)
    as (w' & E & _ & Ht & Hd & _).
  - repeat constructor; intros Hc; vm_compute in Hc; discriminate Hc.
  - exists w'. split; [exact E|]. split; [exact Ht | exact Hd].
Defined.

(** X15.  The reload step ends the process in one case only: F1 is down
    and the dialog returns a selection with a file that does not open. *)
Theorem reload_fatal :
  forall (M : Collab.Mgl32) (H : Collab.Host) (G : Collab.GLDriver)
         (program : Z) (getKey : Collab.Key -> Collab.Action)
         (answer : Collab.DialogAnswer) (w : Viewer.World),
    Viewer.reload program getKey answer w = None
    <-> Viewer.pressed getKey Collab.KeyF1 = true
        /\ exists first rest,
             answer = Collab.Selected (first :: rest)
             /\ Exists (fun f => Collab.openFile f = None) (first :: rest).
Proof. intros M H G. apply ReloadFacts.reload_None. Qed.

Module ReplaceFacts.
Import GoInt Float Mesh Collab Viewer Spec Behaviour.

Section Replace.
Context {M : Mgl32} {H : Host} {G : GLDriver}.

(** After a reload the driver is where the release of the old meshes
    followed by the load of the new files leaves it. *)
Lemma reload_driver (program : Z) (getKey : Key -> Action)
      (first : string) (rest : list string) (w w' w0 : World) (u : unit) :
  pressed getKey KeyF1 = true ->
  reload program getKey (Selected (first :: rest)) w = Some (u, w') ->
  gl w0 = releaseAll (meshes (scene (globals w))) (gl w) ->
  exists ms w1,
    loadEach program (first :: rest) w0 = Some (ms, w1)
    /\ meshes (scene (globals w')) = ms /\ gl w' = gl w1.
Proof.
  intros Hk E Hgl.
  rewrite (ReloadFacts.reload_selected program getKey first rest w Hk) in E.
  rewrite LoadFacts.loadAllMeshes_scene in E.
  match type of E with
  | context [loadEach program (first :: rest) ?w_in] =>
      pose proof (SceneFacts.loadEach_same program (first :: rest) w0 w_in
                    ltac:(rewrite Hgl; reflexivity)) as Hsame;
      destruct (loadEach program (first :: rest) w_in) as [[ms' w1']|];
      [|discriminate E]
  end.
  cbv zeta in E. injection E as _ <-.
  destruct (loadEach program (first :: rest) w0) as [[ms w1]|];
    [|contradiction].
  destruct Hsame as [-> Hg]. exists ms', w1.
  split; [reflexivity|]. split; [reflexivity|]. symmetry. exact Hg.
Qed.

End Replace.
End ReplaceFacts.

(** X16.  A reload replaces the scene as a whole: the meshes of the new
    scene and the state of the driver are those reached by deleting the
    names of every mesh of the old scene and then loading the selected
    files, in order; nothing else of the old scene enters. *)
Theorem reload_replaces_scene :
  forall (M : Collab.Mgl32) (H : Collab.Host) (G : Collab.GLDriver)
         (program : Z) (getKey : Collab.Key -> Collab.Action)
         (first : string) (rest : list string) (w w' w0 : Viewer.World),
    Viewer.pressed getKey Collab.KeyF1 = true ->
    Viewer.reload program getKey (Collab.Selected (first :: rest)) w
    = Some (tt, w') ->
    Viewer.gl w0
    = Behaviour.releaseAll (Viewer.meshes (Viewer.scene (Viewer.globals w)))
                           (Viewer.gl w) ->
    exists ms w1,
      Viewer.loadEach program (first :: rest) w0 = Some (ms, w1)
      /\ Viewer.meshes (Viewer.scene (Viewer.globals w')) = ms
      /\ Viewer.gl w' = Viewer.gl w1.
Proof.
  intros M H G program getKey first rest w w' w0.
  apply ReplaceFacts.reload_driver.
Qed.

Lemma reload_replaces_scene_witness :
  exists w' ms w1,
    @Viewer.reload Double.mgl32 Double.host Double.driver 1 Double.f1Down
                   (Collab.Selected ["triangle.obj"]) Double.initialWorld
    = Some (tt, w')
    /\ @Viewer.loadEach Double.mgl32 Double.host Double.driver 1
                        ["triangle.obj"] Double.initialWorld
       = Some (ms, w1)
    /\ Viewer.meshes (Viewer.scene (Viewer.globals w')) = ms.
Proof.
  assert (match @Viewer.reload Double.mgl32 Double.host Double.driver 1
                  Double.f1Down (Collab.Selected ["triangle.obj"])
                  Double.initialWorld with
          | Some _ => true
          | None => false
          end = true) as Hruns by (vm_compute; reflexivity).
  destruct (@Viewer.reload Double.mgl32 Double.host Double.driver 1
              Double.f1Down (Collab.Selected ["triangle.obj"])
              Double.initialWorld) as [[[] w']|] eqn:E; [|discriminate Hruns].
  destruct (reload_replaces_scene Double.mgl32 Double.host Double.driver 1
              Double.f1Down "triangle.obj" [] Double.initialWorld w'
              Double.initialWorld eq_refl E eq_refl)
    as (ms & w1 & E1 & Hms & _).
  exists w', ms, w1. split; [reflexivity|]. split; [exact E1 | exact Hms].
Defined.

(** ** The frame and the loop *)

Module LoopFacts.
Import GoInt Float Mesh Collab Viewer Spec Behaviour RunFacts.

Section Loop.
Context {M : Mgl32} {H : Host} {G : GLDriver}.

(** The frame, step by step. *)
Lemma frame_run (program : Z) (i : FrameInput) (w : World) :
  frame program i w
  = match processInput (getKey i) (clocked i (globals w)) with
    | None => None
    | Some g0 =>
        match reload program (getKey i) (answer i)
                     (with_globals (fun _ => g0) w) with
        | None => None
        | Some (_, w1) =>
            match renderScene program w1 with
            | None => None
            | Some (_, w2) =>
                match PollEvents (events i) w2 with
                | None => None
                | Some (_, w3) =>
                    Some (tt, Sleep (pacing (deltaTime (globals w3))) w3)
                end
            end
        end
    end.
Proof.
  unfold frame.
  unfold bind at 1, update at 1, act at 1.
  unfold bind at 1, update at 1, act at 1.
  unfold bind at 1, read at 1.
  unfold bind at 1, lift at 1.
  cbn [globals with_globals].
  change (set_lastFrame (now i)
            (set_deltaTime (sub64 (now i) (lastFrame (globals w))) (globals w)))
    with (clocked i (globals w)).
  destruct (processInput (getKey i) (clocked i (globals w))) as [g0|];
    [|reflexivity].
  unfold bind at 1, update at 1, act at 1.
  unfold bind at 1.
  match goal with
  | |- context [reload _ _ _ ?w0] =>
      change w0 with (with_globals (fun _ => g0) w)
  end.
  destruct (reload program (getKey i) (answer i) (with_globals (fun _ => g0) w))
    as [[[] w1]|]; [|reflexivity].
  unfold bind at 1.
  destruct (renderScene program w1) as [[[] w2]|]; [|reflexivity].
  unfold bind at 1.
  destruct (PollEvents (events i) w2) as [[[] w3]|]; reflexivity.
Qed.

(** [processInput] moves the camera and cycles the speed, nothing else. *)
Lemma processInput_moves (getKey : Key -> Action) (g g' : Globals) :
  processInput getKey g = Some g' ->
  exists v, g' = set_cameraPos v (cycleSpeed (getKey KeyLeftShift) g).
Proof.
  unfold processInput.
  set (g1 := cycleSpeed (getKey KeyLeftShift) g). clearbody g1.
  destruct (index speedMultipliers (currentSpeedIndex g1)) as [mult|];
    [|discriminate].
  cbv zeta. intros [= <-].
  destruct (pressed getKey KeyW), (pressed getKey KeyS),
    (pressed getKey KeyA), (pressed getKey KeyD);
    first [ eexists; reflexivity
          | exists (cameraPos g1); destruct g1; reflexivity ].
Qed.

Lemma total_dispatch (e : Event) : total (dispatch e).
Proof.
  destruct e as [x y | [] [] |]; cbn [dispatch keyCallback];
    first [apply total_act | apply total_ret].
Qed.

Lemma total_PollEvents (es : list Event) : total (PollEvents es).
Proof. apply total_forEach, total_dispatch. Qed.

(** Escape going down is one of the events that set the closing flag. *)
Lemma isEscape_closes (es : list Event) :
  existsb isEscape es = true -> existsb closes es = true.
Proof.
  rewrite !existsb_exists. intros (e & He & Hesc). exists e. split; [exact He|].
  destruct e as [x y | [] [] |]; first [exact Hesc | reflexivity].
Qed.

(** The events set the closing flag when one of them is Escape going
    down or a request to close the window, and never clear it. *)
Lemma PollEvents_shouldClose (es : list Event) (w w' : World) (u : unit) :
  PollEvents es w = Some (u, w') ->
  shouldClose w' = shouldClose w || existsb closes es.
Proof.
  unfold PollEvents. revert w.
  induction es as [|e es IH]; intros w; cbn [forEach existsb].
  - intros [= _ <-]. now rewrite orb_false_r.
  - intros E. apply FrameFacts.bind_inv in E. destruct E as ([] & w1 & E1 & E).
    rewrite (IH _ E), orb_assoc. f_equal.
    destruct e as [x y | [] [] |]; cbn [dispatch keyCallback closes] in *;
      injection E1 as <-; cbn [shouldClose SetShouldClose with_globals];
      rewrite ?orb_false_r, ?orb_true_r; reflexivity.
Qed.

Lemma keeps_PollEvents {X} (obs : World -> X) (es : list Event) :
  (forall f w, obs (with_globals f w) = obs w) ->
  (forall b w, obs (SetShouldClose b w) = obs w) ->
  keeps obs (PollEvents es).
Proof.
  intros Hg Hc. apply keeps_forEach, Forall_forall. intros e _.
  destruct e as [x y | [] [] |]; cbn [dispatch keyCallback];
    first [ apply keeps_ret | apply keeps_act; intros w; apply Hg
          | apply keeps_act; intros w; apply Hc ].
Qed.

Lemma keeps_reload {X} (obs : World -> X) (program : Z)
      (getKey : Key -> Action) (answer : DialogAnswer) :
  (forall f w, obs (with_gl f w) = obs w) ->
  (forall f w, obs (with_logged f w) = obs w) ->
  (forall f w, obs (with_globals f w) = obs w) ->
  (forall t w, obs (SetTitle t w) = obs w) ->
  (forall d w, obs (openDialog d w) = obs w) ->
  keeps obs (reload program getKey answer).
Proof.
  intros Hgl Hlog Hg Ht Hd.
  unfold reload, checkFileReload, selectOBJFiles, when.
  apply keeps_bind.
  - destruct (Action_eqb (getKey KeyF1) Press); [|apply keeps_ret].
    apply keeps_bind; [apply keeps_read|]. intros d.
    apply keeps_bind; [apply keeps_act; intros w0; apply Hd|]. intros _.
    destruct answer as [files| |]; [|apply keeps_ret|apply keeps_ret].
    apply keeps_bind; [|intros _; apply keeps_ret].
    destruct (0 <? len files); [|apply keeps_ret].
    now apply keeps_update.
  - intros [files err].
    destruct (isNil err && (0 <? len files)); [|apply keeps_ret].
    apply keeps_bind; [now apply keeps_cleanupScene|]. intros _.
    apply keeps_bind; [now apply keeps_loadAllMeshes|]. intros sc.
    apply keeps_bind; [now apply keeps_update|]. intros _.
    apply keeps_act. intros w0. apply Ht.
Qed.

(** [renderScene] completes when the speed index is within the table. *)
Lemma renderScene_runs (program : Z) (w : World) :
  validIndex (globals w) -> exists w', renderScene program w = Some (tt, w').
Proof.
  intros Hi. destruct (CameraFacts.index_speedMultipliers _ Hi) as [m Hm].
  unfold renderScene.
  unfold bind at 1, glDo at 1, act at 1.
  unfold bind at 1, glDo at 1, act at 1.
  unfold bind at 1, read at 1.
  cbn [globals with_gl]. rewrite Hm.
  match goal with
  | |- exists w', ?c ?w0 = Some (tt, w') =>
      assert (total c) as Ht; [|destruct (Ht w0) as ([] & w' & E); eauto]
  end.
  repeat first [ apply total_forEach; intros ?
               | apply total_lift_bind
               | apply total_bind; [|intros ?]
               | apply total_ret | apply total_act | apply total_read ].
Qed.

(** The speed index stays within the table. *)
Lemma validIndex_cycleSpeed (a : Action) (g : Globals) :
  validIndex g -> validIndex (cycleSpeed a g).
Proof.
  intros Hi. unfold validIndex in *. change (len speedMultipliers) with 5 in *.
  rewrite (proj1 (CameraFacts.cycleSpeed_index a g Hi)).
  apply Z.mod_pos_bound. lia.
Qed.

(** A frame from a speed index within the table ends the process only in
    its reload step; one that completes leaves the index within the
    table. *)
Lemma frame_None (program : Z) (i : FrameInput) (w : World) :
  validIndex (globals w) ->
  (frame program i w = None
   <-> reload program (getKey i) (answer i)
              (with_globals
                 (fun _ => match processInput (getKey i) (clocked i (globals w)) with
                           | Some g0 => g0
                           | None => globals w
                           end) w) = None).
Proof.
  intros Hi. rewrite frame_run.
  destruct (CameraFacts.processInput_speed (getKey i) (clocked i (globals w)) Hi)
    as (g0 & -> & Hidx & _).
  destruct (reload program (getKey i) (answer i) (with_globals (fun _ => g0) w))
    as [[[] w1]|] eqn:E1; [|split; reflexivity].
  assert (validIndex (globals w1)) as Hi1.
  { refine (InvariantFacts.maintains_reload validIndex _ _ _
              program (getKey i) (answer i) _ _ _ _ E1).
    - intros b g Hg. exact Hg.
    - intros sc g Hg. exact Hg.
    - intros d g Hg. exact Hg.
    - cbn [globals with_globals]. unfold validIndex. rewrite Hidx.
      apply (validIndex_cycleSpeed _ (clocked i (globals w))). exact Hi. }
  destruct (renderScene_runs program w1 Hi1) as (w2 & ->).
  destruct (total_PollEvents (events i) w2) as ([] & w3 & ->).
  split; discriminate.
Qed.

Lemma frame_validIndex (program : Z) (i : FrameInput) (w w' : World) (u : unit) :
  validIndex (globals w) -> frame program i w = Some (u, w') ->
  validIndex (globals w').
Proof.
  intros Hi E.
  destruct (FrameInvariants.frame_speed_index program i w w' u E) as [Hidx _].
  unfold validIndex. rewrite Hidx.
  apply (validIndex_cycleSpeed _ (globals w)). exact Hi.
Qed.

(** What a completed frame leaves of the closing flag and of the pauses. *)
Lemma frame_shouldClose (program : Z) (i : FrameInput) (w w' : World) (u : unit) :
  frame program i w = Some (u, w') ->
  shouldClose w' = shouldClose w || existsb closes (events i).
Proof.
  rewrite frame_run.
  destruct (processInput _ _) as [g0|]; [|discriminate].
  destruct (reload _ _ _ _) as [[[] w1]|] eqn:E1; [|discriminate].
  destruct (renderScene program w1) as [[[] w2]|] eqn:E2; [|discriminate].
  destruct (PollEvents (events i) w2) as [[[] w3]|] eqn:E3; [|discriminate].
  intros [= <- <-]. cbn [shouldClose Sleep].
  rewrite (PollEvents_shouldClose _ _ _ _ E3).
  rewrite (keeps_renderScene shouldClose (fun _ _ => eq_refl)
             program (fun _ _ => eq_refl) _ _ _ E2).
  rewrite (keeps_reload shouldClose program _ _
             (fun _ _ => eq_refl) (fun _ _ => eq_refl) (fun _ _ => eq_refl)
             (fun _ _ => eq_refl) (fun _ _ => eq_refl) _ _ _ E1).
  reflexivity.
Qed.

Lemma frame_pauses (program : Z) (i : FrameInput) (w w' : World) (u : unit) :
  frame program i w = Some (u, w') ->
  pauses w'
  = pauses w ++ [Z.max 0 (pacing (sub64 (now i) (lastFrame (globals w))))].
Proof.
  intros E.
  destruct (InvariantFacts.frame_after_input
              (fun g => deltaTime g = sub64 (now i) (lastFrame (globals w)))
              ltac:(intros b g HQ; exact HQ)
              ltac:(intros sc g HQ; exact HQ)
              ltac:(intros d g HQ; exact HQ)
              program i w w' u E) as (g1 & EP & Hrest).
  assert (deltaTime (globals w') = sub64 (now i) (lastFrame (globals w))) as Hd.
  { apply Hrest.
    - apply Forall_forall. intros e _.
      destruct e as [x y | k a |]; cbn [dispatch].
      + apply InvariantFacts.maintains_update. intros g Hg.
        rewrite <- Hg. unfold mouseCallback.
        destruct (firstMouse g); [reflexivity|].
        cbn [set_lastX set_lastY set_yaw set_pitch yaw pitch lastX lastY].
        repeat match goal with
          | |- context [if ?b then _ else _] => destruct b
          end; reflexivity.
      + apply FrameInvariants.maintains_keyCallback.
      + apply InvariantFacts.maintains_act. reflexivity.
    - destruct (processInput_moves _ _ _ EP) as [v ->].
      unfold cycleSpeed, clocked.
      destruct (Action_eqb _ Press && _); reflexivity. }
  clear Hrest EP. revert E. rewrite frame_run.
  destruct (processInput _ _) as [g0|]; [|discriminate].
  destruct (reload _ _ _ _) as [[[] w1]|] eqn:E1; [|discriminate].
  destruct (renderScene program w1) as [[[] w2]|] eqn:E2; [|discriminate].
  destruct (PollEvents (events i) w2) as [[[] w3]|] eqn:E3; [|discriminate].
  intros [= <- <-]. cbn [globals Sleep] in Hd. cbn [pauses Sleep]. rewrite Hd.
  rewrite (keeps_PollEvents pauses _ (fun _ _ => eq_refl) (fun _ _ => eq_refl)
             _ _ _ E3).
  rewrite (keeps_renderScene pauses (fun _ _ => eq_refl)
             program (fun _ _ => eq_refl) _ _ _ E2).
  rewrite (keeps_reload pauses program _ _
             (fun _ _ => eq_refl) (fun _ _ => eq_refl) (fun _ _ => eq_refl)
             (fun _ _ => eq_refl) (fun _ _ => eq_refl) _ _ _ E1).
  reflexivity.
Qed.

(** The loop runs no frame once the window should close. *)
Lemma mainLoop_closed (program : Z) (inputs : list FrameInput) (w : World) :
  shouldClose w = true -> mainLoop program inputs w = Some (tt, w).
Proof.
  intros Hc. destruct inputs as [|i rest]; [reflexivity|].
  cbn [mainLoop]. unfold bind, read. now rewrite Hc.
Qed.

Lemma mainLoop_open (program : Z) (i : FrameInput) (rest : list FrameInput)
      (w : World) :
  shouldClose w = false ->
  mainLoop program (i :: rest) w
  = match frame program i w with
    | Some (_, w') => mainLoop program rest w'
    | None => None
    end.
Proof.
  intros Hc. cbn [mainLoop]. unfold bind at 1, read. rewrite Hc.
  unfold bind. destruct (frame program i w) as [[[] w']|]; reflexivity.
Qed.

End Loop.
End LoopFacts.

(** X17.  A frame that completes leaves the closing flag set exactly when
    it was set before or one of the events polled sets it: the Escape key
    going down, which [keyCallback] answers, or a request to close the
    window, which [glfw.PollEvents] answers itself.  No other key, no
    other action of Escape, no cursor sample and nothing else in the
    frame sets the flag, and nothing clears it. *)
Theorem frame_close_flag :
  forall (M : Collab.Mgl32) (H : Collab.Host) (G : Collab.GLDriver)
         (program : Z) (i : Viewer.FrameInput) (w w' : Viewer.World),
    Viewer.frame program i w = Some (tt, w') ->
    Viewer.shouldClose w'
    = Viewer.shouldClose w || existsb Behaviour.closes (Viewer.events i).
Proof. intros M H G program i w w'. apply LoopFacts.frame_shouldClose. Qed.

Lemma frame_close_flag_witness :
  let request :=
    @Viewer.mkFrameInput (Float.int64_to64 0) Double.shiftUp Collab.Canceled
      [Collab.KeyEvent Collab.KeyEscape Collab.Release;
       Collab.WindowClose] in
  exists w',
    @Viewer.frame Double.mgl32 Double.host Double.driver 1 request
                  Double.initialWorld
    = Some (tt, w')
    /\ Viewer.shouldClose w' = true.
Proof.
  cbv zeta.
  assert (match @Viewer.frame Double.mgl32 Double.host Double.driver 1
                  (@Viewer.mkFrameInput (Float.int64_to64 0) Double.shiftUp
                     Collab.Canceled
                     [Collab.KeyEvent Collab.KeyEscape Collab.Release;
                      Collab.WindowClose])
                  Double.initialWorld with
          | Some _ => true
          | None => false
          end = true) as Hruns by (vm_compute; reflexivity).
  destruct (@Viewer.frame Double.mgl32 Double.host Double.driver 1
              (@Viewer.mkFrameInput (Float.int64_to64 0) Double.shiftUp
                 Collab.Canceled
                 [Collab.KeyEvent Collab.KeyEscape Collab.Release;
                  Collab.WindowClose])
              Double.initialWorld) as [[[] w']|] eqn:E; [|discriminate Hruns].
  exists w'. split; [reflexivity|].
  exact (frame_close_flag Double.mgl32 Double.host Double.driver 1 _ _ w' E).
Defined.

(** X18.  Once the closing flag is set the loop runs no further frame;
    and the frame in which Escape goes down is run to its end (the scene
    is drawn and the pause taken) and is the last. *)
Theorem escape_ends_loop :
  forall (M : Collab.Mgl32) (H : Collab.Host) (G : Collab.GLDriver)
         (program : Z) (i : Viewer.FrameInput) (rest : list Viewer.FrameInput)
         (w : Viewer.World),
    (Viewer.shouldClose w = true ->
     Viewer.mainLoop program (i :: rest) w = Some (tt, w))
    /\ (Viewer.shouldClose w = false ->
        existsb Behaviour.isEscape (Viewer.events i) = true ->
        Viewer.mainLoop program (i :: rest) w = Viewer.frame program i w).
Proof.
  intros M H G program i rest w. split.
  - apply LoopFacts.mainLoop_closed.
  - intros Hc He. rewrite (LoopFacts.mainLoop_open program i rest w Hc).
    destruct (Viewer.frame program i w) as [[[] w']|] eqn:E; [|reflexivity].
    apply LoopFacts.mainLoop_closed.
    rewrite (LoopFacts.frame_shouldClose program i w w' tt E),
      (LoopFacts.isEscape_closes _ He).
    apply orb_true_r.
Qed.

Lemma escape_ends_loop_witness :
  let escape :=
    @Viewer.mkFrameInput (Float.int64_to64 0) Double.shiftUp Collab.Canceled
      [Collab.KeyEvent Collab.KeyEscape Collab.Press] in
  @Viewer.mainLoop Double.mgl32 Double.host Double.driver 1 [escape; escape]
                   Double.initialWorld
  = @Viewer.frame Double.mgl32 Double.host Double.driver 1 escape
                  Double.initialWorld.
Proof.
  cbv zeta.
  apply (proj2 (escape_ends_loop Double.mgl32 Double.host Double.driver 1
                  (@Viewer.mkFrameInput (Float.int64_to64 0) Double.shiftUp
                     Collab.Canceled
                     [Collab.KeyEvent Collab.KeyEscape Collab.Press])
                  [@Viewer.mkFrameInput (Float.int64_to64 0) Double.shiftUp
                     Collab.Canceled
                     [Collab.KeyEvent Collab.KeyEscape Collab.Press]]
                  Double.initialWorld)); reflexivity.
Defined.

(** X19.  Every frame that completes takes exactly one pause, at its end,
    and its length is computed from the time between the clock readings
    of this frame and of the one before; when that time is from 0 up to 1
    second, the pause is 16666666 ns. *)
Theorem frame_pauses_once :
  forall (M : Collab.Mgl32) (H : Collab.Host) (G : Collab.GLDriver)
         (program : Z) (i : Viewer.FrameInput) (w w' : Viewer.World),
    Viewer.frame program i w = Some (tt, w') ->
    let delta :=
      Float.sub64 (Viewer.now i) (Viewer.lastFrame (Viewer.globals w)) in
    Viewer.pauses w' = Viewer.pauses w ++ [Z.max 0 (Viewer.pacing delta)]
    /\ (valid_binary 53 1024 (Viewer.now i) = true ->
        valid_binary 53 1024 (Viewer.lastFrame (Viewer.globals w)) = true ->
        Float.leb (Float.int64_to64 0) delta = true ->
        Float.ltb delta (Float.int64_to64 1) = true ->
        Viewer.pauses w' = Viewer.pauses w ++ [16666666]).
Proof.
  intros M H G program i w w' E delta.
  pose proof (LoopFacts.frame_pauses program i w w' tt E) as Hp.
  fold delta in Hp. split; [exact Hp|].
  intros Hnow Hlast Hlo Hhi. rewrite Hp.
  assert (valid_binary 53 1024 delta = true) as Hv
      by (apply ValidFacts.SFsub_valid; assumption).
  now rewrite (PacingFacts.pacing_below_one_second delta Hv Hlo Hhi).
Qed.

Lemma frame_pauses_once_witness :
  let half :=
    @Viewer.mkFrameInput (Float.dec64 1 2) Double.shiftUp Collab.Canceled [] in
  exists w',
    @Viewer.frame Double.mgl32 Double.host Double.driver 1 half
                  Double.initialWorld
    = Some (tt, w')
    /\ Viewer.pauses w' = [16666666].
Proof.
  cbv zeta.
  assert (match @Viewer.frame Double.mgl32 Double.host Double.driver 1
                  (@Viewer.mkFrameInput (Float.dec64 1 2) Double.shiftUp
                     Collab.Canceled [])
                  Double.initialWorld with
          | Some _ => true
          | None => false
          end = true) as Hruns by (vm_compute; reflexivity).
  destruct (@Viewer.frame Double.mgl32 Double.host Double.driver 1
              (@Viewer.mkFrameInput (Float.dec64 1 2) Double.shiftUp
                 Collab.Canceled [])
              Double.initialWorld) as [[[] w']|] eqn:E; [|discriminate Hruns].
  exists w'. split; [reflexivity|].
  apply (proj2 (frame_pauses_once Double.mgl32 Double.host Double.driver 1 _ _ w' E));
    vm_compute; reflexivity.
Defined.

(** X20.  From a speed index within the table, a frame ends the process
    in one case only: F1 is down and the dialog returns a selection with
    a file that does not open.  Indexing the table of speed multipliers
    never goes out of range. *)
Theorem frame_fatal :
  forall (M : Collab.Mgl32) (H : Collab.Host) (G : Collab.GLDriver)
         (program : Z) (i : Viewer.FrameInput) (w : Viewer.World),
    Behaviour.validIndex (Viewer.globals w) ->
    (Viewer.frame program i w = None
     <-> Viewer.pressed (Viewer.getKey i) Collab.KeyF1 = true
         /\ exists first rest,
              Viewer.answer i = Collab.Selected (first :: rest)
              /\ Exists (fun f => Collab.openFile f = None) (first :: rest)).
Proof.
  intros M H G program i w Hi.
  rewrite (LoopFacts.frame_None program i w Hi).
  apply ReloadFacts.reload_None.
Qed.

Lemma frame_fatal_witness :
  @Viewer.frame Double.mgl32 Double.host Double.driver 1
     (@Viewer.mkFrameInput (Float.int64_to64 0) Double.f1Down
        (Collab.Selected ["triangle.obj"; "missing.obj"]) [])
     Double.initialWorld
  = None.
Proof.
  apply (frame_fatal Double.mgl32 Double.host Double.driver 1
           (@Viewer.mkFrameInput (Float.int64_to64 0) Double.f1Down
              (Collab.Selected ["triangle.obj"; "missing.obj"]) [])
           Double.initialWorld).
  - unfold Behaviour.validIndex. vm_compute. split; [discriminate | reflexivity].
  - split; [reflexivity|]. exists "triangle.obj", ["missing.obj"].
    split; [reflexivity|]. apply Exists_cons_tl. apply Exists_cons_hd.
    reflexivity.
Defined.


Module MainFacts.
Import GoInt Float Mesh Collab Viewer Spec Behaviour RunFacts.

Section Main.
Context {M : Mgl32} {H : Host} {G : GLDriver}.

Lemma readable_runs (program : Z) (i : FrameInput) (w : World) :
  validIndex (globals w) -> readable i ->
  exists w', frame program i w = Some (tt, w').
Proof.
  intros Hi Hr.
  destruct (frame program i w) as [[[] w']|] eqn:E; [now exists w'|].
  apply (LoopFacts.frame_None program i w Hi) in E.
  apply ReloadFacts.reload_None in E.
  destruct E as (_ & first & rest & Ha & Hex).
  destruct (LoadFacts.opens_not_both _ (Hr _ Ha) Hex).
Qed.

Lemma mainLoop_runs (program : Z) (inputs : list FrameInput) (w : World) :
  validIndex (globals w) -> Forall readable inputs ->
  exists w', mainLoop program inputs w = Some (tt, w') /\ validIndex (globals w').
Proof.
  intros Hi Hall. revert w Hi.
  induction Hall as [|i rest Hr _ IH]; intros w Hi.
  - exists w. split; [reflexivity | exact Hi].
  - destruct (shouldClose w) eqn:Hc.
    + exists w. split; [now apply LoopFacts.mainLoop_closed | exact Hi].
    + rewrite (LoopFacts.mainLoop_open program i rest w Hc).
      destruct (readable_runs program i w Hi Hr) as (w1 & E). rewrite E.
      apply IH. exact (LoopFacts.frame_validIndex program i w w1 tt Hi E).
Qed.

Lemma mainLoop_pitch (program : Z) (inputs : list FrameInput) (w w' : World)
      (u : unit) :
  inRange (pitch (globals w)) -> isFinite (lastY (globals w)) = true ->
  Forall (fun i => Forall finiteCursor (events i)) inputs ->
  mainLoop program inputs w = Some (u, w') ->
  inRange (pitch (globals w')) /\ isFinite (lastY (globals w')) = true.
Proof.
  intros Hp Hl Hall. revert w Hp Hl.
  induction Hall as [|i rest Hev _ IH]; intros w Hp Hl.
  - intros [= _ <-]. auto.
  - destruct (shouldClose w) eqn:Hc.
    + rewrite (LoopFacts.mainLoop_closed program (i :: rest) w Hc).
      intros [= _ <-]. auto.
    + rewrite (LoopFacts.mainLoop_open program i rest w Hc).
      destruct (frame program i w) as [[[] w1]|] eqn:E; [|discriminate].
      destruct (FrameInvariants.frame_keeps_pitch program i w w1 tt Hp Hl Hev E)
        as [Hp1 Hl1].
      now apply IH.
Qed.

End Main.
End MainFacts.

(** X21.  From a speed index within the table, and with dialogs that
    select only files that open, the loop runs every frame it is given
    (up to the one that sets the closing flag) without ending the
    process, and leaves the index within the table. *)
Theorem mainLoop_completes :
  forall (M : Collab.Mgl32) (H : Collab.Host) (G : Collab.GLDriver)
         (program : Z) (inputs : list Viewer.FrameInput) (w : Viewer.World),
    Behaviour.validIndex (Viewer.globals w) ->
    Forall Behaviour.readable inputs ->
    exists w',
      Viewer.mainLoop program inputs w = Some (tt, w')
      /\ Behaviour.validIndex (Viewer.globals w').
Proof. intros M H G. apply MainFacts.mainLoop_runs. Qed.

Lemma mainLoop_completes_witness :
  exists w',
    @Viewer.mainLoop Double.mgl32 Double.host Double.driver 1
       [@Viewer.mkFrameInput (Float.int64_to64 0) Double.f1Down
          (Collab.Selected ["triangle.obj"]) [];
        @Viewer.mkFrameInput (Float.int64_to64 1) Double.shiftDown
          Collab.Canceled []]
       Double.initialWorld
    = Some (tt, w')
    /\ @Behaviour.validIndex Double.mgl32 (Viewer.globals w').
Proof.
  apply (mainLoop_completes Double.mgl32 Double.host Double.driver 1).
  - unfold Behaviour.validIndex. vm_compute. split; [discriminate | reflexivity].
  - constructor; [|constructor; [|constructor]].
    + intros files Ha. cbn in Ha. injection Ha as <-.
      constructor; [|constructor]. intros Hc. vm_compute in Hc. discriminate Hc.
    + intros files Ha. cbn in Ha. discriminate Ha.
Defined.

(** X22.  Through the whole loop the pitch stays from -89 to 89, when it
    starts there and the cursor positions received have finite heights:
    the mouse callback clamps it and a reload resets it to -20. *)
Theorem mainLoop_keeps_pitch :
  forall (M : Collab.Mgl32) (H : Collab.Host) (G : Collab.GLDriver)
         (program : Z) (inputs : list Viewer.FrameInput) (w w' : Viewer.World),
    Spec.inRange (Viewer.pitch (Viewer.globals w)) ->
    Float.isFinite (Viewer.lastY (Viewer.globals w)) = true ->
    Forall (fun i => Forall Behaviour.finiteCursor (Viewer.events i)) inputs ->
    Viewer.mainLoop program inputs w = Some (tt, w') ->
    Spec.inRange (Viewer.pitch (Viewer.globals w')).
Proof.
  intros M H G program inputs w w' Hp Hl Hall E.
  exact (proj1 (MainFacts.mainLoop_pitch program inputs w w' tt Hp Hl Hall E)).
Qed.

Lemma mainLoop_keeps_pitch_witness :
  let look :=
    @Viewer.mkFrameInput (Float.int64_to64 0) Double.shiftUp Collab.Canceled
      [Collab.CursorPos (Float.int64_to64 640) (Float.int64_to64 360);
       Collab.CursorPos (Float.int64_to64 640) (Float.int64_to64 (-5000))] in
  exists w',
    @Viewer.mainLoop Double.mgl32 Double.host Double.driver 1 [look; look]
                     Double.initialWorld
    = Some (tt, w')
    /\ Spec.inRange (Viewer.pitch (Viewer.globals w')).
Proof.
  cbv zeta.
  assert (match @Viewer.mainLoop Double.mgl32 Double.host Double.driver 1
                  [@Viewer.mkFrameInput (Float.int64_to64 0) Double.shiftUp
                     Collab.Canceled
                     [Collab.CursorPos (Float.int64_to64 640) (Float.int64_to64 360);
                      Collab.CursorPos (Float.int64_to64 640)
                                       (Float.int64_to64 (-5000))];
                   @Viewer.mkFrameInput (Float.int64_to64 0) Double.shiftUp
                     Collab.Canceled
                     [Collab.CursorPos (Float.int64_to64 640) (Float.int64_to64 360);
                      Collab.CursorPos (Float.int64_to64 640)
                                       (Float.int64_to64 (-5000))]]
                  Double.initialWorld with
          | Some _ => true
          | None => false
          end = true) as Hruns by (vm_compute; reflexivity).
  destruct (@Viewer.mainLoop Double.mgl32 Double.host Double.driver 1
              [@Viewer.mkFrameInput (Float.int64_to64 0) Double.shiftUp
                 Collab.Canceled
                 [Collab.CursorPos (Float.int64_to64 640) (Float.int64_to64 360);
                  Collab.CursorPos (Float.int64_to64 640)
                                   (Float.int64_to64 (-5000))];
               @Viewer.mkFrameInput (Float.int64_to64 0) Double.shiftUp
                 Collab.Canceled
                 [Collab.CursorPos (Float.int64_to64 640) (Float.int64_to64 360);
                  Collab.CursorPos (Float.int64_to64 640)
                                   (Float.int64_to64 (-5000))]]
              Double.initialWorld) as [[[] w']|] eqn:E; [|discriminate Hruns].
  exists w'. split; [reflexivity|].
  refine (mainLoop_keeps_pitch Double.mgl32 Double.host Double.driver 1 _
            Double.initialWorld w' _ _ _ E).
  - split; vm_compute; reflexivity.
  - reflexivity.
  - repeat constructor.
Defined.

Module DirectoryFacts.
Import GoInt Float Mesh Collab Viewer Spec Behaviour RunFacts.

Section Directory.
Context {M : Mgl32} {H : Host} {G : GLDriver}.


Lemma reload_lastDirectory (program : Z) (getKey : Key -> Action)
      (answer : DialogAnswer) (w w' : World) (u : unit) :
  reload program getKey answer w = Some (u, w') ->
  lastDirectory (globals w')
  = nextDirectory getKey answer (lastDirectory (globals w)).
Proof.
  intros E. unfold nextDirectory.
  destruct (pressed getKey KeyF1) eqn:Hk.
  2:{ destruct (FrameFacts.reload_idle program getKey answer w
                  ltac:(left; exact Hk)) as (w0 & E0 & Hg & _).
      rewrite E0 in E. injection E as _ <-. rewrite Hg.
      destruct answer as [[|f fs]| |]; reflexivity. }
  destruct answer as [[|first rest]| |].
  2:{ rewrite (ReloadFacts.reload_selected program getKey first rest w Hk) in E.
      match type of E with
      | context [loadAllMeshes program (first :: rest) ?w0] =>
          destruct (loadAllMeshes program (first :: rest) w0)
            as [[sc w2]|] eqn:E2; [|discriminate E]
      end.
      destruct (LoadFacts.loadAllMeshes_Some _ _ _ _ _ E2) as (_ & _ & Hg).
      injection E as _ <-.
      cbn [SetTitle with_globals globals set_scene lastDirectory].
      rewrite Hg. reflexivity. }
  all: match type of E with
       | reload _ _ ?a _ = _ =>
           destruct (FrameFacts.reload_idle program getKey a w
                       ltac:(right; auto)) as (w0 & E0 & Hg & _)
       end;
    rewrite E0 in E; injection E as _ <-; now rewrite Hg.
Qed.

Lemma mouseCallback_lastDirectory (xpos ypos : float64) (g : Globals) :
  lastDirectory (mouseCallback xpos ypos g) = lastDirectory g.
Proof.
  unfold mouseCallback. destruct (firstMouse g); [reflexivity|].
  cbn [set_lastX set_lastY set_yaw set_pitch yaw pitch lastX lastY].
  repeat match goal with
    | |- context [if ?b then _ else _] => destruct b
    end; reflexivity.
Qed.

Lemma frame_lastDirectory (program : Z) (i : FrameInput) (w w' : World) (u : unit) :
  frame program i w = Some (u, w') ->
  lastDirectory (globals w')
  = nextDirectory (getKey i) (answer i) (lastDirectory (globals w)).
Proof.
  rewrite LoopFacts.frame_run.
  destruct (processInput _ _) as [g0|] eqn:EP; [|discriminate].
  destruct (reload _ _ _ _) as [[[] w1]|] eqn:E1; [|discriminate].
  destruct (renderScene program w1) as [[[] w2]|] eqn:E2; [|discriminate].
  destruct (PollEvents (events i) w2) as [[[] w3]|] eqn:E3; [|discriminate].
  intros [= <- <-]. cbn [globals Sleep].
  pose proof (reload_lastDirectory _ _ _ _ _ _ E1) as H1.
  cbn [globals with_globals] in H1.
  rewrite (FrameFacts.processInput_lastDirectory _ _ _ EP) in H1.
  unfold clocked in H1. cbn [set_lastFrame set_deltaTime lastDirectory] in H1.
  rewrite <- H1.
  transitivity (lastDirectory (globals w2)).
  - refine (InvariantFacts.maintains_forEach
              (fun g => lastDirectory g = lastDirectory (globals w2))
              (events i) dispatch _ w2 tt w3 eq_refl E3).
    apply Forall_forall. intros e _. destruct e as [x y | k a |]; cbn [dispatch].
    + apply InvariantFacts.maintains_update. intros g Hg.
      now rewrite mouseCallback_lastDirectory.
    + apply FrameInvariants.maintains_keyCallback.
    + apply InvariantFacts.maintains_act. reflexivity.
  - exact (InvariantFacts.maintains_renderScene
             (fun g => lastDirectory g = lastDirectory (globals w1))
             program w1 tt w2 eq_refl E2).
Qed.

End Directory.
End DirectoryFacts.

(** X23.  The directory that seeds the dialog changes in one way only: a
    frame with F1 down whose dialog returns a selection leaves it at the
    directory of the first selected file.  Every other frame that
    completes (F1 up, the dialog cancelled or failed, an empty selection)
    leaves it as it was. *)
Theorem last_directory_follows_selection :
  forall (M : Collab.Mgl32) (H : Collab.Host) (G : Collab.GLDriver)
         (program : Z) (i : Viewer.FrameInput) (w w' : Viewer.World),
    Viewer.frame program i w = Some (tt, w') ->
    Viewer.lastDirectory (Viewer.globals w')
    = match Viewer.answer i with
      | Collab.Selected (first :: _) =>
          if Viewer.pressed (Viewer.getKey i) Collab.KeyF1
          then Collab.Dir first
          else Viewer.lastDirectory (Viewer.globals w)
      | _ => Viewer.lastDirectory (Viewer.globals w)
      end.
Proof.
  intros M H G program i w w' E.
  exact (DirectoryFacts.frame_lastDirectory program i w w' tt E).
Qed.

Lemma last_directory_follows_selection_witness :
  exists w',
    @Viewer.frame Double.mgl32 Double.host Double.driver 1
       (@Viewer.mkFrameInput (Float.int64_to64 0) Double.f1Down
          (Collab.Selected ["triangle.obj"; "cloud.obj"]) [])
       Double.initialWorld
    = Some (tt, w')
    /\ Viewer.lastDirectory (Viewer.globals w') = "triangle.obj".
Proof.
  assert (match @Viewer.frame Double.mgl32 Double.host Double.driver 1
                  (@Viewer.mkFrameInput (Float.int64_to64 0) Double.f1Down
                     (Collab.Selected ["triangle.obj"; "cloud.obj"]) [])
                  Double.initialWorld with
          | Some _ => true
          | None => false
          end = true) as Hruns by (vm_compute; reflexivity).
  destruct (@Viewer.frame Double.mgl32 Double.host Double.driver 1
              (@Viewer.mkFrameInput (Float.int64_to64 0) Double.f1Down
                 (Collab.Selected ["triangle.obj"; "cloud.obj"]) [])
              Double.initialWorld) as [[[] w']|] eqn:E; [|discriminate Hruns].
  exists w'. split; [reflexivity|].
  exact (last_directory_follows_selection
           Double.mgl32 Double.host Double.driver 1 _ _ w' E).
Defined.

(** ** The one-mesh variants and [main] *)

Module VariantFacts.
Import GoInt Float Mesh Collab Viewer Variants Spec Behaviour RunFacts.

Section Variant.
Context {M : Mgl32} {H : Host} {G : GLDriver}.

(** [render] is [renderScene] on the scene of its one mesh. *)
Lemma render_renderScene (program : Z) (meshData : MeshData) (w : World) :
  scene (globals w) = mkScene [meshData] (bounds meshData) ->
  render program meshData w = renderScene program w.
Proof.
  intros Hs. unfold render, renderScene.
  unfold bind at 1, glDo at 1, act at 1.
  unfold bind at 1, glDo at 1, act at 1.
  unfold bind at 1, read at 1.
  symmetry.
  unfold bind at 1, glDo at 1, act at 1.
  unfold bind at 1, glDo at 1, act at 1.
  unfold bind at 1, read at 1.
  cbn [globals with_gl]. rewrite Hs. cbn [meshes sceneBounds forEach].
  unfold maxSizeOf, bind, glDo, act, uniformLocation, read, ret.
  reflexivity.
Qed.


Lemma apart_ret (f : Globals -> Globals) {A} (a : A) : apart f (ret a).
Proof. intros w. reflexivity. Qed.

Lemma apart_glDo (f : Globals -> Globals) (c : GLCall) : apart f (glDo c).
Proof. intros w. reflexivity. Qed.

Lemma apart_genVertexArrays (f : Globals -> Globals) : apart f genVertexArrays.
Proof.
  intros w. unfold genVertexArrays. cbn [gl with_globals].
  destruct (GenVertexArrays (gl w)). reflexivity.
Qed.

Lemma apart_genBuffers (f : Globals -> Globals) : apart f genBuffers.
Proof.
  intros w. unfold genBuffers. cbn [gl with_globals].
  destruct (GenBuffers (gl w)). reflexivity.
Qed.

Lemma apart_bind (f : Globals -> Globals) {A B} (c : Cmd A) (k : A -> Cmd B) :
  apart f c -> (forall a, apart f (k a)) -> apart f (bind c k).
Proof.
  intros Hc Hk w. unfold bind. rewrite Hc.
  destruct (c w) as [[a w1]|]; [apply Hk | reflexivity].
Qed.

Lemma apart_upload (f : Globals -> Globals) (vertices : list float32)
      (indices : list Z) (bounds : Bounds) :
  apart f (upload vertices indices bounds).
Proof.
  unfold upload.
  repeat first [ apply apart_ret | apply apart_glDo
               | apply apart_bind;
                 [first [apply apart_genVertexArrays | apply apart_genBuffers
                        | apply apart_glDo] | intros ?] ].
Qed.

Lemma upload_fields (vertices0 : list float32) (indices0 : list Z) (bounds0 : Bounds) :
  returns (fun m => vertices m = vertices0 /\ indices m = indices0
                    /\ bounds m = bounds0)
          (upload vertices0 indices0 bounds0).
Proof.
  unfold upload. repeat (apply returns_bind; intros ?).
  apply returns_ret. repeat split.
Qed.

(** The two loaders, step by step. *)
Lemma loadSingleMesh_run (program : Z) (filename : string) (w : World) :
  loadSingleMesh program filename w
  = match loadOBJFile ParseFloat32 openFile filename with
    | None => None
    | Some (vs, ixs, out) =>
        let w0 := with_logged (fun l => l ++ out) w in
        if (len vs =? 0) || (len ixs =? 0)
        then Some (emptyMesh,
                   with_logged (fun l => l ++ [LogNoMeshData filename]) w0)
        else match calculateBounds vs with
             | None => None
             | Some (b, out') =>
                 upload vs ixs b (with_logged (fun l => l ++ out') w0)
             end
    end.
Proof.
  unfold loadSingleMesh, upload.
  destruct (loadOBJFile ParseFloat32 openFile filename) as [[[vs ixs] out]|];
    [|reflexivity].
  cbv zeta. unfold bind at 1, lift at 1. unfold bind at 1, logPrint at 1, act at 1.
  destruct ((len vs =? 0) || (len ixs =? 0)); [reflexivity|].
  unfold bind at 1, lift at 1.
  destruct (calculateBounds vs) as [[b out']|]; reflexivity.
Qed.

Lemma loadAndSetupMesh_run (program : Z) (filename : string) (w : World) :
  loadAndSetupMesh program filename w
  = match loadOBJFile ParseFloat32 openFile filename with
    | None => None
    | Some (vs, ixs, out) =>
        let w0 := with_logged (fun l => l ++ out) w in
        if (len vs =? 0) || (len ixs =? 0)
        then None
        else match calculateBounds vs with
             | None => None
             | Some (b, out') =>
                 upload vs ixs b
                   (with_globals (initializeCamera b)
                      (with_logged (fun l => l ++ out') w0))
             end
    end.
Proof.
  unfold loadAndSetupMesh, upload.
  destruct (loadOBJFile ParseFloat32 openFile filename) as [[[vs ixs] out]|];
    [|reflexivity].
  cbv zeta. unfold bind at 1, lift at 1. unfold bind at 1, logPrint at 1, act at 1.
  destruct ((len vs =? 0) || (len ixs =? 0)); [reflexivity|].
  unfold bind at 1, lift at 1.
  destruct (calculateBounds vs) as [[b out']|]; reflexivity.
Qed.

(** The loader of one mesh against the loader of the scene's meshes. *)
Lemma loadAndSetupMesh_loadSingleMesh (program : Z) (filename : string)
      (w : World) :
  match loadSingleMesh program filename w with
  | None => loadAndSetupMesh program filename w = None
  | Some (m, w1) =>
      if (len (vertices m) =? 0) || (len (indices m) =? 0)
      then loadAndSetupMesh program filename w = None
      else loadAndSetupMesh program filename w
           = Some (m, with_globals (initializeCamera (bounds m)) w1)
  end.
Proof.
  rewrite loadSingleMesh_run, loadAndSetupMesh_run.
  destruct (loadOBJFile ParseFloat32 openFile filename) as [[[vs ixs] out]|];
    [|reflexivity].
  cbv zeta.
  destruct ((len vs =? 0) || (len ixs =? 0)) eqn:Edeg; [reflexivity|].
  destruct (calculateBounds vs) as [[b out']|]; [|reflexivity].
  rewrite apart_upload.
  destruct (upload vs ixs b _) as [[m w1]|] eqn:E; [|reflexivity].
  destruct (upload_fields vs ixs b _ _ _ E) as (-> & -> & ->).
  now rewrite Edeg.
Qed.

(** [main] completes only after a first dialog that selected files, all
    of which open. *)
Lemma main_needs_files (glfwInit : Cmd unit) (initializeWindow : string -> Cmd Z)
      (first : DialogAnswer) (inputs : list FrameInput) (w w' : World) (u : unit) :
  main glfwInit initializeWindow first inputs w = Some (u, w') ->
  exists f fs, first = Selected (f :: fs) /\ Forall opens (f :: fs).
Proof.
  unfold main. intros E.
  apply FrameFacts.bind_inv in E. destruct E as (? & w1 & _ & E).
  apply FrameFacts.bind_inv in E. destruct E as ([files err] & w2 & E2 & E).
  unfold selectOBJFiles in E2.
  apply FrameFacts.bind_inv in E2. destruct E2 as (? & w1' & _ & E2).
  destruct first as [selected| |].
  2,3: injection E2 as <- <- _; discriminate E.
  apply FrameFacts.bind_inv in E2. destruct E2 as (? & w1'' & _ & E2).
  injection E2 as <- <- _. cbn [isNil] in E.
  apply FrameFacts.bind_inv in E. destruct E as (program & w3 & _ & E).
  apply FrameFacts.bind_inv in E. destruct E as (sc & w4 & E4 & _).
  destruct selected as [|f fs]; [discriminate E4|].
  exists f, fs. split; [reflexivity|].
  destruct (LoadFacts.opens_or_not (f :: fs)) as [Hall | Hex]; [exact Hall|].
  rewrite (proj2 (LoadFacts.loadAllMeshes_None program (f :: fs) w3)
                 (or_intror Hex)) in E4.
  discriminate E4.
Qed.

End Variant.
End VariantFacts.

(** X24.  [main] runs to its end only after a first dialog that returned
    a selection of at least one file, all of which open: a dialog that is
    cancelled or fails, an empty selection, and a file that does not open
    each end the process before the first frame. *)
Theorem main_needs_readable_selection :
  forall (M : Collab.Mgl32) (H : Collab.Host) (G : Collab.GLDriver)
         (glfwInit : Viewer.Cmd unit) (initializeWindow : string -> Viewer.Cmd Z)
         (first : Collab.DialogAnswer) (inputs : list Viewer.FrameInput)
         (w w' : Viewer.World),
    Variants.main glfwInit initializeWindow first inputs w = Some (tt, w') ->
    exists f fs,
      first = Collab.Selected (f :: fs) /\ Forall Behaviour.opens (f :: fs).
Proof.
  intros M H G glfwInit initializeWindow first inputs w w'.
  apply VariantFacts.main_needs_files.
Qed.

Lemma main_needs_readable_selection_witness :
  exists w',
    @Variants.main Double.mgl32 Double.host Double.driver
       (Viewer.ret tt) (fun _ => Viewer.ret 1)
       (Collab.Selected ["triangle.obj"])
       [@Viewer.mkFrameInput (Float.int64_to64 0) Double.shiftUp Collab.Canceled []]
       Double.initialWorld
    = Some (tt, w')
    /\ Forall (@Behaviour.opens Double.host) ["triangle.obj"].
Proof.
  assert (match @Variants.main Double.mgl32 Double.host Double.driver
                  (Viewer.ret tt) (fun _ => Viewer.ret 1)
                  (Collab.Selected ["triangle.obj"])
                  [@Viewer.mkFrameInput (Float.int64_to64 0) Double.shiftUp
                     Collab.Canceled []]
                  Double.initialWorld with
          | Some _ => true
          | None => false
          end = true) as Hruns by (vm_compute; reflexivity).
  destruct (@Variants.main Double.mgl32 Double.host Double.driver
              (Viewer.ret tt) (fun _ => Viewer.ret 1)
              (Collab.Selected ["triangle.obj"])
              [@Viewer.mkFrameInput (Float.int64_to64 0) Double.shiftUp
                 Collab.Canceled []]
              Double.initialWorld) as [[[] w']|] eqn:E; [|discriminate Hruns].
  exists w'. split; [reflexivity|].
  destruct (main_needs_readable_selection
              Double.mgl32 Double.host Double.driver _ _ _ _ _ w' E)
    as (f & fs & Hsel & Hall).
  injection Hsel as <- <-. exact Hall.
Defined.

(** X25.  [loadAndSetupMesh] loads a file with mesh data into the record
    [loadSingleMesh] loads it into, with the driver in the same state, and
    frames the camera on its bounds besides; on a file without mesh data,
    where [loadSingleMesh] returns the placeholder, and on a file that
    does not open, it ends the process. *)
Theorem loadAndSetupMesh_agrees :
  forall (M : Collab.Mgl32) (H : Collab.Host) (G : Collab.GLDriver)
         (program : Z) (filename : string) (w : Viewer.World),
    match Viewer.loadSingleMesh program filename w with
    | None => Variants.loadAndSetupMesh program filename w = None
    | Some (m, w1) =>
        if (GoInt.len (Viewer.vertices m) =? 0) || (GoInt.len (Viewer.indices m) =? 0)
        then Variants.loadAndSetupMesh program filename w = None
        else Variants.loadAndSetupMesh program filename w
             = Some (m, Viewer.with_globals
                          (Viewer.initializeCamera (Viewer.bounds m)) w1)
    end.
Proof. intros M H G. apply VariantFacts.loadAndSetupMesh_loadSingleMesh. Qed.

(** X26.  [render] draws its mesh as [renderScene] draws a scene of that
    one mesh with the bounds of the mesh: the same calls reach the driver
    and the same title the window. *)
Theorem render_is_renderScene :
  forall (M : Collab.Mgl32) (G : Collab.GLDriver)
         (program : Z) (meshData : Viewer.MeshData) (w : Viewer.World),
    Viewer.scene (Viewer.globals w)
    = Viewer.mkScene [meshData] (Viewer.bounds meshData) ->
    Variants.render program meshData w = Viewer.renderScene program w.
Proof. intros M G. apply VariantFacts.render_renderScene. Qed.

Lemma render_is_renderScene_witness :
  let w :=
    @Viewer.with_globals Double.mgl32 Double.driver
      (Viewer.set_scene (Viewer.mkScene [Viewer.emptyMesh] Mesh.zeroBounds))
      Double.initialWorld in
  @Variants.render Double.mgl32 Double.driver 1 Viewer.emptyMesh w
  = @Viewer.renderScene Double.mgl32 Double.driver 1 w.
Proof.
  cbv zeta.
  apply (render_is_renderScene Double.mgl32 Double.driver 1 Viewer.emptyMesh).
  reflexivity.
Defined.

(** ** Single steps *)

Module StepFacts.
Import GoInt Float Mesh Collab Viewer Spec Behaviour.

Lemma Min_same (x : float64) : Min x x = x.
Proof.
  apply BoundsFacts.Min_lesser.
  destruct (BoundsFacts.lexle_total (rankMin x) (rankMin x)); assumption.
Qed.

Lemma Max_same (x : float64) : Max x x = x.
Proof.
  apply BoundsFacts.Max_lesser.
  destruct (BoundsFacts.lexle_total (rankMax x) (rankMax x)); assumption.
Qed.

Lemma min32_same (x : float32) : isFloat32 x -> min32 x x = x.
Proof.
  intros Hx. unfold min32. rewrite Min_same.
  now apply WidenFacts.valid_exact32.
Qed.

Lemma max32_same (x : float32) : isFloat32 x -> max32 x x = x.
Proof.
  intros Hx. unfold max32. rewrite Max_same.
  now apply WidenFacts.valid_exact32.
Qed.

Section Step.
Context {M : Mgl32} {H : Host}.

Lemma processInput_idle (getKey : Key -> Action) (g g' : Globals) :
  processInput getKey g = Some g' ->
  pressed getKey KeyW = false -> pressed getKey KeyS = false ->
  pressed getKey KeyA = false -> pressed getKey KeyD = false ->
  g' = cycleSpeed (getKey KeyLeftShift) g.
Proof.
  unfold processInput. intros E HW HS HA HD.
  destruct (index speedMultipliers _) as [mult|]; [|discriminate E].
  cbv zeta in E. rewrite HW, HS, HA, HD in E. now injection E as <-.
Qed.

End Step.
End StepFacts.

(** X27.  Combining a box with itself gives the box back, when its fields
    are [float32] values: a file listed twice adds nothing to the bounds
    of the scene. *)
Theorem combineBounds_idempotent :
  forall (b : Mesh.Bounds),
    Spec.validBounds b -> Mesh.combineBounds b b = b.
Proof.
  intros [x0 y0 z0 x1 y1 z1] (H1 & H2 & H3 & H4 & H5 & H6).
  cbn [Mesh.minX Mesh.minY Mesh.minZ Mesh.maxX Mesh.maxY Mesh.maxZ] in *.
  unfold Mesh.combineBounds.
  cbn [Mesh.minX Mesh.minY Mesh.minZ Mesh.maxX Mesh.maxY Mesh.maxZ].
  now rewrite !StepFacts.min32_same, !StepFacts.max32_same by assumption.
Qed.

Lemma combineBounds_idempotent_witness :
  Mesh.combineBounds
    (Mesh.mkBounds (Float.int_to32 (-1)) (Float.int_to32 0) (Float.int_to32 2)
                   (Float.int_to32 3) (Float.int_to32 4) (Float.int_to32 5))
    (Mesh.mkBounds (Float.int_to32 (-1)) (Float.int_to32 0) (Float.int_to32 2)
                   (Float.int_to32 3) (Float.int_to32 4) (Float.int_to32 5))
  = Mesh.mkBounds (Float.int_to32 (-1)) (Float.int_to32 0) (Float.int_to32 2)
                  (Float.int_to32 3) (Float.int_to32 4) (Float.int_to32 5).
Proof.
  apply (combineBounds_idempotent
           (Mesh.mkBounds (Float.int_to32 (-1)) (Float.int_to32 0) (Float.int_to32 2)
                          (Float.int_to32 3) (Float.int_to32 4) (Float.int_to32 5))).
  repeat split.
Defined.

(** X28.  From a speed index within the table [processInput] completes,
    and all it changes is the speed setting (the index and the last state
    of the shift key) and the position of the camera: the orientation,
    the cursor state, the clock and the scene are left alone.  With none
    of W, S, A and D down the position is left alone as well. *)
Theorem processInput_only_moves :
  forall (M : Collab.Mgl32)
         (getKey : Collab.Key -> Collab.Action) (g : Viewer.Globals),
    Behaviour.validIndex g ->
    exists g',
      Viewer.processInput getKey g = Some g'
      /\ g' = Viewer.set_cameraPos (Viewer.cameraPos g')
                (Viewer.cycleSpeed (getKey Collab.KeyLeftShift) g)
      /\ (Viewer.pressed getKey Collab.KeyW = false ->
          Viewer.pressed getKey Collab.KeyS = false ->
          Viewer.pressed getKey Collab.KeyA = false ->
          Viewer.pressed getKey Collab.KeyD = false ->
          Viewer.cameraPos g' = Viewer.cameraPos g).
Proof.
  intros M getKey g Hi.
  destruct (CameraFacts.processInput_speed getKey g Hi) as (g' & E & _).
  exists g'. split; [exact E|]. split.
  - destruct (LoopFacts.processInput_moves getKey g g' E) as [v ->]. reflexivity.
  - intros HW HS HA HD.
    rewrite (StepFacts.processInput_idle getKey g g' E HW HS HA HD).
    unfold Viewer.cycleSpeed. destruct (_ && _); reflexivity.
Qed.

Lemma processInput_only_moves_witness :
  exists g',
    @Viewer.processInput Double.mgl32 Double.shiftDown
                         Double.initialGlobals
    = Some g'
    /\ Viewer.cameraPos g' = Viewer.cameraPos Double.initialGlobals.
Proof.
  destruct (processInput_only_moves Double.mgl32 Double.shiftDown
              Double.initialGlobals) as (g' & E & _ & Hpos).
  - unfold Behaviour.validIndex. vm_compute. split; [discriminate | reflexivity].
  - exists g'. split; [exact E|]. apply Hpos; reflexivity.
Defined.

(** ** The axes of the mouse *)

Module AxisFacts.
Import GoInt Float Mesh Collab Viewer Spec Behaviour.

(** A finite number minus itself is +0. *)
Lemma sub64_same (x : float64) :
  isFinite x = true -> sub64 x x = S754_zero false.
Proof.
  destruct x as [[|]| | |s m e]; try discriminate; intros _; try reflexivity.
  unfold sub64. cbn [SFsub]. cbv zeta.
  match goal with
  | |- binary_normalize _ _ ?d _ _ = _ => replace d with 0 by lia
  end.
  reflexivity.
Qed.

Lemma no_offset (x : float64) :
  isFinite x = true -> mul64 (sub64 x x) mouseSensitivity = S754_zero false.
Proof. intros Hx. rewrite (sub64_same x Hx). reflexivity. Qed.

(** A number plus +0 is the number, but for -0, which gives +0. *)
Lemma add64_zero (x : float64) :
  isNaN x = false ->
  add64 x (S754_zero false) = x
  \/ (x = S754_zero true /\ add64 x (S754_zero false) = S754_zero false).
Proof.
  destruct x as [[|]|[|]| |[|] m e]; try discriminate; intros _;
    first [left; reflexivity | right; split; reflexivity].
Qed.

Lemma leb_not_ltb (x y : spec_float) : leb x y = true -> ltb y x = false.
Proof.
  destruct x as [[|]|[|]| |[|] m e], y as [[|]|[|]| |[|] m' e'];
    unfold ltb, leb, SFltb, SFleb, SFcompare;
    try reflexivity; try discriminate.
  all: change (Pos.compare_cont Eq m m') with (Pos.compare m m').
  all: change (Pos.compare_cont Eq m' m) with (Pos.compare m' m).
  all: destruct (Z.compare_spec e e'), (Z.compare_spec e' e); try lia.
  all: try reflexivity; try discriminate.
  all: destruct (Pos.compare_spec m m'), (Pos.compare_spec m' m); try lia.
  all: try reflexivity; try discriminate.
Qed.

Lemma inRange_unclamped (p : float64) :
  inRange p -> ltb pitchMax p = false /\ ltb p pitchMin = false.
Proof. intros [Hlo Hhi]. split; now apply leb_not_ltb. Qed.

Lemma eqb_same (x : float64) : isNaN x = false -> eqb x x = true.
Proof.
  destruct x as [[|]|[|]| |[|] m e]; try discriminate; intros _;
    try reflexivity.
  all: unfold eqb, SFeqb, SFcompare; rewrite Z.compare_refl.
  all: change (Pos.compare_cont Eq m m) with (Pos.compare m m).
  all: now rewrite Pos.compare_refl.
Qed.

Section Axis.
Context {M : Mgl32} {H : Host}.

(** A sample at the height of the last one turns the yaw only: the pitch
    is numerically as before. *)
Lemma mouseCallback_level (xpos : float64) (g : Globals) :
  firstMouse g = false -> isFinite (lastY g) = true -> inRange (pitch g) ->
  eqb (pitch (mouseCallback xpos (lastY g) g)) (pitch g) = true
  /\ yaw (mouseCallback xpos (lastY g) g)
     = add64 (yaw g) (mul64 (sub64 xpos (lastX g)) mouseSensitivity).
Proof.
  intros Hf Hl Hp. unfold mouseCallback. rewrite Hf.
  cbn [set_lastX set_lastY set_yaw set_pitch yaw pitch lastX lastY].
  rewrite (no_offset (lastY g) Hl).
  pose proof (FloatFacts.finite_not_nan _ (FloatFacts.inRange_finite _ Hp)) as Hn.
  destruct (add64_zero (pitch g) Hn) as [-> | [Hz ->]].
  - destruct (inRange_unclamped _ Hp) as [Hhi Hlo].
    rewrite Hhi. cbn [pitch set_pitch set_yaw]. rewrite Hlo.
    cbn [set_cameraFront pitch yaw set_pitch set_yaw].
    split; [now apply eqb_same | reflexivity].
  - rewrite Hz. split; reflexivity.
Qed.

(** A sample at the abscissa of the last one turns the pitch only. *)
Lemma mouseCallback_upright (ypos : float64) (g : Globals) :
  firstMouse g = false -> isFinite (lastX g) = true -> isNaN (yaw g) = false ->
  eqb (yaw (mouseCallback (lastX g) ypos g)) (yaw g) = true.
Proof.
  intros Hf Hl Hn. unfold mouseCallback. rewrite Hf.
  cbn [set_lastX set_lastY set_yaw set_pitch yaw pitch lastX lastY].
  rewrite (no_offset (lastX g) Hl).
  assert (eqb (add64 (yaw g) (S754_zero false)) (yaw g) = true) as He.
  { destruct (add64_zero (yaw g) Hn) as [-> | [Hz ->]];
      [now apply eqb_same | now rewrite Hz]. }
  repeat match goal with
    | |- context [if ?b then _ else _] => destruct b
    end; exact He.
Qed.

End Axis.
End AxisFacts.

(** X29.  The two axes of the mouse are independent where the arithmetic
    of [float64] allows it.  After the first sample ([firstMouse] is
    false): when the last cursor height is finite and the pitch is
    between -89 and 89, a cursor position at the height of the last one
    leaves the pitch numerically as it was (equal under [==]) and turns
    the yaw by the horizontal offset times the sensitivity; when the last
    abscissa is finite and the yaw is not NaN, a position at the abscissa
    of the last one leaves the yaw numerically as it was (equal under
    [==]). *)
Theorem mouse_axes_independent :
  forall (M : Collab.Mgl32) (H : Collab.Host) (pos : Float.float64)
         (g : Viewer.Globals),
    Viewer.firstMouse g = false ->
    (Float.isFinite (Viewer.lastY g) = true ->
     Spec.inRange (Viewer.pitch g) ->
     Float.eqb (Viewer.pitch (Viewer.mouseCallback pos (Viewer.lastY g) g))
               (Viewer.pitch g) = true
     /\ Viewer.yaw (Viewer.mouseCallback pos (Viewer.lastY g) g)
        = Float.add64 (Viewer.yaw g)
            (Float.mul64 (Float.sub64 pos (Viewer.lastX g))
                         Viewer.mouseSensitivity))
    /\ (Float.isFinite (Viewer.lastX g) = true ->
        Float.isNaN (Viewer.yaw g) = false ->
        Float.eqb (Viewer.yaw (Viewer.mouseCallback (Viewer.lastX g) pos g))
                  (Viewer.yaw g) = true).
Proof.
  intros M H pos g Hf. split.
  - intros Hl Hp. now apply AxisFacts.mouseCallback_level.
  - intros Hl Hn. now apply AxisFacts.mouseCallback_upright.
Qed.

Lemma mouse_axes_independent_witness :
  let g := @Viewer.set_firstMouse Double.mgl32 false Double.initialGlobals in
  Float.eqb
    (Viewer.pitch (@Viewer.mouseCallback Double.mgl32 Double.host
                     (Float.int64_to64 700) (Viewer.lastY g) g))
    (Viewer.pitch g) = true.
Proof.
  cbv zeta.
  apply (proj1 (mouse_axes_independent Double.mgl32 Double.host
                  (Float.int64_to64 700)
                  (@Viewer.set_firstMouse Double.mgl32 false Double.initialGlobals)
                  eq_refl)).
  - reflexivity.
  - split; vm_compute; reflexivity.
Defined.

(** ** The loop of the one-mesh viewer *)

Module OneMeshFacts.
Import GoInt Float Mesh Collab Viewer OneMesh Spec Behaviour RunFacts.

Section OneMesh.
Context {M : Mgl32} {H : Host} {G : GLDriver}.
Variable program : Z.
Variable indices : list Z.
Variable maxSize : float32.
Variables projectionUniform viewUniform modelUniform : Z.

Abbreviation draw :=
  (drawOne program indices maxSize projectionUniform viewUniform modelUniform).
Abbreviation step :=
  (frameOne program indices maxSize projectionUniform viewUniform modelUniform).
Abbreviation loop :=
  (mainLoopOne program indices maxSize projectionUniform viewUniform modelUniform).

Lemma drawOne_runs (w : World) :
  validIndex (globals w) -> exists w', draw w = Some (tt, w').
Proof.
  intros Hi. destruct (CameraFacts.index_speedMultipliers _ Hi) as [m Hm].
  unfold drawOne.
  unfold bind at 1, glDo at 1, act at 1.
  unfold bind at 1, glDo at 1, act at 1.
  unfold bind at 1, read at 1.
  cbn [globals with_gl]. rewrite Hm.
  match goal with
  | |- exists w', ?c ?w0 = Some (tt, w') =>
      assert (total c) as Ht; [|destruct (Ht w0) as ([] & w' & E); eauto]
  end.
  repeat first [ apply total_lift_bind
               | apply total_bind; [|intros ?]
               | apply total_ret | apply total_act | apply total_read ].
Qed.

Lemma maintains_drawOne (Q : Globals -> Prop) : maintains Q draw.
Proof.
  unfold drawOne, glDo, uniformLocation.
  repeat first
    [ apply InvariantFacts.maintains_lift | apply InvariantFacts.maintains_read
    | apply InvariantFacts.maintains_act; reflexivity
    | apply InvariantFacts.maintains_bind; [|intros ?] ].
Qed.

Lemma frameOne_run (i : FrameInput) (w : World) :
  step i w
  = match processInput (getKey i) (clocked i (globals w)) with
    | None => None
    | Some g0 =>
        match draw (with_globals (fun _ => g0) w) with
        | None => None
        | Some (_, w2) =>
            match PollEvents (events i) w2 with
            | None => None
            | Some (_, w3) =>
                Some (tt, Sleep (pacing (deltaTime (globals w3))) w3)
            end
        end
    end.
Proof.
  unfold frameOne.
  unfold bind at 1, update at 1, act at 1.
  unfold bind at 1, update at 1, act at 1.
  unfold bind at 1, read at 1.
  unfold bind at 1, lift at 1.
  cbn [globals with_globals].
  change (set_lastFrame (now i)
            (set_deltaTime (sub64 (now i) (lastFrame (globals w))) (globals w)))
    with (clocked i (globals w)).
  destruct (processInput (getKey i) (clocked i (globals w))) as [g0|];
    [|reflexivity].
  unfold bind at 1, update at 1, act at 1.
  unfold bind at 1.
  match goal with
  | |- context [drawOne _ _ _ _ _ _ ?w0] =>
      change w0 with (with_globals (fun _ => g0) w)
  end.
  destruct (draw (with_globals (fun _ => g0) w)) as [[[] w2]|]; [|reflexivity].
  unfold bind at 1.
  destruct (PollEvents (events i) w2) as [[[] w3]|]; reflexivity.
Qed.

Lemma frameOne_runs (i : FrameInput) (w : World) :
  validIndex (globals w) ->
  exists w', step i w = Some (tt, w') /\ validIndex (globals w').
Proof.
  intros Hi. rewrite frameOne_run.
  destruct (CameraFacts.processInput_speed (getKey i) (clocked i (globals w)) Hi)
    as (g0 & -> & Hidx & _).
  assert (validIndex g0) as Hi0.
  { unfold validIndex. rewrite Hidx.
    apply (LoopFacts.validIndex_cycleSpeed _ (clocked i (globals w))). exact Hi. }
  destruct (drawOne_runs (with_globals (fun _ => g0) w) Hi0) as (w2 & E2).
  rewrite E2.
  pose proof (maintains_drawOne validIndex (with_globals (fun _ => g0) w) tt w2
                Hi0 E2) as Hi2.
  destruct (LoopFacts.total_PollEvents (events i) w2) as ([] & w3 & E3).
  rewrite E3. eexists. split; [reflexivity|].
  cbn [globals Sleep].
  refine (InvariantFacts.maintains_forEach validIndex (events i) dispatch _
            w2 tt w3 Hi2 E3).
  apply Forall_forall. intros e _. destruct e as [x y | k a |]; cbn [dispatch].
  - apply InvariantFacts.maintains_update. intros g Hg. unfold validIndex.
    now rewrite (proj1 (FrameInvariants.mouseCallback_speed x y g)).
  - apply FrameInvariants.maintains_keyCallback.
  - apply InvariantFacts.maintains_act. reflexivity.
Qed.

Lemma mainLoopOne_runs (inputs : list FrameInput) (w : World) :
  validIndex (globals w) ->
  exists w', loop inputs w = Some (tt, w') /\ validIndex (globals w').
Proof.
  revert w. induction inputs as [|i rest IH]; intros w Hi.
  - exists w. split; [reflexivity | exact Hi].
  - cbn [mainLoopOne]. unfold bind at 1, read.
    destruct (shouldClose w); [exists w; split; [reflexivity | exact Hi]|].
    destruct (frameOne_runs i w Hi) as (w1 & E1 & Hi1).
    rewrite (SceneFacts.bind_Some _ _ _ _ _ E1). now apply IH.
Qed.

End OneMesh.
End OneMeshFacts.

(** X30.  The loop of the one-mesh viewer, entered with the speed index
    within the table, runs every frame it is given (up to the one that
    sets the closing flag) and never ends the process: nothing in its
    body is fatal, and the index stays within the table. *)
Theorem one_mesh_loop_completes :
  forall (M : Collab.Mgl32) (H : Collab.Host) (G : Collab.GLDriver)
         (program : Z) (indices : list Z) (maxSize : Float.float32)
         (projectionUniform viewUniform modelUniform : Z)
         (inputs : list Viewer.FrameInput) (w : Viewer.World),
    Behaviour.validIndex (Viewer.globals w) ->
    exists w',
      OneMesh.mainLoopOne program indices maxSize
        projectionUniform viewUniform modelUniform inputs w
      = Some (tt, w')
      /\ Behaviour.validIndex (Viewer.globals w').
Proof. intros M H G. apply OneMeshFacts.mainLoopOne_runs. Qed.

Lemma one_mesh_loop_completes_witness :
  exists w',
    @OneMesh.mainLoopOne Double.mgl32 Double.host Double.driver 1 [0; 1; 2]
       (Float.int_to32 5) 0 0 0
       [@Viewer.mkFrameInput (Float.int64_to64 0) Double.shiftDown
          Collab.Canceled [];
        @Viewer.mkFrameInput (Float.int64_to64 1) Double.shiftUp
          Collab.Canceled [Collab.KeyEvent Collab.KeyEscape Collab.Press]]
       Double.initialWorld
    = Some (tt, w')
    /\ @Behaviour.validIndex Double.mgl32 (Viewer.globals w').
Proof.
  apply (one_mesh_loop_completes Double.mgl32 Double.host Double.driver).
  unfold Behaviour.validIndex. vm_compute. split; [discriminate | reflexivity].
Defined.
